(** * Zephyr thread awareness for GDB: a shallow embedding of
      [support/zephyr_gdb.py] and the properties of its core.

    The Python module runs inside GDB.  Everything it asks of the debugger
    (symbol lookup, typed reads of target memory, the live registers, the
    frame chain) is gathered in one record, [Gdb], whose fields answer with a
    value or with the exception the call raises.  The module's globals
    ([thread_cache], [_cached_offsets], [_real_cpu_regs], ...) become the
    record [Session]; the live stack pointer and program counter are the
    record [Regs].  Every function of the module is a function over these,
    written in the order of the source. *)

From Stdlib Require Import ZArith List String Ascii Bool Lia.
Import ListNotations.
Local Open Scope string_scope.
Local Open Scope list_scope.
Local Open Scope Z_scope.

(** ** Exceptions and fallible host calls *)

(** The exception classes the module's handlers tell apart.  [gdb.MemoryError]
    is a subclass of [gdb.error] and is represented by [gdb_error];
    [OtherException] stands for any other subclass of [Exception]. *)
Inductive exn : Type :=
| gdb_error
| TypeError
| IndexError
| AttributeError
| OtherException.

Inductive result (A : Type) : Type :=
| Ok (a : A)
| Raise (e : exn).
Arguments Ok {A} a.
Arguments Raise {A} e.

Definition bind {A B : Type} (r : result A) (k : A -> result B) : result B :=
  match r with
  | Ok a => k a
  | Raise e => Raise e
  end.

Notation "x <- r ;; k" := (bind r (fun x => k))
  (at level 61, r at next level, right associativity).

(** [try: r  except Exception: d] *)
Definition try_default {A : Type} (r : result A) (d : A) : A :=
  match r with
  | Ok a => a
  | Raise _ => d
  end.

(** ** The debugger as seen by the module *)

(** A [gdb.Symbol]: [sym_value] tells whether [.value()] raises, [sym_int]
    is [int(sym.value())], [sym_index i] is [int(sym.value()[i])]. *)
Record Symbol : Type := {
  sym_value : result unit;
  sym_int : result Z;
  sym_index : nat -> result Z
}.

(** The [callee_saved] member of a [k_thread]: its field names, each with the
    outcome of [int(callee_saved[name])]. *)
Definition CalleeSaved : Type := list (string * result Z).

(** The [_kernel] object: the three members [discover_threads] reads. *)
Record Kernel : Type := {
  k_cpus0_current : result Z;      (* kernel['cpus'][0]['current'] *)
  k_current : result Z;            (* kernel['current'] *)
  k_threads : result Z             (* kernel['threads'] *)
}.

Inductive reg : Type := SP | PC.

(** The live registers [$sp] and [$pc]. *)
Record Regs : Type := {
  sp : Z;
  pc : Z
}.

(** [sal.symtab.filename], [sal.symtab.fullname()], [sal.line]. *)
Record Sal : Type := {
  sal_filename : string;
  sal_fullname : string;
  sal_line : Z
}.

(** A [gdb.Frame]: [None] in [f_name] is a frame without a function name,
    [None] in [f_sal] is a line table entry without a symtab. *)
Record GdbFrame : Type := {
  f_pc : result Z;
  f_name : result (option string);
  f_sal : result (option Sal);
  f_arch : result string
}.

(** What [gdb.newest_frame()] and the successive [frame.older()] give:
    [NoFrame] is [None], [FrameError e] is a call that raised [e].  GDB's
    frame chain is finite. *)
Inductive FrameChain : Type :=
| NoFrame
| FrameError (e : exn)
| Frame (f : GdbFrame) (older : FrameChain).

Record Gdb : Type := {
  (* gdb.lookup_symbol(name)[0] *)
  lookup_symbol : string -> result (option Symbol);
  (* gdb.execute('show architecture', to_string=True) *)
  show_architecture : result string;
  (* gdb.parse_and_eval('_kernel') *)
  parse_and_eval_kernel : result Kernel;
  (* what _update stores in self.name for the k_thread at an address *)
  thread_name : Z -> string;
  (* int(thread['base']['thread_state']), int(thread['base']['prio']) *)
  thread_state : Z -> result Z;
  thread_prio : Z -> result Z;
  (* thread['callee_saved'] *)
  thread_callee_saved : Z -> result CalleeSaved;
  (* current_ptr.dereference()['next_thread'] *)
  thread_next_thread : Z -> result Z;
  (* gdb.selected_inferior().read_memory(addr, len) *)
  read_memory : Z -> Z -> result (list Byte.byte);
  (* int(gdb.parse_and_eval('$sp')) succeeds; likewise '$pc' *)
  reg_readable : reg -> bool;
  (* gdb.execute('set $sp = 0x...') is accepted; likewise '$pc' *)
  reg_writable : reg -> Z -> bool;
  (* the frame chain GDB unwinds from given live registers *)
  newest_frame : Regs -> FrameChain;
  (* gdb.block_for_pc(pc), walked up to the enclosing function's name *)
  block_function : Z -> result (option string);
  (* gdb.find_pc_line(pc), None when the sal has no symtab *)
  find_pc_line : Z -> result (option Sal)
}.

(** Reading and writing a live register.  A write the debugger accepts
    stores the value; a refused write raises and stores nothing. *)
Definition get_reg (r : reg) (rs : Regs) : Z :=
  match r with
  | SP => sp rs
  | PC => pc rs
  end.

Definition put_reg (r : reg) (v : Z) (rs : Regs) : Regs :=
  match r with
  | SP => {| sp := v; pc := pc rs |}
  | PC => {| sp := sp rs; pc := v |}
  end.

Definition read_reg (g : Gdb) (r : reg) (rs : Regs) : result Z :=
  if reg_readable g r then Ok (get_reg r rs) else Raise gdb_error.

Definition set_reg (g : Gdb) (r : reg) (v : Z) (rs : Regs) : result Regs :=
  if reg_writable g r v then Ok (put_reg r v rs) else Raise gdb_error.

(** ** Architecture handlers *)

Inductive ArchitectureHandler : Type :=
| ARMCortexMHandler
| x86Handler
| ARCHandler
| RISCVHandler.

Fixpoint field_lookup (name : string) (cs : CalleeSaved) : option (result Z) :=
  match cs with
  | [] => None
  | (n, v) :: rest => if String.eqb name n then Some v else field_lookup name rest
  end.

(** [ArchitectureHandler._probe_field]: the first candidate name that is a
    field decides; a failing conversion gives 0 and no later candidate is
    tried. *)
Fixpoint _probe_field (cs : CalleeSaved) (fields : list string) : Z :=
  match fields with
  | [] => 0
  | name :: rest =>
      match field_lookup name cs with
      | Some v => try_default v 0
      | None => _probe_field cs rest
      end
  end.

(** [struct.unpack('<I', pc_bytes)[0]] *)
Definition unpack_le_u32 (bs : list Byte.byte) : result Z :=
  match bs with
  | [b0; b1; b2; b3] =>
      Ok (Z.lor (Z.of_N (Byte.to_N b0))
         (Z.lor (Z.shiftl (Z.of_N (Byte.to_N b1)) 8)
         (Z.lor (Z.shiftl (Z.of_N (Byte.to_N b2)) 16)
                (Z.shiftl (Z.of_N (Byte.to_N b3)) 24))))
  | _ => Raise OtherException
  end.

Definition get_thread_pc (arch : ArchitectureHandler) (g : Gdb) (cs : CalleeSaved) : Z :=
  match arch with
  | ARMCortexMHandler =>
      match field_lookup "psp" cs with
      | Some v =>
          try_default
            (psp <- v ;;
             pc_bytes <- read_memory g (psp + 24) 4 ;;
             unpack_le_u32 pc_bytes)
            0
      | None => 0
      end
  | x86Handler => 0
  | ARCHandler => _probe_field cs ["blink"; "pc"; "ilink"]
  | RISCVHandler => _probe_field cs ["ra"; "mepc"; "pc"]
  end.

Definition get_thread_sp (arch : ArchitectureHandler) (cs : CalleeSaved) : Z :=
  match arch with
  | ARMCortexMHandler => _probe_field cs ["psp"; "sp"]
  | x86Handler => 0
  | ARCHandler => 0
  | RISCVHandler => _probe_field cs ["sp"]
  end.

(** [str.lower] on the ASCII letters and the substring test [sub in s]. *)
Definition lower_ascii (c : ascii) : ascii :=
  let n := nat_of_ascii c in
  if (Nat.leb 65 n && Nat.leb n 90)%bool then ascii_of_nat (n + 32) else c.

Fixpoint lower (s : string) : string :=
  match s with
  | EmptyString => EmptyString
  | String c s' => String (lower_ascii c) (lower s')
  end.

Fixpoint contains (sub s : string) : bool :=
  if String.prefix sub s then true
  else match s with
       | EmptyString => false
       | String _ s' => contains sub s'
       end.

(** [detect_architecture]: the handler it returns.  What its last branch
    prints is [detect_architecture_output], with the console output below. *)
Definition detect_architecture (g : Gdb) : ArchitectureHandler :=
  match show_architecture g with
  | Raise _ => ARMCortexMHandler
  | Ok out =>
      let arch_str := lower out in
      if (contains "arm" arch_str || contains "cortex" arch_str)%bool then ARMCortexMHandler
      else if (contains "i386" arch_str || contains "x86-64" arch_str)%bool then x86Handler
      else if contains "arc" arch_str then ARCHandler
      else if contains "riscv" arch_str then RISCVHandler
      else ARMCortexMHandler
  end.

(** ** Offset discovery *)

(** A flat offset dictionary: the keys in insertion order with their values. *)
Definition OffsetDict : Type := list (string * Z).

Fixpoint dict_get (d : OffsetDict) (key : string) : option Z :=
  match d with
  | [] => None
  | (k, v) :: rest => if String.eqb key k then Some v else dict_get rest key
  end.

(** [d.get(key, 0)] *)
Definition dict_get_default (d : OffsetDict) (key : string) : Z :=
  match dict_get d key with
  | Some v => v
  | None => 0
  end.

Definition OFFSET_FIELDS : list string :=
  ["version"; "k_curr_thread"; "k_threads"; "t_entry";
   "t_next_thread"; "t_state"; "t_user_options"; "t_prio";
   "t_stack_pointer"; "t_name"; "t_arch"; "t_preempt_float";
   "t_coop_float"].

(** The dict comprehension
    [{name: int(offsets_value[i]) for i, name in enumerate(OFFSET_FIELDS) if num_offsets > i}]:
    entries are read in order, only where the guard holds, and the first
    failing read raises. *)
Fixpoint read_offsets (s : Symbol) (num_offsets : Z) (i : nat) (names : list string)
  : result OffsetDict :=
  match names with
  | [] => Ok []
  | name :: rest =>
      if Z.of_nat i <? num_offsets then
        v <- sym_index s i ;;
        tl <- read_offsets s num_offsets (S i) rest ;;
        Ok ((name, v) :: tl)
      else read_offsets s num_offsets (S i) rest
  end.

(** [num_offsets]: 13 unless the count symbol exists and converts. *)
Definition declared_count (num_symbol : option Symbol) : Z :=
  match num_symbol with
  | Some ns => try_default (_ <- sym_value ns ;; sym_int ns) 13
  | None => 13
  end.

(** The handlers of [discover_offsets_from_symbols]: the inner one turns
    [IndexError], [TypeError] and [gdb.error] into [None], the outer one
    [gdb.error], [AttributeError] and [TypeError]; anything else leaves the
    function as an exception. *)
Definition outer_handler (r : result (option OffsetDict)) : result (option OffsetDict) :=
  match r with
  | Raise gdb_error | Raise AttributeError | Raise TypeError => Ok None
  | _ => r
  end.

Definition inner_handler (r : result OffsetDict) : result (option OffsetDict) :=
  match r with
  | Ok d => Ok (Some d)
  | Raise IndexError | Raise TypeError | Raise gdb_error => Ok None
  | Raise e => Raise e
  end.

(** [discover_offsets_from_symbols], with the names it passed to
    [gdb.lookup_symbol], in order. *)
Definition discover_offsets_from_symbols (g : Gdb)
  : list string * result (option OffsetDict) :=
  match lookup_symbol g "_kernel_thread_info_offsets" with
  | Raise e => (["_kernel_thread_info_offsets"], outer_handler (Raise e))
  | Ok None => (["_kernel_thread_info_offsets"], Ok None)
  | Ok (Some offsets_symbol) =>
      (["_kernel_thread_info_offsets"; "_kernel_thread_info_num_offsets"],
       outer_handler
         (num_symbol <- lookup_symbol g "_kernel_thread_info_num_offsets" ;;
          let num_offsets := declared_count num_symbol in
          _ <- sym_value offsets_symbol ;;
          inner_handler (read_offsets offsets_symbol num_offsets 0 OFFSET_FIELDS)))
  end.

(** The nested table [discover_threads] is handed: either the sentinel of
    [get_hardcoded_offsets] (both members [None]: use GDB's type system), or
    the table [adapt_offsets_to_structure] builds. *)
Record SymbolOffsets : Type := {
  kernel_threads : Z;
  kernel_current : Z;
  thread_next_thread_off : Z;
  thread_stack_pointer : Z;
  thread_state_off : Z;
  thread_prio_off : Z;
  thread_name_off : Z;
  thread_entry : Z;
  version : option Z
}.

Inductive Offsets : Type :=
| Hardcoded
| Adapted (o : SymbolOffsets).

Definition adapt_offsets_to_structure (symbol_offsets : OffsetDict) : Offsets :=
  Adapted {|
    kernel_threads := dict_get_default symbol_offsets "k_threads";
    kernel_current := dict_get_default symbol_offsets "k_curr_thread";
    thread_next_thread_off := dict_get_default symbol_offsets "t_next_thread";
    thread_stack_pointer := dict_get_default symbol_offsets "t_stack_pointer";
    thread_state_off := dict_get_default symbol_offsets "t_state";
    thread_prio_off := dict_get_default symbol_offsets "t_prio";
    thread_name_off := dict_get_default symbol_offsets "t_name";
    thread_entry := dict_get_default symbol_offsets "t_entry";
    version := dict_get symbol_offsets "version"
  |}.

Definition get_hardcoded_offsets : Offsets := Hardcoded.

(** [get_kernel_offsets], reading the global [_discovery_mode]; the first
    component lists the symbol lookups it caused.  [if symbol_offsets:] is
    false for [None] and for the empty dictionary. *)
Definition get_kernel_offsets (g : Gdb) (_discovery_mode : string)
  : list string * result (option Offsets) :=
  if String.eqb _discovery_mode "hardcoded" then
    ([], Ok (Some get_hardcoded_offsets))
  else
    let (lookups, discovered) := discover_offsets_from_symbols g in
    (lookups,
     symbol_offsets <- discovered ;;
     match symbol_offsets with
     | Some (entry :: more) =>
         Ok (Some (adapt_offsets_to_structure (entry :: more)))
     | _ =>
         if String.eqb _discovery_mode "symbols" then Ok None
         else Ok (Some get_hardcoded_offsets)
     end).

(** ** Threads and the session state *)

(** A [ZephyrThread] object.  [callee_saved] is [None] where reading the
    member failed.  The display string [frame_str] is not modelled. *)
Record ZephyrThread : Type := {
  thread_ptr : Z;
  offsets : Offsets;
  arch : ArchitectureHandler;
  lwp : Z;
  active : bool;
  name : string;
  state : Z;
  prio : Z;
  callee_saved : option CalleeSaved
}.

(** The module's globals, with the class attribute [ZephyrThread.next_lwp]. *)
Record Session : Type := {
  thread_cache : list ZephyrThread;
  current_thread_ptr : option Z;
  _cached_offsets : option Offsets;
  _hw_active_lwp : option Z;
  _discovery_mode : string;
  _real_cpu_regs : option Regs;
  next_lwp : Z
}.

Definition set_thread_cache (v : list ZephyrThread) (s : Session) : Session :=
  {| thread_cache := v; current_thread_ptr := current_thread_ptr s;
     _cached_offsets := _cached_offsets s; _hw_active_lwp := _hw_active_lwp s;
     _discovery_mode := _discovery_mode s; _real_cpu_regs := _real_cpu_regs s;
     next_lwp := next_lwp s |}.

Definition set_current_thread_ptr (v : option Z) (s : Session) : Session :=
  {| thread_cache := thread_cache s; current_thread_ptr := v;
     _cached_offsets := _cached_offsets s; _hw_active_lwp := _hw_active_lwp s;
     _discovery_mode := _discovery_mode s; _real_cpu_regs := _real_cpu_regs s;
     next_lwp := next_lwp s |}.

Definition set_hw_active_lwp (v : option Z) (s : Session) : Session :=
  {| thread_cache := thread_cache s; current_thread_ptr := current_thread_ptr s;
     _cached_offsets := _cached_offsets s; _hw_active_lwp := v;
     _discovery_mode := _discovery_mode s; _real_cpu_regs := _real_cpu_regs s;
     next_lwp := next_lwp s |}.

Definition set_real_cpu_regs (v : option Regs) (s : Session) : Session :=
  {| thread_cache := thread_cache s; current_thread_ptr := current_thread_ptr s;
     _cached_offsets := _cached_offsets s; _hw_active_lwp := _hw_active_lwp s;
     _discovery_mode := _discovery_mode s; _real_cpu_regs := v;
     next_lwp := next_lwp s |}.

Definition set_next_lwp (v : Z) (s : Session) : Session :=
  {| thread_cache := thread_cache s; current_thread_ptr := current_thread_ptr s;
     _cached_offsets := _cached_offsets s; _hw_active_lwp := _hw_active_lwp s;
     _discovery_mode := _discovery_mode s; _real_cpu_regs := _real_cpu_regs s;
     next_lwp := v |}.

(** [self.thread_ptr == current_thread_ptr] *)
Definition is_current (ptr : Z) (current : option Z) : bool :=
  match current with
  | Some c => ptr =? c
  | None => false
  end.

(** [ZephyrThread.__init__] followed by [_update] and [_update_frame]: the
    object takes the counter's value as its [lwp]; each member is read under
    its own handler and falls back to its default.  ([dereference()] builds a
    lazy value and does not raise on a pointer, so the handler around the
    whole of [_update] is not entered.) *)
Definition ZephyrThread_init (g : Gdb) (current : option Z) (counter : Z)
    (ptr : Z) (offs : Offsets) (a : ArchitectureHandler) : ZephyrThread :=
  {| thread_ptr := ptr;
     offsets := offs;
     arch := a;
     lwp := counter;
     active := is_current ptr current;
     name := thread_name g ptr;
     state := try_default (thread_state g ptr) 0;
     prio := try_default (thread_prio g ptr) 0;
     callee_saved := match thread_callee_saved g ptr with
                     | Ok cs => Some cs
                     | Raise _ => None
                     end |}.

(** ** Enumeration *)

Definition max_threads : nat := 100.

(** The variables of the traversal loop in [discover_threads]. *)
Record Loop : Type := {
  current_ptr : Z;
  new_thread_list : list ZephyrThread;
  lwp_counter : Z
}.

(** The loop test
    [current_ptr and int(current_ptr) != 0 and len(new_thread_list) < max_threads]. *)
Definition loop_test (st : Loop) : bool :=
  negb (current_ptr st =? 0) && Nat.ltb (List.length (new_thread_list st)) max_threads.

(** One evaluation of the test and, when it holds, of the body: [inl] goes
    round again, [inr] leaves the loop (test false, [break], or the handler
    around the read of [next_thread]). *)
Definition loop_iter (g : Gdb) (current : option Z) (offs : Offsets)
    (a : ArchitectureHandler) (thread_list_head : Z) (st : Loop) : Loop + Loop :=
  if loop_test st then
    let zt := ZephyrThread_init g current (lwp_counter st) (current_ptr st) offs a in
    let threads := new_thread_list st ++ [zt] in
    let counter := lwp_counter st + 1 in
    match thread_next_thread g (current_ptr st) with
    | Raise _ =>
        inr {| current_ptr := current_ptr st; new_thread_list := threads;
               lwp_counter := counter |}
    | Ok next =>
        if next =? thread_list_head then
          inr {| current_ptr := next; new_thread_list := threads;
                 lwp_counter := counter |}
        else
          inl {| current_ptr := next; new_thread_list := threads;
                 lwp_counter := counter |}
    end
  else inr st.

(** The [while] loop run for at most [fuel] iterations; [None] when the loop
    has not left by then. *)
Fixpoint while_loop (g : Gdb) (current : option Z) (offs : Offsets)
    (a : ArchitectureHandler) (thread_list_head : Z) (fuel : nat) (st : Loop)
  : option Loop :=
  match fuel with
  | O => None
  | S fuel' =>
      match loop_iter g current offs a thread_list_head st with
      | inl st' => while_loop g current offs a thread_list_head fuel' st'
      | inr st' => Some st'
      end
  end.

(** The traversal as [discover_threads] runs it, from the list head with an
    empty [new_thread_list].  [max_threads + 1] iterations always leave the
    loop ([traverse_leaves_loop] below), so the last branch is never taken. *)
Definition traverse (g : Gdb) (current : option Z) (offs : Offsets)
    (a : ArchitectureHandler) (thread_list_head : Z) (counter : Z) : Loop :=
  let st := {| current_ptr := thread_list_head; new_thread_list := [];
               lwp_counter := counter |} in
  match while_loop g current offs a thread_list_head (S max_threads) st with
  | Some final => final
  | None => st
  end.

(** Console output: the announcements of new threads and the diagnostics
    of a verbose call. *)
Inductive Output : Type :=
| NewThread (thread_name : string) (thread_lwp : Z)
| Diagnostic (text : string).

(** The lines printed under [if verbose:]. *)
Definition warn (verbose : bool) (lines : list string) : list Output :=
  if verbose then map Diagnostic lines else [].

(** What [detect_architecture] prints: the three lines of its last branch,
    for a description that names none of the families.  They are printed by
    the function itself, so no [verbose] of a caller holds them back. *)
Definition detect_architecture_output (g : Gdb) : list Output :=
  match show_architecture g with
  | Raise _ => []
  | Ok out =>
      let arch_str := lower out in
      if (contains "arm" arch_str || contains "cortex" arch_str)%bool then []
      else if (contains "i386" arch_str || contains "x86-64" arch_str)%bool then []
      else if contains "arc" arch_str then []
      else if contains "riscv" arch_str then []
      else [Diagnostic (String.append "Warning: Unknown architecture: " arch_str);
            Diagnostic "Thread awareness may not work correctly";
            Diagnostic "Supported: ARM Cortex-M, x86/x86-64, ARC, RISC-V"]
  end.

(** [str(t.thread_ptr) in old_thread_set]: pointers of one type print alike
    exactly when their addresses are equal. *)
Definition in_thread_set (ptr : Z) (cache : list ZephyrThread) : bool :=
  existsb (fun t => thread_ptr t =? ptr) cache.

Definition announce (old_cache new_thread_list : list ZephyrThread) : list Output :=
  map (fun t => NewThread (name t) (lwp t))
      (filter (fun t => negb (in_thread_set (thread_ptr t) old_cache)) new_thread_list).

(** The first thread of the cache with [active] set gives [_hw_active_lwp]. *)
Definition first_active (cache : list ZephyrThread) : option Z :=
  match find active cache with
  | Some t => Some (lwp t)
  | None => None
  end.

(** [current_thread_ptr]: the per-CPU member, else the direct member, else
    [None]. *)
Definition read_current (kernel : Kernel) : option Z :=
  match k_cpus0_current kernel with
  | Ok p => Some p
  | Raise _ =>
      match k_current kernel with
      | Ok p => Some p
      | Raise _ => None
      end
  end.

(** The warning where neither member gave the current thread. *)
Definition current_warning (verbose : bool) (current : option Z) : list Output :=
  match current with
  | None => warn verbose ["Warning: Could not determine current thread"]
  | Some _ => []
  end.

(** [discover_threads].  Every debugger call of the body sits under a
    handler of its own, which the branches below follow; the enclosing
    [except Exception] has nothing left to catch.  Each [return] before the
    traversal leaves [thread_cache] and [_hw_active_lwp] unassigned. *)
Definition discover_threads (g : Gdb) (verbose : bool) (s : Session)
  : Session * list Output :=
  let s := set_next_lwp 1 s in
  let a := detect_architecture g in
  let out_arch := detect_architecture_output g in
  match _cached_offsets s with
  | None =>
      (s, out_arch ++
          warn verbose ["Thread discovery failed: No offsets available";
                        "Run 'zephyr-discovery' to configure offset discovery"])
  | Some offs =>
      match parse_and_eval_kernel g with
      | Raise _ =>
          (s, out_arch ++
              warn verbose ["Warning: Could not find '_kernel' symbol";
                            "Make sure you are debugging a Zephyr application";
                            "and that CONFIG_DEBUG_INFO=y is set"])
      | Ok kernel =>
          let current := read_current kernel in
          let out_current := current_warning verbose current in
          let s := set_current_thread_ptr current s in
          match k_threads kernel with
          | Raise _ =>
              (s, out_arch ++ out_current ++
                  warn verbose
                    ["Warning: Could not find thread list in kernel structure";
                     "Make sure CONFIG_THREAD_MONITOR=y is set in your Zephyr configuration"])
          | Ok thread_list_head =>
              if thread_list_head =? 0 then
                (s, out_arch ++ out_current ++ warn verbose ["Warning: Thread list is empty"])
              else
                let final := traverse g current offs a thread_list_head (next_lwp s) in
                let s := set_next_lwp (lwp_counter final) s in
                let out_new := announce (thread_cache s) (new_thread_list final) in
                let s := set_thread_cache (new_thread_list final) s in
                let s := set_hw_active_lwp (first_active (thread_cache s)) s in
                (s, out_arch ++ out_current ++ out_new ++
                    warn (verbose && Nat.eqb (List.length (thread_cache s)) 0)
                         ["Warning: No threads discovered"])
          end
      end
  end.

(** ** Register context switching *)

(** The two writes [set $sp = ...; set $pc = ...] under one handler: the
    first refused write ends the block and what was written before stays. *)
Definition write_sp_pc_swallow (g : Gdb) (target : Regs) (live : Regs) : Regs :=
  match set_reg g SP (sp target) live with
  | Raise _ => live
  | Ok live1 => try_default (set_reg g PC (pc target) live1) live1
  end.

(** The dictionary [{"sp": int($sp), "pc": int($pc)}]. *)
Definition capture (g : Gdb) (live : Regs) : result Regs :=
  s <- read_reg g SP live ;;
  p <- read_reg g PC live ;;
  Ok {| sp := s; pc := p |}.

(** [target_thread.lwp == _hw_active_lwp] *)
Definition is_hw_active (t : ZephyrThread) (s : Session) : bool :=
  match _hw_active_lwp s with
  | Some l => lwp t =? l
  | None => false
  end.

Definition _switch_thread_context (g : Gdb) (target_thread : ZephyrThread)
    (st : Regs * Session) : Regs * Session :=
  let (live, s) := st in
  if is_hw_active target_thread s then
    match _real_cpu_regs s with
    | Some saved => (write_sp_pc_swallow g saved live, set_real_cpu_regs None s)
    | None => (live, s)
    end
  else
    match callee_saved target_thread with
    | Some cs =>
        let saved_pc := get_thread_pc (arch target_thread) g cs in
        let saved_sp := get_thread_sp (arch target_thread) cs in
        if negb (saved_pc =? 0) && negb (saved_sp =? 0) then
          let target := {| sp := saved_sp; pc := saved_pc |} in
          match _real_cpu_regs s with
          | Some _ => (write_sp_pc_swallow g target live, s)
          | None =>
              match capture g live with
              | Raise _ => (live, s)
              | Ok saved =>
                  (write_sp_pc_swallow g target live, set_real_cpu_regs (Some saved) s)
              end
          end
        else (live, s)
    | None => (live, s)
    end.

Definition stop_handler (g : Gdb) (st : Regs * Session) : (Regs * Session) * list Output :=
  let (live, s) := st in
  let (live, s) :=
    match _real_cpu_regs s with
    | Some saved => (write_sp_pc_swallow g saved live, set_real_cpu_regs None s)
    | None => (live, s)
    end in
  let (s, out) := discover_threads g false s in
  ((live, s), out).

Definition exit_handler (s : Session) : Session :=
  {| thread_cache := []; current_thread_ptr := None; _cached_offsets := None;
     _hw_active_lwp := None; _discovery_mode := _discovery_mode s;
     _real_cpu_regs := None; next_lwp := 1 |}.

(** ** Frames *)

(** An MI frame dictionary.  [fd_level] and [fd_addr] are the numbers whose
    decimal and hexadecimal renderings the source stores; [fd_sal] holds the
    keys [file], [fullname] and [line], which are set together; [fd_args] is
    the presence of the key [args]. *)
Record FrameDict : Type := {
  fd_level : Z;
  fd_addr : Z;
  fd_func : string;
  fd_sal : option Sal;
  fd_arch : option string;
  fd_args : bool
}.

(** [x or "??"] *)
Definition or_unknown (x : option string) : string :=
  match x with
  | Some EmptyString => "??"
  | Some s => s
  | None => "??"
  end.

Definition ok_or_none {A : Type} (r : result A) : option A :=
  match r with
  | Ok a => Some a
  | Raise _ => None
  end.

(** [_resolve_sal] followed by the caller's [if f:]. *)
Definition _resolve_sal (g : Gdb) (addr : Z) : option Sal :=
  match find_pc_line g addr with
  | Ok (Some sal) =>
      match sal_filename sal with
      | EmptyString => None
      | _ => Some sal
      end
  | _ => None
  end.

Definition _build_frame_dict (g : Gdb) (live : Regs) (thread : ZephyrThread)
    (include_args : bool) : FrameDict :=
  let frame := {| fd_level := 0; fd_addr := 0; fd_func := "??"; fd_sal := None;
                  fd_arch := None; fd_args := include_args |} in
  if active thread then
    match newest_frame g live with
    | Frame gdb_frame _ =>
        match f_pc gdb_frame with
        | Raise _ => frame
        | Ok addr =>
            let frame := {| fd_level := 0; fd_addr := addr; fd_func := "??";
                            fd_sal := None; fd_arch := None; fd_args := include_args |} in
            match f_name gdb_frame with
            | Raise _ => frame
            | Ok n =>
                let frame := {| fd_level := 0; fd_addr := addr; fd_func := or_unknown n;
                                fd_sal := None; fd_arch := None;
                                fd_args := include_args |} in
                match f_sal gdb_frame with
                | Raise _ => frame
                | Ok sal =>
                    {| fd_level := 0; fd_addr := addr; fd_func := or_unknown n;
                       fd_sal := sal; fd_arch := ok_or_none (f_arch gdb_frame);
                       fd_args := include_args |}
                end
            end
        end
    | _ => frame
    end
  else
    match callee_saved thread with
    | Some cs =>
        let addr := get_thread_pc (arch thread) g cs in
        {| fd_level := 0; fd_addr := addr;
           fd_func := match block_function g addr with
                      | Ok (Some f) => f
                      | _ => "??"
                      end;
           fd_sal := _resolve_sal g addr; fd_arch := None; fd_args := include_args |}
    | None => frame
    end.

Definition _is_valid_code_addr (addr : Z) : bool :=
  if addr =? 0 then false
  else if addr >=? 0xE0000000 then false
  else true.

(** [(low is None or level >= low) and (high is None or level <= high)] *)
Definition in_range (low high : option Z) (level : Z) : bool :=
  match low with None => true | Some l => level >=? l end
  && match high with None => true | Some h => level <=? h end.

(** The dictionary the walk builds for one frame; a raising [frame.name()]
    or [frame.find_sal()] leaves the walk, a raising [architecture()] only
    leaves the key out. *)
Definition frame_entry (level addr : Z) (f : GdbFrame) : result FrameDict :=
  n <- f_name f ;;
  sal <- f_sal f ;;
  Ok {| fd_level := level; fd_addr := addr; fd_func := or_unknown n; fd_sal := sal;
        fd_arch := ok_or_none (f_arch f); fd_args := false |}.

(** The loop [while frame is not None] from a frame at [level], with the
    frames appended so far.  The result is the list [frames] when the loop is
    left and the exception that left it, if any: a [gdb.error] from
    [frame.older()] is a [break], any other exception propagates. *)
Fixpoint walk_frames (f : GdbFrame) (older : FrameChain) (level : Z)
    (low high : option Z) (frames : list FrameDict) : list FrameDict * option exn :=
  match f_pc f with
  | Raise e => (frames, Some e)
  | Ok addr =>
      if negb (_is_valid_code_addr addr) then (frames, None)
      else
        match (if in_range low high level
               then fd <- frame_entry level addr f ;; Ok (frames ++ [fd])
               else Ok frames) with
        | Raise e => (frames, Some e)
        | Ok frames' =>
            match older with
            | NoFrame => (frames', None)
            | FrameError gdb_error => (frames', None)
            | FrameError e => (frames', Some e)
            | Frame f' older' => walk_frames f' older' (level + 1) low high frames'
            end
        end
  end.

(** [frame = gdb.newest_frame()], [level = 0], then the loop. *)
Definition walk (chain : FrameChain) (low high : option Z)
  : list FrameDict * option exn :=
  match chain with
  | NoFrame => ([], None)
  | FrameError e => ([], Some e)
  | Frame f older => walk_frames f older 0 low high []
  end.

(** [low is None or low == 0] *)
Definition wants_level0 (low : option Z) : bool :=
  match low with
  | None => true
  | Some l => l =? 0
  end.

(** The suspended-thread branch of [_build_frame_list] up to the fallback:
    the live registers afterwards, [frames], and the flag [unwound]. *)
Definition unwind_suspended (g : Gdb) (thread : ZephyrThread) (low high : option Z)
    (live : Regs) : Regs * list FrameDict * bool :=
  match callee_saved thread with
  | None => (live, [], false)
  | Some cs =>
      let saved_pc := get_thread_pc (arch thread) g cs in
      let saved_sp := get_thread_sp (arch thread) cs in
      if negb (saved_pc =? 0) && negb (saved_sp =? 0) then
        match capture g live with
        | Raise _ => (live, [], false)
        | Ok orig =>
            match set_reg g SP saved_sp live with
            | Raise _ => (live, [], false)
            | Ok live1 =>
                match set_reg g PC saved_pc live1 with
                | Raise _ => (live1, [], false)
                | Ok live2 =>
                    let (frames, raised) := walk (newest_frame g live2) low high in
                    let unwound :=
                      match raised, frames with
                      | None, _ :: _ => true
                      | _, _ => false
                      end in
                    (* finally: *)
                    (write_sp_pc_swallow g orig live2, frames, unwound)
                end
            end
        end
      else (live, [], false)
  end.

Definition _build_frame_list (g : Gdb) (thread : ZephyrThread) (low high : option Z)
    (live : Regs) : Regs * list FrameDict :=
  if active thread then
    let (frames, raised) := walk (newest_frame g live) low high in
    match raised with
    | None => (live, frames)
    | Some _ => (live, frames ++ [_build_frame_dict g live thread false])
    end
  else
    let '(live', frames, unwound) := unwind_suspended g thread low high live in
    if negb unwound && wants_level0 low
    then (live', frames ++ [_build_frame_dict g live' thread false])
    else (live', frames).

(** ** Commands

    The console commands and the MI commands are thin callers of the
    functions above.  They act on the live registers and the session, may
    print, and either return or raise [gdb.GdbError]. *)

(** A [gdb.GdbError], by the message it carries and the value formatted
    into it. *)
Inductive GdbError : Type :=
| InvalidThreadId (text : string)     (* "Invalid thread id: ..." *)
| ThreadIdRequired                    (* "Thread id required" *)
| ThreadIdNotKnown (id : Z)           (* "Thread ID ... not known." *)
| StackListFramesUsage                (* "Usage: -override-stack-list-frames ..." *)
| NoActiveThread.                     (* "No active thread" *)

Inductive outcome (A : Type) : Type :=
| Done (a : A)
| Failed (e : GdbError).
Arguments Done {A} a.
Arguments Failed {A} e.

Definition continue_handler (st : Regs * Session) : Regs * Session := st.

(** [_ensure_thread_cache]: a quiet enumeration when the cache is empty. *)
Definition _ensure_thread_cache (g : Gdb) (s : Session) : Session * list Output :=
  match thread_cache s with
  | [] => discover_threads g false s
  | _ :: _ => (s, [])
  end.

(** [_find_thread]: the first thread of the cache with the given id. *)
Definition _find_thread (s : Session) (id : Z) : option ZephyrThread :=
  find (fun t => lwp t =? id) (thread_cache s).

(** [_get_current_thread_id]; the result is the id whose decimal rendering
    the source returns. *)
Definition _get_current_thread_id (s : Session) : option Z :=
  match _hw_active_lwp s with
  | Some id => Some id
  | None => first_active (thread_cache s)
  end.

(** The loop of [_parse_override_thread_argv] from index [i] on, where
    [argv] is what is left of the argument list from there.  [py_int] is
    Python's [int] on a string, [None] standing for [ValueError]. *)
Fixpoint parse_override_loop (py_int : string -> option Z) (argv : list string)
    (thread_id : option Z) (remaining : list string)
  : outcome (option Z * list string) :=
  match argv with
  | [] => Done (thread_id, remaining)
  | arg :: after =>
      match after with
      | value :: rest =>
          if String.eqb arg "--override-thread" then
            match py_int value with
            | Some id => parse_override_loop py_int rest (Some id) remaining
            | None => Failed (InvalidThreadId value)
            end
          else parse_override_loop py_int after thread_id (remaining ++ [arg])
      | [] => Done (thread_id, remaining ++ [arg])
      end
  end.

Definition _parse_override_thread_argv (py_int : string -> option Z)
    (argv : list string) : outcome (option Z * list string) :=
  parse_override_loop py_int argv None [].

(** The thread objects of the cache are mutated in place through their
    position in the list. *)
Definition with_active (b : bool) (t : ZephyrThread) : ZephyrThread :=
  {| thread_ptr := thread_ptr t; offsets := offsets t; arch := arch t;
     lwp := lwp t; active := b; name := name t; state := state t; prio := prio t;
     callee_saved := callee_saved t |}.

Fixpoint set_active_at (i : nat) (b : bool) (cache : list ZephyrThread)
  : list ZephyrThread :=
  match cache, i with
  | [], _ => []
  | t :: rest, O => with_active b t :: rest
  | t :: rest, S i' => t :: set_active_at i' b rest
  end.

(** The scan of [MIOverrideThreadSelect.invoke] from position [i] on:
    [target_thread] is the last thread with the id (with its position),
    [prev_active] the position of the last other thread with [active] set. *)
Fixpoint scan_select (target_lwp : Z) (cache : list ZephyrThread) (i : nat)
    (target_thread : option (nat * ZephyrThread)) (prev_active : option nat)
  : option (nat * ZephyrThread) * option nat :=
  match cache with
  | [] => (target_thread, prev_active)
  | t :: rest =>
      if lwp t =? target_lwp
      then scan_select target_lwp rest (S i) (Some (i, t)) prev_active
      else if active t
           then scan_select target_lwp rest (S i) target_thread (Some i)
           else scan_select target_lwp rest (S i) target_thread prev_active
  end.

(** The id argument of [-override-thread-select]: the option, else the
    first positional argument. *)
Definition select_target_lwp (py_int : string -> option Z) (argv : list string)
  : outcome Z :=
  match _parse_override_thread_argv py_int argv with
  | Failed e => Failed e
  | Done (Some id, _) => Done id
  | Done (None, []) => Failed ThreadIdRequired
  | Done (None, first :: _) =>
      match py_int first with
      | Some id => Done id
      | None => Failed (InvalidThreadId first)
      end
  end.

(** The result dictionary of [-override-thread-select]. *)
Record SelectResult : Type := {
  new_thread_id : Z;
  select_frame : FrameDict
}.

Definition MIOverrideThreadSelect_invoke (g : Gdb) (py_int : string -> option Z)
    (argv : list string) (st : Regs * Session)
  : (Regs * Session) * list Output * outcome SelectResult :=
  let (live, s) := st in
  match select_target_lwp py_int argv with
  | Failed e => ((live, s), [], Failed e)
  | Done target_lwp =>
      let (s, out) := _ensure_thread_cache g s in
      match scan_select target_lwp (thread_cache s) 0 None None with
      | (None, _) => ((live, s), out, Failed (ThreadIdNotKnown target_lwp))
      | (Some (target_index, t), prev_active) =>
          let cache :=
            match prev_active with
            | Some prev_index => set_active_at prev_index false (thread_cache s)
            | None => thread_cache s
            end in
          let target_thread := with_active true t in
          let s := set_thread_cache (set_active_at target_index true cache) s in
          let (live, s) := _switch_thread_context g target_thread (live, s) in
          ((live, s), out,
           Done {| new_thread_id := lwp target_thread;
                   select_frame := _build_frame_dict g live target_thread true |})
      end
  end.

(** The optional [<low> <high>] of [-override-stack-list-frames]. *)
Definition stack_bounds (py_int : string -> option Z) (positional : list string)
  : outcome (option Z * option Z) :=
  match positional with
  | [] => Done (None, None)
  | [_] => Failed StackListFramesUsage
  | first :: second :: _ =>
      match py_int first with
      | None => Failed StackListFramesUsage
      | Some low =>
          match py_int second with
          | None => Failed StackListFramesUsage
          | Some high => Done (Some low, Some high)
          end
      end
  end.

(** The thread [-override-stack-list-frames] unwinds: the one with the
    given id, else the first with [active] set. *)
Definition stack_target (s : Session) (thread_id : option Z) : outcome ZephyrThread :=
  match thread_id with
  | Some id =>
      match _find_thread s id with
      | Some t => Done t
      | None => Failed (ThreadIdNotKnown id)
      end
  | None =>
      match find active (thread_cache s) with
      | Some t => Done t
      | None => Failed NoActiveThread
      end
  end.

Definition MIOverrideStackListFrames_invoke (g : Gdb) (py_int : string -> option Z)
    (argv : list string) (st : Regs * Session)
  : (Regs * Session) * list Output * outcome (list FrameDict) :=
  let (live, s) := st in
  let (s, out) := _ensure_thread_cache g s in
  match _parse_override_thread_argv py_int argv with
  | Failed e => ((live, s), out, Failed e)
  | Done (thread_id, positional) =>
      match stack_bounds py_int positional with
      | Failed e => ((live, s), out, Failed e)
      | Done (low, high) =>
          match stack_target s thread_id with
          | Failed e => ((live, s), out, Failed e)
          | Done target =>
              let (live, frames) := _build_frame_list g target low high live in
              ((live, s), out, Done frames)
          end
      end
  end.

(** The ["name"] of a thread dictionary: [t.name or f"thread_{t.lwp}"]. *)
Inductive ThreadLabel : Type :=
| Named (thread_name : string)
| Numbered (id : Z).                  (* "thread_<id>" *)

(** A thread dictionary of [-override-thread-info]; ["target-id"] is
    formatted from the id and the name. *)
Record ThreadDict : Type := {
  td_id : Z;
  td_target_id : Z * string;
  td_name : ThreadLabel;
  td_state : string;
  td_frame : FrameDict
}.

Definition thread_dict (g : Gdb) (live : Regs) (t : ZephyrThread) : ThreadDict :=
  {| td_id := lwp t;
     td_target_id := (lwp t, name t);
     td_name := match name t with
                | EmptyString => Numbered (lwp t)
                | _ => Named (name t)
                end;
     td_state := "stopped";
     td_frame := _build_frame_dict g live t true |}.

(** The id [-override-thread-info] filters by: the option, else the first
    positional argument, else none. *)
Definition info_filter_id (py_int : string -> option Z) (argv : list string)
  : outcome (option Z) :=
  match _parse_override_thread_argv py_int argv with
  | Failed e => Failed e
  | Done (Some id, _) => Done (Some id)
  | Done (None, []) => Done None
  | Done (None, first :: _) =>
      match py_int first with
      | Some id => Done (Some id)
      | None => Failed (InvalidThreadId first)
      end
  end.

(** The result dictionary of [-override-thread-info]. *)
Record ThreadInfoResult : Type := {
  threads : list ThreadDict;
  info_current_thread_id : option Z
}.

Definition MIOverrideThreadInfo_invoke (g : Gdb) (py_int : string -> option Z)
    (argv : list string) (st : Regs * Session)
  : Session * list Output * outcome ThreadInfoResult :=
  let (live, s) := st in
  let (s, out) := _ensure_thread_cache g s in
  match info_filter_id py_int argv with
  | Failed e => (s, out, Failed e)
  | Done filter_id =>
      let current_id := _get_current_thread_id s in
      let listed :=
        filter (fun t => match filter_id with
                         | Some id => lwp t =? id
                         | None => true
                         end)
               (thread_cache s) in
      (s, out,
       Done {| threads := map (thread_dict g live) listed;
               info_current_thread_id := current_id |})
  end.

(** The result dictionary of [-override-thread-list-ids]; the ids and the
    count are the numbers the source renders. *)
Record ListIdsResult : Type := {
  thread_ids : list Z;
  number_of_threads : nat;
  current_thread_id : option Z
}.

Definition MIOverrideThreadListIds_invoke (g : Gdb) (s : Session)
  : Session * list Output * ListIdsResult :=
  let (s, out) := _ensure_thread_cache g s in
  (s, out,
   {| thread_ids := map lwp (thread_cache s);
      number_of_threads := List.length (thread_cache s);
      current_thread_id := _get_current_thread_id s |}).

(** What the console command [thread] prints. *)
Inductive ThreadMessage : Type :=
| CurrentThreadIs (id : Z) (thread_name : string)
| NoCurrentThread
| InvalidThreadID (text : string)
| SwitchingToThread (id : Z) (thread_name : string)
| ThreadIDNotKnown (id : Z).

(** The loop of [CommandThread.invoke] over the cache: a thread with the id
    is flagged and announced, any other flagged thread is unflagged. *)
Fixpoint thread_command_loop (target_lwp : Z) (cache : list ZephyrThread)
  : list ZephyrThread * list ThreadMessage :=
  match cache with
  | [] => ([], [])
  | t :: rest =>
      let (rest', printed) := thread_command_loop target_lwp rest in
      if lwp t =? target_lwp
      then (with_active true t :: rest', SwitchingToThread (lwp t) (name t) :: printed)
      else if active t then (with_active false t :: rest', printed)
      else (t :: rest', printed)
  end.

Definition CommandThread_invoke (py_int : string -> option Z) (arg : string)
    (s : Session) : Session * list ThreadMessage :=
  match arg with
  | EmptyString =>
      match find active (thread_cache s) with
      | Some t => (s, [CurrentThreadIs (lwp t) (name t)])
      | None => (s, [NoCurrentThread])
      end
  | _ =>
      match py_int arg with
      | None => (s, [InvalidThreadID arg])
      | Some target_lwp =>
          let (cache, printed) := thread_command_loop target_lwp (thread_cache s) in
          (set_thread_cache cache s,
           printed ++
           if existsb (fun t => lwp t =? target_lwp) (thread_cache s) then []
           else [ThreadIDNotKnown target_lwp])
      end
  end.

Definition set_discovery_mode (v : string) (s : Session) : Session :=
  {| thread_cache := thread_cache s; current_thread_ptr := current_thread_ptr s;
     _cached_offsets := _cached_offsets s; _hw_active_lwp := _hw_active_lwp s;
     _discovery_mode := v; _real_cpu_regs := _real_cpu_regs s;
     next_lwp := next_lwp s |}.

Definition set_cached_offsets (v : option Offsets) (s : Session) : Session :=
  {| thread_cache := thread_cache s; current_thread_ptr := current_thread_ptr s;
     _cached_offsets := v; _hw_active_lwp := _hw_active_lwp s;
     _discovery_mode := _discovery_mode s; _real_cpu_regs := _real_cpu_regs s;
     next_lwp := next_lwp s |}.

(** [CommandZephyrDiscovery.invoke] on [mode], the argument after
    [arg.strip().lower()].  The mode is assigned before the offsets are
    discovered, so an exception leaving [get_kernel_offsets] finds the mode
    changed and the cached offsets as they were. *)
Definition CommandZephyrDiscovery_invoke (g : Gdb) (mode : string) (s : Session)
  : Session * option exn :=
  match mode with
  | EmptyString => (s, None)
  | _ =>
      if String.eqb mode "auto" || String.eqb mode "symbols"
         || String.eqb mode "hardcoded"
      then
        let s := set_discovery_mode mode s in
        match snd (get_kernel_offsets g (_discovery_mode s)) with
        | Ok table => (set_cached_offsets table s, None)
        | Raise e => (s, Some e)
        end
      else (s, None)
  end.

(** ** Predicates used in the statements *)

(** The preconditions of a cycle, in the order the source checks them: no
    cached offset table; [_kernel] unreadable; the thread list member
    unreadable or null. *)
Definition precondition_fails (g : Gdb) (s : Session) : Prop :=
  _cached_offsets s = None
  \/ (exists e, parse_and_eval_kernel g = Raise e)
  \/ (exists kernel, parse_and_eval_kernel g = Ok kernel
        /\ ((exists e, k_threads kernel = Raise e) \/ k_threads kernel = Ok 0)).

(** A sequence of context switches, in order. *)
Definition switch_all (g : Gdb) (ts : list ZephyrThread) (st : Regs * Session)
  : Regs * Session :=
  fold_left (fun st t => _switch_thread_context g t st) ts st.

(** What a switch to a suspended thread can do to a state that is either
    untouched or holds the registers of entry as its snapshot. *)
Definition away_from (entry : Regs) (s0 : Session) (st : Regs * Session) : Prop :=
  st = (entry, s0)
  \/ snd st = set_real_cpu_regs (Some entry) s0.

(** The frame chain with the frames [fs], innermost first, continued by
    [tail]. *)
Fixpoint chain_of (fs : list GdbFrame) (tail : FrameChain) : FrameChain :=
  match fs with
  | [] => tail
  | f :: rest => Frame f (chain_of rest tail)
  end.

(** The state in which [discover_threads] enters the traversal loop. *)
Definition loop_entry (thread_list_head counter : Z) : Loop :=
  {| current_ptr := thread_list_head; new_thread_list := []; lwp_counter := counter |}.

(** The nodes [p :: rest] are linked in this order by their [next_thread]
    members, none is null, no inner link points at the head, and the last
    node's link points back at [thread_list_head]. *)
Fixpoint ring_from (g : Gdb) (thread_list_head p : Z) (rest : list Z) : Prop :=
  p <> 0 /\
  match rest with
  | [] => thread_next_thread g p = Ok thread_list_head
  | q :: rest' =>
      thread_next_thread g p = Ok q /\ q <> thread_list_head
      /\ ring_from g thread_list_head q rest'
  end.

(** Session ids along the traversal: the thread at index [i] carries the id
    [first + i], and the counter is [first] plus the number of threads. *)
Definition numbered_from (first : Z) (st : Loop) : Prop :=
  lwp_counter st = first + Z.of_nat (List.length (new_thread_list st))
  /\ forall i t, nth_error (new_thread_list st) i = Some t -> lwp t = first + Z.of_nat i.

(** The session ids of a thread list are the positions, counted from 1. *)
Definition positional (cache : list ZephyrThread) : Prop :=
  forall i t, nth_error cache i = Some t -> lwp t = Z.of_nat i + 1.

(** The session id under which a snapshot lists the thread at [ptr]. *)
Definition lwp_of (ptr : Z) (cache : list ZephyrThread) : option Z :=
  match find (fun t => thread_ptr t =? ptr) cache with
  | Some t => Some (lwp t)
  | None => None
  end.

Definition is_announcement (o : Output) : bool :=
  match o with
  | NewThread _ _ => true
  | Diagnostic _ => false
  end.

(** ** Further predicates *)

(** The link of the node at [p] ends the list: it is null, unreadable, or
    points back at the head. *)
Definition ends_list (g : Gdb) (thread_list_head p : Z) : Prop :=
  thread_next_thread g p = Ok 0
  \/ (exists e, thread_next_thread g p = Raise e)
  \/ thread_next_thread g p = Ok thread_list_head.

(** The nodes [p :: rest] are linked in this order, none is null, no inner
    link points at the head, and the last node's link ends the list. *)
Fixpoint chain_to_end (g : Gdb) (thread_list_head p : Z) (rest : list Z) : Prop :=
  p <> 0 /\
  match rest with
  | [] => ends_list g thread_list_head p
  | q :: rest' =>
      thread_next_thread g p = Ok q /\ q <> thread_list_head
      /\ chain_to_end g thread_list_head q rest'
  end.

(** The nodes [p :: rest] are linked in this order, none is null and no
    link points at the head; where the last node links to is left open. *)
Fixpoint open_chain (g : Gdb) (thread_list_head p : Z) (rest : list Z) : Prop :=
  p <> 0 /\
  match rest with
  | [] => True
  | q :: rest' =>
      thread_next_thread g p = Ok q /\ q <> thread_list_head
      /\ open_chain g thread_list_head q rest'
  end.

(** The ids 1, 2, ..., n. *)
Definition ids_up_to (n : nat) : list Z :=
  map (fun i => Z.of_nat i + 1) (seq 0 n).

(** What GDB knows of a frame the walk can describe in full: its program
    counter, function name and line entry, and the outcome of asking for its
    architecture. *)
Record FrameFacts : Type := {
  ff_addr : Z;
  ff_name : option string;
  ff_sal : option Sal;
  ff_arch : result string
}.

Definition frame_of (d : FrameFacts) : GdbFrame :=
  {| f_pc := Ok (ff_addr d); f_name := Ok (ff_name d); f_sal := Ok (ff_sal d);
     f_arch := ff_arch d |}.

(** The dictionary for such a frame at a level. *)
Definition entry_of (level : Z) (d : FrameFacts) : FrameDict :=
  {| fd_level := level; fd_addr := ff_addr d; fd_func := or_unknown (ff_name d);
     fd_sal := ff_sal d; fd_arch := ok_or_none (ff_arch d); fd_args := false |}.

Fixpoint entries_from (level : Z) (ds : list FrameFacts) : list FrameDict :=
  match ds with
  | [] => []
  | d :: rest => entry_of level d :: entries_from (level + 1) rest
  end.

Fixpoint chain_length (chain : FrameChain) : nat :=
  match chain with
  | Frame _ older => S (chain_length older)
  | _ => O
  end.

(** The levels 0, 1, ..., k - 1. *)
Definition levels_up_to (k : nat) : list Z := map Z.of_nat (seq 0 k).

(** The value a field of the adapted table takes from entry [k] of an
    exported table of which [n] entries were read: the entry, or 0 when the
    entry lies beyond the declared count. *)
Definition table_field (s : Symbol) (n k : nat) (v : Z) : Prop :=
  if (k <? n)%nat then sym_index s k = Ok v else v = 0.

(** ** Concrete targets

    A small Cortex-M board used to run the definitions: five threads linked
    in a ring, an exported offset table, live registers and a two-frame
    chain.  The builders take the parts the examples vary. *)

(** An exported offset table whose entry [i] reads as [4 * i]. *)
Definition table_symbol : Symbol :=
  {| sym_value := Ok tt;
     sym_int := Raise TypeError;
     sym_index := fun i => Ok (4 * Z.of_nat i) |}.

(** The same table with entry 3 unreadable. *)
Definition torn_table_symbol : Symbol :=
  {| sym_value := Ok tt;
     sym_int := Raise TypeError;
     sym_index := fun i => if Nat.eqb i 3 then Raise gdb_error else Ok (4 * Z.of_nat i) |}.

Definition count_symbol (n : Z) : Symbol :=
  {| sym_value := Ok tt;
     sym_int := Ok n;
     sym_index := fun _ => Raise TypeError |}.

(** What discovery reads from [table_symbol]: the 13 names with their
    entries. *)
Definition table_fields : OffsetDict :=
  combine OFFSET_FIELDS (map (fun i => 4 * Z.of_nat i) (seq 0 13)).

Definition symbol_table (table count : option Symbol) (symbol_name : string)
  : result (option Symbol) :=
  if String.eqb symbol_name "_kernel_thread_info_offsets" then Ok table
  else if String.eqb symbol_name "_kernel_thread_info_num_offsets" then Ok count
  else Ok None.

(** The successor of [p] in the list [nodes]; the last node's successor is
    [last_next]; an address outside the list is unreadable. *)
Fixpoint next_in (nodes : list Z) (last_next : result Z) (p : Z) : result Z :=
  match nodes with
  | [] => Raise gdb_error
  | [q] => if p =? q then last_next else Raise gdb_error
  | q :: (q' :: _) as rest => if p =? q then Ok q' else next_in rest last_next p
  end.

Definition two_frames (rs : Regs) : FrameChain :=
  Frame {| f_pc := Ok (pc rs); f_name := Ok (Some "k_sleep");
           f_sal := Ok None; f_arch := Ok "armv7e-m" |}
    (Frame {| f_pc := Ok 0x08000400; f_name := Ok (Some "main");
              f_sal := Ok None; f_arch := Ok "armv7e-m" |}
       NoFrame).

Definition make_gdb (arch_description : string)
    (symbols : string -> result (option Symbol))
    (kernel : result Kernel) (next : Z -> result Z) (stacked_pc : list Byte.byte)
    (writable : reg -> Z -> bool) (frames : Regs -> FrameChain) : Gdb :=
  {| lookup_symbol := symbols;
     show_architecture := Ok arch_description;
     parse_and_eval_kernel := kernel;
     thread_name := fun _ => "thread";
     thread_state := fun _ => Ok 0;
     thread_prio := fun _ => Ok 5;
     thread_callee_saved := fun p => Ok [("psp", Ok (p + 0x80))];
     thread_next_thread := next;
     read_memory := fun _ _ => Ok stacked_pc;
     reg_readable := fun _ => true;
     reg_writable := writable;
     newest_frame := frames;
     block_function := fun _ => Ok (Some "k_sleep");
     find_pc_line := fun _ => Ok None |}.

(** The bytes of 0x08004321, little-endian: the program counter every
    suspended thread of the board has stacked. *)
Definition stacked_in_flash : list Byte.byte := [Byte.x21; Byte.x43; Byte.x00; Byte.x08].

(** The bytes of 0xE0001000: a stacked program counter in system space. *)
Definition stacked_in_system_space : list Byte.byte :=
  [Byte.x00; Byte.x10; Byte.x00; Byte.xe0].

Definition arm_description : string :=
  "The target architecture is set to auto (currently armv7e-m).".

Definition node_A : Z := 0x20000100.
Definition node_B : Z := 0x20000200.
Definition node_C : Z := 0x20000300.
Definition node_D : Z := 0x20000400.
Definition node_E : Z := 0x20000500.

Definition kernel_at (head : Z) : Kernel :=
  {| k_cpus0_current := Ok node_A;
     k_current := Raise gdb_error;
     k_threads := Ok head |}.

(** The board with a given thread list (null-terminated). *)
Definition board_with (nodes : list Z) : Gdb :=
  make_gdb arm_description (symbol_table None None)
    (Ok (kernel_at (hd 0 nodes))) (next_in nodes (Ok 0)) stacked_in_flash
    (fun _ _ => true) two_frames.

(** The board with the five threads in a ring: the tail points at the head. *)
Definition ring_board : Gdb :=
  make_gdb arm_description (symbol_table None None)
    (Ok (kernel_at node_A))
    (next_in [node_A; node_B; node_C; node_D; node_E] (Ok node_A)) stacked_in_flash
    (fun _ _ => true) two_frames.

(** Boards that differ in their symbol table only. *)
Definition board_symbols (table count : option Symbol) : Gdb :=
  make_gdb arm_description (symbol_table table count)
    (Ok (kernel_at node_A)) (next_in [node_A; node_B] (Ok 0)) stacked_in_flash
    (fun _ _ => true) two_frames.

(** A board whose debugger refuses some register writes. *)
Definition board_refusing (writable : reg -> Z -> bool) : Gdb :=
  make_gdb arm_description (symbol_table None None)
    (Ok (kernel_at node_A)) (next_in [node_A; node_B] (Ok 0)) stacked_in_flash
    writable two_frames.

Definition fresh_session : Session :=
  {| thread_cache := []; current_thread_ptr := None;
     _cached_offsets := Some Hardcoded; _hw_active_lwp := None;
     _discovery_mode := "auto"; _real_cpu_regs := None; next_lwp := 1 |}.

Definition live_regs : Regs := {| sp := 0x20003F00; pc := 0x08001234 |}.

(** Threads as [discover_threads] builds them on a board whose CPU runs the
    thread at [node_A]. *)
Definition thread_on (g : Gdb) (ptr : Z) (id : Z) : ZephyrThread :=
  ZephyrThread_init g (Some node_A) id ptr Hardcoded (detect_architecture g).

Definition small_board : Gdb := board_with [node_A; node_B; node_C].

Definition thread_A : ZephyrThread := thread_on small_board node_A 1.
Definition thread_B : ZephyrThread := thread_on small_board node_B 2.
Definition thread_C : ZephyrThread := thread_on small_board node_C 3.

(** The session after a stop on that board. *)
Definition stopped_session : Session :=
  fst (discover_threads small_board false fresh_session).

(** A suspended thread on an x86 target: no saved program counter is known. *)
Definition x86_thread : ZephyrThread :=
  {| thread_ptr := node_B; offsets := Hardcoded; arch := x86Handler; lwp := 2;
     active := false; name := "thread"; state := 0; prio := 5;
     callee_saved := Some [("esp", Ok 0x20002000)] |}.

(** That session while thread B's context is substituted: the snapshot
    holds the registers of the stop. *)
Definition switched_session : Session :=
  set_real_cpu_regs (Some live_regs) stopped_session.

Definition refuse_all (r : reg) (v : Z) : bool := false.

(** A debugger that refuses to write one value to the program counter. *)
Definition refuse_pc (v : Z) (r : reg) (x : Z) : bool :=
  match r with
  | SP => true
  | PC => negb (x =? v)
  end.

(** A board on which unwinding fails: [frame.pc()] raises on the first frame. *)
Definition broken_frames (rs : Regs) : FrameChain :=
  Frame {| f_pc := Raise OtherException; f_name := Ok None;
           f_sal := Ok None; f_arch := Raise gdb_error |}
    NoFrame.

Definition board_unwinding (frames : Regs -> FrameChain) : Gdb :=
  make_gdb arm_description (symbol_table None None)
    (Ok (kernel_at node_A)) (next_in [node_A; node_B] (Ok 0)) stacked_in_flash
    (fun _ _ => true) frames.

(** A board whose suspended threads have a stacked program counter in
    system space. *)
Definition wild_board : Gdb :=
  make_gdb arm_description (symbol_table None None)
    (Ok (kernel_at node_A)) (next_in [node_A; node_B] (Ok 0)) stacked_in_system_space
    (fun _ _ => true) two_frames.

Definition frame_at (addr : Z) (function : string) : GdbFrame :=
  {| f_pc := Ok addr; f_name := Ok (Some function);
     f_sal := Ok None; f_arch := Ok "armv7e-m" |}.

(** Three frames, the middle one with a program counter in system space. *)
Definition three_frames_middle_in_system_space : list GdbFrame :=
  [frame_at 0x08001234 "k_sleep"; frame_at 0xE000ED00 "??"; frame_at 0x08000400 "main"].

(** ** Further targets *)

(** What GDB answers to [show architecture] on a RISC-V target. *)
Definition riscv_description : string :=
  "The target architecture is set to auto (currently riscv:rv32).".

Definition riscv_board : Gdb :=
  make_gdb riscv_description (symbol_table None None)
    (Ok (kernel_at node_A)) (next_in [node_A; node_B] (Ok 0)) stacked_in_flash
    (fun _ _ => true) two_frames.

(** A target whose description names none of the families. *)
Definition mips_board : Gdb :=
  make_gdb "mips" (symbol_table None None)
    (Ok (kernel_at node_A)) (next_in [node_A; node_B] (Ok 0)) stacked_in_flash
    (fun _ _ => true) two_frames.

(** A suspended thread of an ARC target, with a saved return address. *)
Definition arc_thread : ZephyrThread :=
  {| thread_ptr := node_B; offsets := Hardcoded; arch := ARCHandler; lwp := 2;
     active := false; name := "thread"; state := 0; prio := 5;
     callee_saved := Some [("sp", Ok 0x20002000); ("blink", Ok 0x08004321)] |}.

(** A target whose thread list never ends: every node links to the node 16
    bytes further on. *)
Definition endless_board : Gdb :=
  make_gdb arm_description (symbol_table None None)
    (Ok (kernel_at node_A)) (fun p => Ok (p + 16)) stacked_in_flash
    (fun _ _ => true) two_frames.

Definition endless_nodes (n : nat) : list Z :=
  map (fun i => node_A + 16 * Z.of_nat i) (seq 0 n).

(** Three frames GDB can describe, innermost first. *)
Definition three_facts : list FrameFacts :=
  [{| ff_addr := 0x08001234; ff_name := Some "k_sleep"; ff_sal := None;
      ff_arch := Ok "armv7e-m" |};
   {| ff_addr := 0x08000800; ff_name := Some "worker"; ff_sal := None;
      ff_arch := Ok "armv7e-m" |};
   {| ff_addr := 0x08000400; ff_name := None; ff_sal := None;
      ff_arch := Raise gdb_error |}].

(** A debugger that refuses to write the entry value of [live_regs] back
    to the program counter, and the session after a stop on it. *)
Definition stubborn_board : Gdb := board_refusing (refuse_pc 0x08001234).

Definition stubborn_session : Session :=
  fst (discover_threads stubborn_board false fresh_session).

(** A debugger that shows the frames of [three_facts] for whatever
    registers, and one on which [frame.pc()] raises on the third frame. *)
Definition described_board : Gdb :=
  board_unwinding (fun _ => chain_of (map frame_of three_facts) NoFrame).

Definition raising_frame : GdbFrame :=
  {| f_pc := Raise OtherException; f_name := Ok None; f_sal := Ok None;
     f_arch := Raise gdb_error |}.

Definition raising_board : Gdb :=
  board_unwinding
    (fun _ => chain_of (map frame_of (firstn 2 three_facts)) (Frame raising_frame NoFrame)).

(** A stand-in for Python's [int] in the examples, not a model of it: the
    number for a non-empty string of ASCII digits, [None] for any other
    string.  The two agree on digit strings and on a word such as "main";
    [int] also accepts a sign, surrounding blanks and underscores, which no
    example passes.  The theorems take [py_int] as a parameter. *)
Definition digit_value (c : ascii) : option Z :=
  let n := nat_of_ascii c in
  if (Nat.leb 48 n && Nat.leb n 57)%bool then Some (Z.of_nat (n - 48)) else None.

Fixpoint decimal_value (acc : Z) (s : string) : option Z :=
  match s with
  | EmptyString => Some acc
  | String c rest =>
      match digit_value c with
      | Some d => decimal_value (10 * acc + d) rest
      | None => None
      end
  end.

Definition decimal_int (s : string) : option Z :=
  match s with
  | EmptyString => None
  | _ => decimal_value 0 s
  end.

(** * Properties *)

(** ** Offset resolution *)

Lemma discover_absent_symbol (g : Gdb) :
  lookup_symbol g "_kernel_thread_info_offsets" = Ok None ->
  discover_offsets_from_symbols g = (["_kernel_thread_info_offsets"], Ok None).
Proof.
  intros H. unfold discover_offsets_from_symbols. now rewrite H.
Qed.

(** C5.  [get_kernel_offsets] obeys the discovery mode: in mode "hardcoded"
    it returns the sentinel table and performs no symbol lookup at all; in
    mode "symbols" with the exported offset-table symbol absent it returns no
    table (no fallback); in mode "auto", when symbol discovery fails (returns
    [None], as it does when the exported symbol is absent), it returns the
    hardcoded sentinel table. *)
Theorem get_kernel_offsets_obeys_mode (g : Gdb) :
  get_kernel_offsets g "hardcoded" = ([], Ok (Some get_hardcoded_offsets))
  /\ (lookup_symbol g "_kernel_thread_info_offsets" = Ok None ->
      snd (get_kernel_offsets g "symbols") = Ok None)
  /\ (snd (discover_offsets_from_symbols g) = Ok None ->
      snd (get_kernel_offsets g "auto") = Ok (Some get_hardcoded_offsets))
  /\ (lookup_symbol g "_kernel_thread_info_offsets" = Ok None ->
      snd (get_kernel_offsets g "auto") = Ok (Some get_hardcoded_offsets)).
Proof.
  repeat split.
  - intros H. unfold get_kernel_offsets. simpl.
    rewrite (discover_absent_symbol g H). reflexivity.
  - intros H. unfold get_kernel_offsets. simpl.
    destruct (discover_offsets_from_symbols g) as [lookups discovered].
    simpl in H. subst discovered. reflexivity.
  - intros H. unfold get_kernel_offsets. simpl.
    rewrite (discover_absent_symbol g H). reflexivity.
Qed.

Lemma get_kernel_offsets_obeys_mode_witness :
  get_kernel_offsets (board_symbols None None) "hardcoded"
    = ([], Ok (Some get_hardcoded_offsets))
  /\ snd (get_kernel_offsets (board_symbols None None) "symbols") = Ok None
  /\ snd (get_kernel_offsets (board_symbols None None) "auto")
       = Ok (Some get_hardcoded_offsets).
Proof.
  destruct (get_kernel_offsets_obeys_mode (board_symbols None None))
    as (Hhard & Hsym & Hauto & _).
  split; [exact Hhard | split].
  - apply Hsym. reflexivity.
  - apply Hauto. reflexivity.
Defined.

(** *** The exported table is read in full or not at all *)

Lemma read_offsets_ok (s : Symbol) (num_offsets : Z) (names : list string) :
  forall (i : nat) (d : OffsetDict),
    read_offsets s num_offsets i names = Ok d ->
    map fst d = firstn (Z.to_nat (num_offsets - Z.of_nat i)) names
    /\ forall j, (j < List.length d)%nat ->
                 sym_index s (i + j) = Ok (nth j (map snd d) 0).
Proof.
  induction names as [|name rest IH]; intros i d Hread; simpl in Hread.
  - injection Hread as <-. split.
    + now rewrite firstn_nil.
    + simpl. intros j Hj. lia.
  - destruct (Z.of_nat i <? num_offsets) eqn:Hguard.
    + apply Z.ltb_lt in Hguard.
      destruct (sym_index s i) as [v|e] eqn:Hv; simpl in Hread; [|discriminate].
      destruct (read_offsets s num_offsets (S i) rest) as [tl|e] eqn:Htl;
        simpl in Hread; [|discriminate].
      injection Hread as <-.
      destruct (IH (S i) tl Htl) as [Hkeys Hvals]. split.
      * replace (Z.to_nat (num_offsets - Z.of_nat i))
          with (S (Z.to_nat (num_offsets - Z.of_nat (S i)))) by lia.
        simpl. now rewrite Hkeys.
      * intros [|j] Hj; simpl.
        -- now rewrite Nat.add_0_r.
        -- simpl in Hj. rewrite <- (Hvals j) by lia. f_equal. lia.
    + apply Z.ltb_ge in Hguard.
      destruct (IH (S i) d Hread) as [Hkeys Hvals]. split.
      * replace (Z.to_nat (num_offsets - Z.of_nat i)) with O by lia.
        replace (Z.to_nat (num_offsets - Z.of_nat (S i))) with O in Hkeys by lia.
        simpl in *. exact Hkeys.
      * replace (Z.to_nat (num_offsets - Z.of_nat (S i))) with O in Hkeys by lia.
        rewrite firstn_O in Hkeys. apply map_eq_nil in Hkeys. subst d.
        simpl. intros j Hj. lia.
Qed.

Lemma firstn_min_length {A : Type} (n : nat) (l : list A) :
  firstn n l = firstn (Nat.min n (List.length l)) l.
Proof.
  destruct (Nat.le_gt_cases n (List.length l)) as [Hle|Hgt].
  - now rewrite Nat.min_l.
  - rewrite Nat.min_r by lia. rewrite firstn_all. apply firstn_all2. lia.
Qed.

Lemma discover_success (g : Gdb) (d : OffsetDict) :
  snd (discover_offsets_from_symbols g) = Ok (Some d) ->
  exists offsets_symbol num_symbol,
    lookup_symbol g "_kernel_thread_info_offsets" = Ok (Some offsets_symbol)
    /\ lookup_symbol g "_kernel_thread_info_num_offsets" = Ok num_symbol
    /\ read_offsets offsets_symbol (declared_count num_symbol) 0 OFFSET_FIELDS = Ok d.
Proof.
  unfold discover_offsets_from_symbols.
  destruct (lookup_symbol g "_kernel_thread_info_offsets") as [[offsets_symbol|]|e].
  - destruct (lookup_symbol g "_kernel_thread_info_num_offsets") as [num_symbol|e];
      cbn [snd bind].
    + destruct (sym_value offsets_symbol) as [[]|e]; cbn [bind].
      * destruct (read_offsets offsets_symbol (declared_count num_symbol) 0 OFFSET_FIELDS)
          as [d'|e] eqn:Hread; cbn [inner_handler outer_handler].
        -- intros H. injection H as ->. now exists offsets_symbol, num_symbol.
        -- destruct e; discriminate.
      * destruct e; discriminate.
    + destruct e; discriminate.
  - discriminate.
  - cbn [snd]. destruct e; discriminate.
Qed.

(** C8 (amended).  Symbol-based discovery never returns a partial table:
    whenever it returns a table, the offset-table symbol was present, and the
    table holds exactly the first [min(count, 13)] names of [OFFSET_FIELDS]
    (none when the count is not positive), each with the entry read for it,
    where [count] is the declared count, 13 when the count symbol is absent;
    so a failing read of any of these entries, or a missing symbol, yields no
    table. *)
Theorem discover_offsets_all_or_nothing (g : Gdb) :
  (forall d, snd (discover_offsets_from_symbols g) = Ok (Some d) ->
     exists offsets_symbol num_symbol,
       lookup_symbol g "_kernel_thread_info_offsets" = Ok (Some offsets_symbol)
       /\ lookup_symbol g "_kernel_thread_info_num_offsets" = Ok num_symbol
       /\ (num_symbol = None -> declared_count num_symbol = 13)
       /\ map fst d
          = firstn (Z.to_nat (Z.min (declared_count num_symbol) 13)) OFFSET_FIELDS
       /\ List.length d = Z.to_nat (Z.min (declared_count num_symbol) 13)
       /\ forall i, (i < Z.to_nat (Z.min (declared_count num_symbol) 13))%nat ->
                    sym_index offsets_symbol i = Ok (nth i (map snd d) 0))
  /\ (forall offsets_symbol num_symbol i e,
        lookup_symbol g "_kernel_thread_info_offsets" = Ok (Some offsets_symbol) ->
        lookup_symbol g "_kernel_thread_info_num_offsets" = Ok num_symbol ->
        (i < Z.to_nat (Z.min (declared_count num_symbol) 13))%nat ->
        sym_index offsets_symbol i = Raise e ->
        forall d, snd (discover_offsets_from_symbols g) <> Ok (Some d))
  /\ (lookup_symbol g "_kernel_thread_info_offsets" = Ok None ->
      snd (discover_offsets_from_symbols g) = Ok None).
Proof.
  assert (Hfull : forall d, snd (discover_offsets_from_symbols g) = Ok (Some d) ->
     exists offsets_symbol num_symbol,
       lookup_symbol g "_kernel_thread_info_offsets" = Ok (Some offsets_symbol)
       /\ lookup_symbol g "_kernel_thread_info_num_offsets" = Ok num_symbol
       /\ (num_symbol = None -> declared_count num_symbol = 13)
       /\ map fst d
          = firstn (Z.to_nat (Z.min (declared_count num_symbol) 13)) OFFSET_FIELDS
       /\ List.length d = Z.to_nat (Z.min (declared_count num_symbol) 13)
       /\ forall i, (i < Z.to_nat (Z.min (declared_count num_symbol) 13))%nat ->
                    sym_index offsets_symbol i = Ok (nth i (map snd d) 0)).
  { intros d Hd.
    destruct (discover_success g d Hd) as (offsets_symbol & num_symbol & Ho & Hn & Hread).
    exists offsets_symbol, num_symbol.
    destruct (read_offsets_ok _ _ _ _ _ Hread) as [Hkeys Hvals].
    rewrite Z.sub_0_r in Hkeys.
    assert (Hmin : Z.to_nat (Z.min (declared_count num_symbol) 13)
                   = Nat.min (Z.to_nat (declared_count num_symbol))
                             (List.length OFFSET_FIELDS)).
    { change (List.length OFFSET_FIELDS) with 13%nat. lia. }
    assert (Hkeys' : map fst d
              = firstn (Z.to_nat (Z.min (declared_count num_symbol) 13)) OFFSET_FIELDS).
    { rewrite Hmin, <- firstn_min_length. exact Hkeys. }
    assert (Hlen : List.length d = Z.to_nat (Z.min (declared_count num_symbol) 13)).
    { rewrite <- (length_map fst d), Hkeys', length_firstn.
      change (List.length OFFSET_FIELDS) with 13%nat. lia. }
    repeat split; try assumption.
    - intros ->. reflexivity.
    - intros i Hi. apply (Hvals i). lia. }
  split; [exact Hfull | split].
  - intros offsets_symbol num_symbol i e Ho Hn Hi He d Hd.
    destruct (Hfull d Hd) as (o' & n' & Ho' & Hn' & _ & _ & _ & Hvals).
    rewrite Ho in Ho'. injection Ho' as <-.
    rewrite Hn in Hn'. injection Hn' as <-.
    rewrite (Hvals i Hi) in He. discriminate.
  - intros H. now rewrite (discover_absent_symbol g H).
Qed.

Lemma discover_offsets_all_or_nothing_witness :
  (forall d, snd (discover_offsets_from_symbols
                    (board_symbols (Some torn_table_symbol) None)) <> Ok (Some d))
  /\ snd (discover_offsets_from_symbols (board_symbols None None)) = Ok None
  /\ exists offsets_symbol num_symbol,
       lookup_symbol (board_symbols (Some table_symbol) (Some (count_symbol 15)))
         "_kernel_thread_info_offsets" = Ok (Some offsets_symbol)
       /\ lookup_symbol (board_symbols (Some table_symbol) (Some (count_symbol 15)))
            "_kernel_thread_info_num_offsets" = Ok num_symbol
       /\ (num_symbol = None -> declared_count num_symbol = 13)
       /\ map fst table_fields
          = firstn (Z.to_nat (Z.min (declared_count num_symbol) 13)) OFFSET_FIELDS
       /\ List.length table_fields = Z.to_nat (Z.min (declared_count num_symbol) 13)
       /\ forall i, (i < Z.to_nat (Z.min (declared_count num_symbol) 13))%nat ->
                    sym_index offsets_symbol i = Ok (nth i (map snd table_fields) 0).
Proof.
  split; [|split].
  - apply (proj1 (proj2 (discover_offsets_all_or_nothing
                           (board_symbols (Some torn_table_symbol) None)))
             torn_table_symbol None 3%nat gdb_error);
      [reflexivity | reflexivity | vm_compute; lia | reflexivity].
  - apply (proj2 (proj2 (discover_offsets_all_or_nothing (board_symbols None None)))).
    reflexivity.
  - apply (proj1 (discover_offsets_all_or_nothing
                    (board_symbols (Some table_symbol) (Some (count_symbol 15))))
             table_fields).
    reflexivity.
Defined.

(** C8, as stated, fails where the target declares more entries than the
    module knows names for: with a declared count of 15 and every entry
    readable, discovery succeeds with 13 fields. *)
Lemma discover_offsets_count_counterexample :
  exists d,
    snd (discover_offsets_from_symbols
           (board_symbols (Some table_symbol) (Some (count_symbol 15)))) = Ok (Some d)
    /\ declared_count (Some (count_symbol 15)) = 15
    /\ List.length d = 13%nat
    /\ Z.of_nat (List.length d) <> declared_count (Some (count_symbol 15)).
Proof.
  eexists. split; [reflexivity|]. split; [reflexivity|]. split; [reflexivity|].
  vm_compute. discriminate.
Qed.

(** ** Enumeration aborts without touching the registry *)

(** C4.  When a precondition of the enumeration fails, the cycle leaves the
    registry as it was: the thread list (and the recorded hardware-active
    id) after the cycle are those before it. *)
Theorem aborted_cycle_keeps_registry (g : Gdb) (verbose : bool) (s : Session) :
  precondition_fails g s ->
  thread_cache (fst (discover_threads g verbose s)) = thread_cache s
  /\ _hw_active_lwp (fst (discover_threads g verbose s)) = _hw_active_lwp s.
Proof.
  unfold precondition_fails, discover_threads. cbn [set_next_lwp _cached_offsets].
  intros [Hoff | [[e Hk] | (kernel & Hk & [[e Ht] | Ht])]].
  - rewrite Hoff. now split.
  - rewrite Hk. destruct (_cached_offsets s); now split.
  - rewrite Hk, Ht. destruct (_cached_offsets s); now split.
  - rewrite Hk, Ht. destruct (_cached_offsets s); now split.
Qed.

Lemma aborted_cycle_keeps_registry_witness :
  thread_cache (fst (discover_threads (board_with []) true stopped_session))
    = thread_cache stopped_session
  /\ _hw_active_lwp (fst (discover_threads (board_with []) true stopped_session))
    = _hw_active_lwp stopped_session.
Proof.
  apply (aborted_cycle_keeps_registry (board_with []) true stopped_session).
  right. right. exists (kernel_at 0). split; [reflexivity | right; reflexivity].
Defined.

(** ** The register snapshot *)

Lemma discover_threads_real_cpu_regs (g : Gdb) (verbose : bool) (s : Session) :
  _real_cpu_regs (fst (discover_threads g verbose s)) = _real_cpu_regs s.
Proof.
  unfold discover_threads. cbn [set_next_lwp _cached_offsets].
  destruct (_cached_offsets s); [|reflexivity].
  destruct (parse_and_eval_kernel g) as [kernel|]; [|reflexivity].
  destruct (k_threads kernel) as [head|]; [|reflexivity].
  destruct (head =? 0); reflexivity.
Qed.

(** C7.  Switching to a suspended thread whose saved program counter or
    saved stack pointer resolves to 0 changes nothing: the live registers and
    the whole session, snapshot included, are as before. *)
Theorem switch_to_unresolved_is_noop (g : Gdb) (t : ZephyrThread)
    (cs : CalleeSaved) (live : Regs) (s : Session) :
  is_hw_active t s = false ->
  callee_saved t = Some cs ->
  get_thread_pc (arch t) g cs = 0 \/ get_thread_sp (arch t) cs = 0 ->
  _switch_thread_context g t (live, s) = (live, s).
Proof.
  intros Hsusp Hcs Hzero. unfold _switch_thread_context.
  rewrite Hsusp, Hcs.
  destruct Hzero as [-> | ->]; cbn [Z.eqb negb andb]; [reflexivity|].
  now rewrite andb_false_r.
Qed.

Lemma switch_to_unresolved_is_noop_witness :
  _switch_thread_context small_board x86_thread (live_regs, stopped_session)
    = (live_regs, stopped_session).
Proof.
  apply (switch_to_unresolved_is_noop small_board x86_thread
           [("esp", Ok 0x20002000)] live_regs stopped_session).
  - reflexivity.
  - reflexivity.
  - left. reflexivity.
Defined.

(** C10.  After the stop handler has run no register snapshot is left,
    whatever the debugger did with the two register writes; in particular,
    when the write of the stack pointer raises, the exception is swallowed,
    the live registers stay as they were and the snapshot is dropped all the
    same. *)
Theorem stop_handler_clears_snapshot (g : Gdb) (live : Regs) (s : Session) :
  _real_cpu_regs (snd (fst (stop_handler g (live, s)))) = None
  /\ (forall saved,
        _real_cpu_regs s = Some saved ->
        reg_writable g SP (sp saved) = false ->
        fst (fst (stop_handler g (live, s))) = live
        /\ _real_cpu_regs (snd (fst (stop_handler g (live, s)))) = None).
Proof.
  assert (Hclear : _real_cpu_regs (snd (fst (stop_handler g (live, s)))) = None).
  { unfold stop_handler.
    destruct (_real_cpu_regs s) as [saved|] eqn:Hsnap.
    - pose proof (discover_threads_real_cpu_regs g false (set_real_cpu_regs None s)) as H.
      destruct (discover_threads g false (set_real_cpu_regs None s)) as [s' out].
      exact H.
    - pose proof (discover_threads_real_cpu_regs g false s) as H.
      destruct (discover_threads g false s) as [s' out].
      cbn [fst snd] in *. congruence. }
  split; [exact Hclear|].
  intros saved Hsnap Hrefused. split; [|exact Hclear].
  unfold stop_handler. rewrite Hsnap.
  unfold write_sp_pc_swallow, set_reg. rewrite Hrefused.
  destruct (discover_threads g false (set_real_cpu_regs None s)). reflexivity.
Qed.

Lemma stop_handler_clears_snapshot_witness :
  fst (fst (stop_handler (board_refusing refuse_all)
              ({| sp := 0x20000280; pc := 0x08004321 |}, switched_session)))
    = {| sp := 0x20000280; pc := 0x08004321 |}
  /\ _real_cpu_regs
       (snd (fst (stop_handler (board_refusing refuse_all)
                    ({| sp := 0x20000280; pc := 0x08004321 |}, switched_session))))
     = None.
Proof.
  apply (proj2 (stop_handler_clears_snapshot (board_refusing refuse_all)
                  {| sp := 0x20000280; pc := 0x08004321 |} switched_session)
           live_regs); reflexivity.
Defined.

(** *** Round trips *)

Lemma is_hw_active_set_real_cpu_regs (t : ZephyrThread) (v : option Regs) (s : Session) :
  is_hw_active t (set_real_cpu_regs v s) = is_hw_active t s.
Proof. reflexivity. Qed.

Lemma capture_readable (g : Gdb) (live saved : Regs) :
  capture g live = Ok saved -> saved = live.
Proof.
  unfold capture, read_reg.
  destruct (reg_readable g SP); [|discriminate].
  destruct (reg_readable g PC); [|discriminate].
  cbn. intros H. injection H as <-. now destruct live.
Qed.

Lemma set_real_cpu_regs_twice (v w : option Regs) (s : Session) :
  set_real_cpu_regs v (set_real_cpu_regs w s) = set_real_cpu_regs v s.
Proof. reflexivity. Qed.

Lemma set_real_cpu_regs_same (s : Session) :
  set_real_cpu_regs (_real_cpu_regs s) s = s.
Proof. now destruct s. Qed.

Lemma write_sp_pc_accepted (g : Gdb) (target live : Regs) :
  reg_writable g SP (sp target) = true ->
  reg_writable g PC (pc target) = true ->
  write_sp_pc_swallow g target live = target.
Proof.
  intros Hsp Hpc. unfold write_sp_pc_swallow, set_reg.
  rewrite Hsp, Hpc. now destruct target.
Qed.

Lemma switch_suspended_away (g : Gdb) (entry : Regs) (s0 : Session)
    (t : ZephyrThread) (st : Regs * Session) :
  _real_cpu_regs s0 = None ->
  is_hw_active t s0 = false ->
  away_from entry s0 st ->
  away_from entry s0 (_switch_thread_context g t st).
Proof.
  intros Hnone Hsusp [-> | Hsnap].
  - unfold _switch_thread_context. rewrite Hsusp, Hnone.
    destruct (callee_saved t) as [cs|]; [|now left].
    destruct (negb (get_thread_pc (arch t) g cs =? 0)
              && negb (get_thread_sp (arch t) cs =? 0)); [|now left].
    destruct (capture g entry) as [saved|e] eqn:Hcap; [|now left].
    apply capture_readable in Hcap. subst saved. now right.
  - destruct st as [live s]. cbn [snd] in Hsnap. subst s.
    unfold _switch_thread_context.
    rewrite is_hw_active_set_real_cpu_regs, Hsusp.
    destruct (callee_saved t) as [cs|]; [|now right].
    destruct (negb (get_thread_pc (arch t) g cs =? 0)
              && negb (get_thread_sp (arch t) cs =? 0)); now right.
Qed.

Lemma switch_all_away (g : Gdb) (entry : Regs) (s0 : Session) (ts : list ZephyrThread) :
  _real_cpu_regs s0 = None ->
  Forall (fun t => is_hw_active t s0 = false) ts ->
  forall st, away_from entry s0 st -> away_from entry s0 (switch_all g ts st).
Proof.
  intros Hnone Hts. induction Hts as [|t ts Ht _ IH]; intros st Hst.
  - exact Hst.
  - cbn [switch_all fold_left]. apply IH.
    now apply switch_suspended_away.
Qed.

Lemma write_sp_pc_refused_sp (g : Gdb) (target live : Regs) :
  reg_writable g SP (sp target) = false ->
  write_sp_pc_swallow g target live = live.
Proof.
  intros Hsp. unfold write_sp_pc_swallow, set_reg. now rewrite Hsp.
Qed.

Lemma write_sp_pc_refused_pc (g : Gdb) (target live : Regs) :
  reg_writable g SP (sp target) = true ->
  reg_writable g PC (pc target) = false ->
  write_sp_pc_swallow g target live = {| sp := sp target; pc := pc live |}.
Proof.
  intros Hsp Hpc. unfold write_sp_pc_swallow, set_reg. now rewrite Hsp, Hpc.
Qed.

(** C2 (amended).  From the hardware-active thread A, with no snapshot
    outstanding, switching through any sequence of suspended threads and
    then back to A is the identity on the live registers and on the
    session, provided the debugger accepts the two register writes of the
    switch back.  Along the way the snapshot is captured at most once: after
    the sequence either nothing was touched, or the snapshot holds exactly
    the registers of entry - a later switch never saves again.  The switch
    back always returns the session of entry, without snapshot; a restoring
    write the debugger refuses is swallowed: when the write of the stack
    pointer is refused neither register is restored, and when only the
    write of the program counter is refused the stack pointer is restored
    and the program counter stays as the switches left it. *)
Theorem switch_round_trip (g : Gdb) (A : ZephyrThread) (ts : list ZephyrThread)
    (live : Regs) (s : Session) :
  _real_cpu_regs s = None ->
  is_hw_active A s = true ->
  Forall (fun t => is_hw_active t s = false) ts ->
  (switch_all g ts (live, s) = (live, s)
   \/ _real_cpu_regs (snd (switch_all g ts (live, s))) = Some live)
  /\ (reg_writable g SP (sp live) = true ->
      reg_writable g PC (pc live) = true ->
      _switch_thread_context g A (switch_all g ts (live, s)) = (live, s))
  /\ snd (_switch_thread_context g A (switch_all g ts (live, s))) = s
  /\ (reg_writable g SP (sp live) = false ->
      fst (_switch_thread_context g A (switch_all g ts (live, s)))
      = fst (switch_all g ts (live, s)))
  /\ (reg_writable g SP (sp live) = true ->
      reg_writable g PC (pc live) = false ->
      fst (_switch_thread_context g A (switch_all g ts (live, s)))
      = {| sp := sp live; pc := pc (fst (switch_all g ts (live, s))) |}).
Proof.
  intros Hnone HA Hts.
  assert (Haway : away_from live s (switch_all g ts (live, s))).
  { apply switch_all_away; [assumption | assumption | now left]. }
  split.
  { destruct Haway as [H | H]; [now left | right]. now rewrite H. }
  destruct Haway as [-> | H].
  - assert (Hback : _switch_thread_context g A (live, s) = (live, s))
      by (unfold _switch_thread_context; now rewrite HA, Hnone).
    rewrite Hback. cbn [fst snd].
    repeat split; try reflexivity. intros _ _. now destruct live.
  - destruct (switch_all g ts (live, s)) as [live' s']. cbn [snd] in H. subst s'.
    assert (Hback : _switch_thread_context g A (live', set_real_cpu_regs (Some live) s)
                    = (write_sp_pc_swallow g live live', s)).
    { unfold _switch_thread_context.
      rewrite is_hw_active_set_real_cpu_regs, HA. cbn [_real_cpu_regs set_real_cpu_regs].
      rewrite set_real_cpu_regs_twice, <- Hnone. now rewrite set_real_cpu_regs_same. }
    rewrite Hback. cbn [fst snd].
    split; [|split; [reflexivity | split]].
    + intros Hsp Hpc. now rewrite write_sp_pc_accepted.
    + intros Hsp. now apply write_sp_pc_refused_sp.
    + intros Hsp Hpc. now apply write_sp_pc_refused_pc.
Qed.

Lemma switch_round_trip_witness :
  _switch_thread_context small_board thread_A
    (switch_all small_board [thread_B; thread_C; thread_B] (live_regs, stopped_session))
  = (live_regs, stopped_session).
Proof.
  apply (proj1 (proj2 (switch_round_trip small_board thread_A
                         [thread_B; thread_C; thread_B] live_regs stopped_session
                         eq_refl eq_refl ltac:(repeat constructor))));
    reflexivity.
Defined.

(** C2, as stated, fails when the debugger refuses a restoring write: on a
    debugger that refuses to write the entry value to the program counter,
    the switch from A to B and back to A leaves the program counter of B in
    the live register, and no snapshot from which it could be restored. *)
Lemma switch_round_trip_counterexample :
  _real_cpu_regs stubborn_session = None
  /\ is_hw_active (thread_on stubborn_board node_A 1) stubborn_session = true
  /\ is_hw_active (thread_on stubborn_board node_B 2) stubborn_session = false
  /\ _switch_thread_context stubborn_board (thread_on stubborn_board node_A 1)
       (_switch_thread_context stubborn_board (thread_on stubborn_board node_B 2)
          (live_regs, stubborn_session))
     = ({| sp := 0x20003F00; pc := 0x08004321 |}, stubborn_session)
  /\ {| sp := 0x20003F00; pc := 0x08004321 |} <> live_regs.
Proof.
  repeat split. discriminate.
Qed.

(** ** The unwinder and the live registers *)

Lemma unwind_suspended_restores (g : Gdb) (thread : ZephyrThread)
    (low high : option Z) (live : Regs) :
  (forall r v, reg_writable g r v = true) ->
  fst (fst (unwind_suspended g thread low high live)) = live.
Proof.
  intros Hw. unfold unwind_suspended.
  destruct (callee_saved thread) as [cs|]; [|reflexivity].
  destruct (negb (get_thread_pc (arch thread) g cs =? 0)
            && negb (get_thread_sp (arch thread) cs =? 0)); [|reflexivity].
  destruct (capture g live) as [orig|e] eqn:Hcap; [|reflexivity].
  apply capture_readable in Hcap. subst orig.
  unfold set_reg. rewrite !Hw.
  destruct (walk _ low high) as [frames raised]. cbn [fst].
  apply write_sp_pc_accepted; apply Hw.
Qed.

(** Where the unwinder does leave the registers as they were: on every
    debugger that, once it has accepted the write of the thread's stack
    pointer, accepts the three writes that follow - for an active and for a
    suspended thread and whatever the frame walk does. *)
Lemma unwinder_restores_registers (g : Gdb) (thread : ZephyrThread)
    (low high : option Z) (live : Regs) :
  (forall cs, callee_saved thread = Some cs ->
     reg_writable g SP (get_thread_sp (arch thread) cs) = true ->
     reg_writable g PC (get_thread_pc (arch thread) g cs) = true
     /\ reg_writable g SP (sp live) = true
     /\ reg_writable g PC (pc live) = true) ->
  fst (_build_frame_list g thread low high live) = live.
Proof.
  intros Hw. unfold _build_frame_list.
  destruct (active thread).
  - destruct (walk (newest_frame g live) low high) as [frames [e|]]; reflexivity.
  - assert (H : fst (fst (unwind_suspended g thread low high live)) = live).
    { unfold unwind_suspended.
      destruct (callee_saved thread) as [cs|]; [|reflexivity].
      specialize (Hw cs eq_refl).
      destruct (negb (get_thread_pc (arch thread) g cs =? 0)
                && negb (get_thread_sp (arch thread) cs =? 0)); [|reflexivity].
      destruct (capture g live) as [orig|e] eqn:Hcap; [|reflexivity].
      apply capture_readable in Hcap. subst orig.
      unfold set_reg.
      destruct (reg_writable g SP (get_thread_sp (arch thread) cs)); [|reflexivity].
      destruct (Hw eq_refl) as (Hpc & Hsp' & Hpc'). rewrite Hpc.
      destruct (walk _ low high) as [frames raised]. cbn [fst].
      now apply write_sp_pc_accepted. }
    destruct (unwind_suspended g thread low high live) as [[live' frames] unwound].
    cbn [fst] in H. subst live'.
    destruct (negb unwound && wants_level0 low); reflexivity.
Qed.

Lemma unwinder_restores_registers_witness :
  fst (_build_frame_list (board_unwinding broken_frames) thread_B None None live_regs)
  = live_regs
  /\ fst (_build_frame_list (board_refusing refuse_all) thread_B None None live_regs)
     = live_regs.
Proof.
  split.
  - apply (unwinder_restores_registers (board_unwinding broken_frames) thread_B
             None None live_regs).
    intros cs _ _. repeat split.
  - apply (unwinder_restores_registers (board_refusing refuse_all) thread_B
             None None live_regs).
    intros cs _ H. discriminate H.
Defined.

(** C3.  The unwinder does not restore the registers when the debugger
    accepts the write of the thread's stack pointer and refuses the write of
    its program counter: the two substituting writes stand before the
    guarded block, so its [finally] is never entered, the enclosing handler
    swallows the error, and the call returns with the suspended thread's
    stack pointer in the live register.  Here the thread is the one at
    [node_B], with saved stack pointer 0x20000280 and saved program counter
    0x08004321, and the registers of entry are 0x20003F00 and 0x08001234. *)
Theorem unwinder_leaves_thread_stack_pointer :
  active thread_B = false
  /\ reg_writable (board_refusing (refuse_pc 0x08004321)) SP 0x20000280 = true
  /\ reg_writable (board_refusing (refuse_pc 0x08004321)) PC 0x08004321 = false
  /\ fst (_build_frame_list (board_refusing (refuse_pc 0x08004321)) thread_B
            None None live_regs)
     = {| sp := 0x20000280; pc := 0x08001234 |}
  /\ fst (_build_frame_list (board_refusing (refuse_pc 0x08004321)) thread_B
            None None live_regs)
     <> live_regs.
Proof.
  split; [reflexivity|]. split; [reflexivity|]. split; [reflexivity|].
  split; [reflexivity|]. vm_compute. discriminate.
Qed.

(** ** Plausibility of frame addresses *)

Lemma valid_code_addr_iff (addr : Z) :
  _is_valid_code_addr addr = false <-> addr = 0 \/ 0xE0000000 <= addr.
Proof.
  unfold _is_valid_code_addr.
  destruct (addr =? 0) eqn:H0.
  - apply Z.eqb_eq in H0. split; [now left | reflexivity].
  - apply Z.eqb_neq in H0.
    destruct (addr >=? 0xE0000000) eqn:H1.
    + apply Z.geb_le in H1. split; [now right | reflexivity].
    + rewrite Z.geb_leb in H1. apply Z.leb_gt in H1. split; [discriminate | lia].
Qed.

Lemma walk_frames_valid (older : FrameChain) :
  forall f level low high frames,
    Forall (fun fd => _is_valid_code_addr (fd_addr fd) = true) frames ->
    Forall (fun fd => _is_valid_code_addr (fd_addr fd) = true)
           (fst (walk_frames f older level low high frames)).
Proof.
  induction older as [|e|f' older' IH]; intros f level low high frames Hframes;
    cbn [walk_frames];
    (destruct (f_pc f) as [addr|e0]; [|exact Hframes]);
    (destruct (_is_valid_code_addr addr) eqn:Hvalid; cbn [negb]; [|exact Hframes]);
    (assert (Hstep : forall frames',
               (if in_range low high level
                then fd <- frame_entry level addr f ;; Ok (frames ++ [fd])
                else Ok frames) = Ok frames' ->
               Forall (fun fd => _is_valid_code_addr (fd_addr fd) = true) frames');
     [ intros frames'; destruct (in_range low high level);
       [ unfold frame_entry;
         destruct (f_name f) as [n|]; cbn [bind]; [|discriminate];
         destruct (f_sal f) as [sal|]; cbn [bind]; [|discriminate];
         intros H; injection H as <-;
         apply Forall_app; split; [exact Hframes | now repeat constructor]
       | intros H; injection H as <-; exact Hframes ]
     | ]);
    (destruct (if in_range low high level
               then fd <- frame_entry level addr f ;; Ok (frames ++ [fd])
               else Ok frames) as [frames'|e1]; [|exact Hframes]);
    specialize (Hstep frames' eq_refl).
  - exact Hstep.
  - destruct e; exact Hstep.
  - apply IH. exact Hstep.
Qed.

Lemma walk_valid (chain : FrameChain) (low high : option Z) :
  Forall (fun fd => _is_valid_code_addr (fd_addr fd) = true) (fst (walk chain low high)).
Proof.
  destruct chain as [|e|f older]; cbn [walk fst]; try constructor.
  apply walk_frames_valid. constructor.
Qed.

Lemma walk_frames_cut (bad : GdbFrame) (older : FrameChain) (addr : Z) :
  f_pc bad = Ok addr ->
  _is_valid_code_addr addr = false ->
  forall prefix f level low high frames,
    walk_frames f (chain_of prefix (Frame bad older)) level low high frames
    = walk_frames f (chain_of prefix NoFrame) level low high frames.
Proof.
  intros Hpc Hbad.
  induction prefix as [|f' prefix IH]; intros f level low high frames;
    cbn [chain_of walk_frames];
    (destruct (f_pc f) as [a|]; [|reflexivity]);
    (destruct (negb (_is_valid_code_addr a)); [reflexivity|]);
    (destruct (if in_range low high level
               then fd <- frame_entry level a f ;; Ok (frames ++ [fd])
               else Ok frames) as [frames'|]; [|reflexivity]).
  - destruct older; cbn [walk_frames]; rewrite Hpc, Hbad; reflexivity.
  - apply IH.
Qed.

Lemma build_frame_dict_addr (g : Gdb) (live : Regs) (thread : ZephyrThread)
    (include_args : bool) :
  fd_addr (_build_frame_dict g live thread include_args)
  = if active thread
    then match newest_frame g live with
         | Frame gdb_frame _ => try_default (f_pc gdb_frame) 0
         | _ => 0
         end
    else match callee_saved thread with
         | Some cs => get_thread_pc (arch thread) g cs
         | None => 0
         end.
Proof.
  unfold _build_frame_dict. destruct (active thread).
  - destruct (newest_frame g live) as [|e|gdb_frame older]; try reflexivity.
    destruct (f_pc gdb_frame) as [addr|]; [|reflexivity]. cbn [try_default].
    destruct (f_name gdb_frame) as [n|]; [|reflexivity].
    destruct (f_sal gdb_frame); reflexivity.
  - destruct (callee_saved thread); reflexivity.
Qed.

(** The frames [_build_frame_list] returns are those of one walk, followed
    or not by the synthetic frame.  The walk is that of the newest frame of
    the live registers for an active thread, and for a suspended thread that
    of the newest frame of the substituted registers, when it comes to a
    walk at all. *)
Lemma build_frame_list_shape (g : Gdb) (thread : ZephyrThread)
    (low high : option Z) (live : Regs) :
  exists chain,
    (snd (_build_frame_list g thread low high live) = fst (walk chain low high)
     \/ snd (_build_frame_list g thread low high live)
        = fst (walk chain low high)
          ++ [_build_frame_dict g (fst (_build_frame_list g thread low high live))
                thread false])
    /\ (active thread = true -> chain = newest_frame g live)
    /\ (active thread = false ->
        chain = NoFrame
        \/ exists cs,
             callee_saved thread = Some cs
             /\ chain = newest_frame g {| sp := get_thread_sp (arch thread) cs;
                                          pc := get_thread_pc (arch thread) g cs |}).
Proof.
  unfold _build_frame_list. destruct (active thread).
  - exists (newest_frame g live). split; [|split; [reflexivity | discriminate]].
    destruct (walk (newest_frame g live) low high) as [frames [e|]]; cbn [fst snd];
      [now right | now left].
  - assert (H : exists chain,
               snd (fst (unwind_suspended g thread low high live))
               = fst (walk chain low high)
               /\ (chain = NoFrame
                   \/ exists cs,
                        callee_saved thread = Some cs
                        /\ chain
                           = newest_frame g
                               {| sp := get_thread_sp (arch thread) cs;
                                  pc := get_thread_pc (arch thread) g cs |})).
    { unfold unwind_suspended.
      destruct (callee_saved thread) as [cs|]; [|exists NoFrame; split; [reflexivity | now left]].
      destruct (negb (get_thread_pc (arch thread) g cs =? 0)
                && negb (get_thread_sp (arch thread) cs =? 0));
        [|exists NoFrame; split; [reflexivity | now left]].
      destruct (capture g live) as [orig|];
        [|exists NoFrame; split; [reflexivity | now left]].
      unfold set_reg.
      destruct (reg_writable g SP (get_thread_sp (arch thread) cs));
        [|exists NoFrame; split; [reflexivity | now left]].
      destruct (reg_writable g PC (get_thread_pc (arch thread) g cs));
        [|exists NoFrame; split; [reflexivity | now left]].
      cbn [put_reg sp pc].
      match goal with
      | |- context [walk (newest_frame g ?live2) low high] =>
          exists (newest_frame g live2); split;
          [now destruct (walk (newest_frame g live2) low high) as [frames raised]
          | right; exists cs; now split]
      end. }
    destruct H as (chain & H & Hchain). exists chain.
    split; [|split; [discriminate | intros _; exact Hchain]].
    destruct (unwind_suspended g thread low high live) as [[live' frames] unwound].
    cbn [fst snd] in H. subst frames.
    destruct (negb unwound && wants_level0 low); cbn [fst snd]; [now right | now left].
Qed.

(** C9 (amended).  An address is rejected as code exactly when it is 0 or
    at or above 0xE0000000, on every architecture profile.  A frame with
    such an address ends the walk: every frame the walk produces has a
    plausible address, and the walk of a chain is the walk of the chain cut
    before its first such frame, so neither that frame nor an older one is
    produced.  The frame list returned to the caller consists of the frames
    of one walk, followed or not by the one synthetic frame of
    [_build_frame_dict].  The address of that frame is not checked: for a
    suspended thread it is the thread's saved program counter (0 without
    saved registers), for an active thread the program counter of the
    newest frame of the live registers (0 when it cannot be read). *)
Theorem walk_stops_at_implausible_address :
  (forall addr, _is_valid_code_addr addr = false <-> addr = 0 \/ 0xE0000000 <= addr)
  /\ (forall chain low high fd,
     In fd (fst (walk chain low high)) -> _is_valid_code_addr (fd_addr fd) = true)
  /\ (forall prefix bad older addr low high,
        f_pc bad = Ok addr ->
        addr = 0 \/ 0xE0000000 <= addr ->
        walk (chain_of prefix (Frame bad older)) low high
        = walk (chain_of prefix NoFrame) low high)
  /\ (forall g thread low high live,
        exists chain,
          (snd (_build_frame_list g thread low high live) = fst (walk chain low high)
           \/ snd (_build_frame_list g thread low high live)
              = fst (walk chain low high)
                ++ [_build_frame_dict g (fst (_build_frame_list g thread low high live))
                      thread false])
          /\ (active thread = true -> chain = newest_frame g live)
          /\ (active thread = false ->
              chain = NoFrame
              \/ exists cs,
                   callee_saved thread = Some cs
                   /\ chain = newest_frame g {| sp := get_thread_sp (arch thread) cs;
                                                pc := get_thread_pc (arch thread) g cs |}))
  /\ (forall g live thread include_args,
        fd_addr (_build_frame_dict g live thread include_args)
        = if active thread
          then match newest_frame g live with
               | Frame gdb_frame _ => try_default (f_pc gdb_frame) 0
               | _ => 0
               end
          else match callee_saved thread with
               | Some cs => get_thread_pc (arch thread) g cs
               | None => 0
               end).
Proof.
  split; [exact valid_code_addr_iff | split; [|split; [|split]]].
  - intros chain low high fd Hin.
    pose proof (walk_valid chain low high) as H.
    rewrite Forall_forall in H. now apply H.
  - intros prefix bad older addr low high Hpc Hbad.
    apply valid_code_addr_iff in Hbad.
    destruct prefix as [|f prefix]; cbn [chain_of walk].
    + destruct older; cbn [walk_frames]; now rewrite Hpc, Hbad.
    + now apply (walk_frames_cut bad older addr).
  - exact build_frame_list_shape.
  - exact build_frame_dict_addr.
Qed.

Lemma walk_stops_at_implausible_address_witness :
  walk (chain_of three_frames_middle_in_system_space NoFrame) None None
  = walk (chain_of [frame_at 0x08001234 "k_sleep"] NoFrame) None None.
Proof.
  apply (proj1 (proj2 (proj2 walk_stops_at_implausible_address))
           [frame_at 0x08001234 "k_sleep"] (frame_at 0xE000ED00 "??")
           (Frame (frame_at 0x08000400 "main") NoFrame) 0xE000ED00 None None).
  - reflexivity.
  - right. vm_compute. discriminate.
Defined.

(** C9, as stated, fails on the frame list a caller receives: for a
    suspended thread whose stacked program counter is 0xE0001000 the walk
    rejects that address at once and produces nothing, and the fallback then
    returns a frame with that very address. *)
Lemma rejected_address_returned_counterexample :
  active (thread_on wild_board node_B 2) = false
  /\ map fd_addr (snd (_build_frame_list wild_board (thread_on wild_board node_B 2)
                         None None live_regs))
     = [0xE0001000]
  /\ _is_valid_code_addr 0xE0001000 = false.
Proof.
  repeat split.
Qed.

(** ** The traversal loop *)

Section Traversal.
Variables (g : Gdb) (current : option Z) (offs : Offsets)
          (a : ArchitectureHandler) (thread_list_head : Z).

Lemma loop_iter_continue (st st' : Loop) :
  loop_iter g current offs a thread_list_head st = inl st' ->
  (List.length (new_thread_list st) < max_threads)%nat
  /\ new_thread_list st'
     = new_thread_list st
       ++ [ZephyrThread_init g current (lwp_counter st) (current_ptr st) offs a]
  /\ lwp_counter st' = lwp_counter st + 1.
Proof.
  unfold loop_iter, loop_test.
  destruct (negb (current_ptr st =? 0)); cbn [andb]; [|discriminate].
  destruct (Nat.ltb (List.length (new_thread_list st)) max_threads) eqn:Hlt;
    [|discriminate].
  apply Nat.ltb_lt in Hlt.
  destruct (thread_next_thread g (current_ptr st)) as [next|]; [|discriminate].
  destruct (next =? thread_list_head); [discriminate|].
  intros H. injection H as <-. now repeat split.
Qed.

Lemma loop_iter_leave (st st' : Loop) :
  loop_iter g current offs a thread_list_head st = inr st' ->
  st' = st
  \/ ((List.length (new_thread_list st) < max_threads)%nat
      /\ new_thread_list st'
         = new_thread_list st
           ++ [ZephyrThread_init g current (lwp_counter st) (current_ptr st) offs a]
      /\ lwp_counter st' = lwp_counter st + 1).
Proof.
  unfold loop_iter, loop_test.
  destruct (negb (current_ptr st =? 0)); cbn [andb];
    [|intros H; injection H as <-; now left].
  destruct (Nat.ltb (List.length (new_thread_list st)) max_threads) eqn:Hlt;
    [|intros H; injection H as <-; now left].
  apply Nat.ltb_lt in Hlt.
  destruct (thread_next_thread g (current_ptr st)) as [next|].
  - destruct (next =? thread_list_head); [|discriminate].
    intros H. injection H as <-. right. now repeat split.
  - intros H. injection H as <-. right. now repeat split.
Qed.

(** The loop leaves within [max_threads - len(new_thread_list) + 1]
    iterations, with no more than [max_threads] threads. *)
Lemma while_loop_leaves (fuel : nat) :
  forall st,
    (List.length (new_thread_list st) <= max_threads)%nat ->
    (max_threads - List.length (new_thread_list st) < fuel)%nat ->
    exists final,
      while_loop g current offs a thread_list_head fuel st = Some final
      /\ (List.length (new_thread_list final) <= max_threads)%nat.
Proof.
  induction fuel as [|fuel IH]; intros st Hlen Hfuel; [lia|].
  cbn [while_loop].
  destruct (loop_iter g current offs a thread_list_head st) as [st'|st'] eqn:Hiter.
  - destruct (loop_iter_continue st st' Hiter) as (Hlt & Hlist & _).
    apply IH; rewrite Hlist, length_app; cbn [List.length]; lia.
  - exists st'. split; [reflexivity|].
    destruct (loop_iter_leave st st' Hiter) as [-> | (Hlt & Hlist & _)];
      [assumption|].
    rewrite Hlist, length_app. cbn [List.length]. lia.
Qed.

Lemma while_loop_more_fuel (fuel : nat) :
  forall st final,
    while_loop g current offs a thread_list_head fuel st = Some final ->
    forall fuel', (fuel <= fuel')%nat ->
      while_loop g current offs a thread_list_head fuel' st = Some final.
Proof.
  induction fuel as [|fuel IH]; intros st final Hrun fuel' Hle; [discriminate|].
  destruct fuel' as [|fuel']; [lia|].
  cbn [while_loop] in *.
  destruct (loop_iter g current offs a thread_list_head st) as [st'|st'].
  - apply (IH st' final Hrun). lia.
  - exact Hrun.
Qed.

Lemma traverse_leaves_loop (counter : Z) :
  while_loop g current offs a thread_list_head (S max_threads)
    (loop_entry thread_list_head counter)
  = Some (traverse g current offs a thread_list_head counter)
  /\ (List.length (new_thread_list (traverse g current offs a thread_list_head counter))
      <= max_threads)%nat.
Proof.
  destruct (while_loop_leaves (S max_threads) (loop_entry thread_list_head counter))
    as (final & Hrun & Hlen);
    [ cbn [loop_entry new_thread_list List.length]; lia
    | cbn [loop_entry new_thread_list List.length]; lia | ].
  unfold traverse. fold (loop_entry thread_list_head counter).
  rewrite Hrun. now split.
Qed.

Lemma numbered_from_step (first : Z) (st st' : Loop) :
  numbered_from first st ->
  new_thread_list st'
  = new_thread_list st
    ++ [ZephyrThread_init g current (lwp_counter st) (current_ptr st) offs a] ->
  lwp_counter st' = lwp_counter st + 1 ->
  numbered_from first st'.
Proof.
  intros [Hcount Hids] Hlist Hnext. split.
  - rewrite Hnext, Hlist, length_app, Hcount. cbn [List.length]. lia.
  - intros i t. rewrite Hlist.
    destruct (Nat.lt_ge_cases i (List.length (new_thread_list st))) as [Hi|Hi].
    + rewrite nth_error_app1 by exact Hi. apply Hids.
    + rewrite nth_error_app2 by exact Hi.
      destruct (i - List.length (new_thread_list st))%nat as [|k] eqn:Hk; cbn.
      * intros H. injection H as <-. cbn. rewrite Hcount. f_equal. lia.
      * destruct k; discriminate.
Qed.

Lemma while_loop_numbered (first : Z) (fuel : nat) :
  forall st final,
    numbered_from first st ->
    while_loop g current offs a thread_list_head fuel st = Some final ->
    numbered_from first final.
Proof.
  induction fuel as [|fuel IH]; intros st final Hst Hrun; [discriminate|].
  cbn [while_loop] in Hrun.
  destruct (loop_iter g current offs a thread_list_head st) as [st'|st'] eqn:Hiter.
  - destruct (loop_iter_continue st st' Hiter) as (_ & Hlist & Hnext).
    apply (IH st' final); [|exact Hrun].
    now apply (numbered_from_step first st st').
  - injection Hrun as <-.
    destruct (loop_iter_leave st st' Hiter) as [-> | (_ & Hlist & Hnext)];
      [assumption|].
    now apply (numbered_from_step first st st').
Qed.

Lemma traverse_numbered (counter : Z) :
  numbered_from counter (traverse g current offs a thread_list_head counter).
Proof.
  apply (while_loop_numbered counter (S max_threads) (loop_entry thread_list_head counter)).
  - split; [cbn [loop_entry new_thread_list lwp_counter List.length]; lia|].
    intros [|i] t; discriminate.
  - apply traverse_leaves_loop.
Qed.

(** A ring of nodes is walked once round. *)
Lemma while_loop_ring (rest : list Z) :
  forall p st fuel,
    current_ptr st = p ->
    ring_from g thread_list_head p rest ->
    (List.length (new_thread_list st) + S (List.length rest) <= max_threads)%nat ->
    (List.length rest < fuel)%nat ->
    exists final,
      while_loop g current offs a thread_list_head fuel st = Some final
      /\ map thread_ptr (new_thread_list final)
         = map thread_ptr (new_thread_list st) ++ p :: rest.
Proof.
  induction rest as [|q rest IH]; intros p st fuel Hp Hring Hroom Hfuel;
    (destruct fuel as [|fuel]; [cbn in Hfuel; lia|]);
    cbn [while_loop]; unfold loop_iter, loop_test;
    destruct Hring as [Hnz Hlink]; rewrite Hp.
  - rewrite Hlink.
    replace (negb (p =? 0)) with true
      by (symmetry; apply negb_true_iff; now apply Z.eqb_neq).
    replace (Nat.ltb (List.length (new_thread_list st)) max_threads) with true
      by (symmetry; apply Nat.ltb_lt; cbn in Hroom; lia).
    cbn [andb]. rewrite Z.eqb_refl.
    eexists. split; [reflexivity|].
    cbn [new_thread_list]. now rewrite map_app.
  - destruct Hlink as (Hnext & Hq & Hring).
    rewrite Hnext.
    replace (negb (p =? 0)) with true
      by (symmetry; apply negb_true_iff; now apply Z.eqb_neq).
    replace (Nat.ltb (List.length (new_thread_list st)) max_threads) with true
      by (symmetry; apply Nat.ltb_lt; cbn in Hroom; lia).
    cbn [andb].
    replace (q =? thread_list_head) with false
      by (symmetry; now apply Z.eqb_neq).
    edestruct (IH q) as (final & Hrun & Hptrs);
      [ | exact Hring | | | exists final; split; [exact Hrun|] ].
    + reflexivity.
    + cbn [new_thread_list]. rewrite length_app. cbn [List.length] in *. lia.
    + cbn [List.length] in Hfuel. lia.
    + rewrite Hptrs. cbn [new_thread_list]. rewrite map_app, <- app_assoc.
      reflexivity.
Qed.

End Traversal.

(** C6.  The traversal loop always leaves: run with any bound above 100
    iterations it has left with the result [discover_threads] uses, and that
    result holds at most 100 threads, whatever the list in target memory.
    An iteration whose node links back to the list head appends that node's
    thread and leaves at once.  Hence a ring of [n <= 100] nodes - five, for
    one - is walked exactly once round: the threads are those of the [n]
    nodes, in order. *)
Theorem traversal_terminates (g : Gdb) (current : option Z) (offs : Offsets)
    (a : ArchitectureHandler) (thread_list_head counter : Z) :
  (forall fuel, (max_threads < fuel)%nat ->
     while_loop g current offs a thread_list_head fuel
       (loop_entry thread_list_head counter)
     = Some (traverse g current offs a thread_list_head counter))
  /\ (List.length (new_thread_list (traverse g current offs a thread_list_head counter))
      <= 100)%nat
  /\ (forall st,
        loop_test st = true ->
        thread_next_thread g (current_ptr st) = Ok thread_list_head ->
        loop_iter g current offs a thread_list_head st
        = inr {| current_ptr := thread_list_head;
                 new_thread_list :=
                   new_thread_list st
                   ++ [ZephyrThread_init g current (lwp_counter st) (current_ptr st) offs a];
                 lwp_counter := lwp_counter st + 1 |})
  /\ (forall rest,
        ring_from g thread_list_head thread_list_head rest ->
        (S (List.length rest) <= max_threads)%nat ->
        map thread_ptr (new_thread_list (traverse g current offs a thread_list_head counter))
        = thread_list_head :: rest).
Proof.
  destruct (traverse_leaves_loop g current offs a thread_list_head counter)
    as [Hrun Hlen].
  repeat split.
  - intros fuel Hfuel.
    apply (while_loop_more_fuel g current offs a thread_list_head (S max_threads));
      [exact Hrun | lia].
  - exact Hlen.
  - intros st Htest Hnext. unfold loop_iter.
    now rewrite Htest, Hnext, Z.eqb_refl.
  - intros rest Hring Hroom.
    destruct (while_loop_ring g current offs a thread_list_head rest thread_list_head
                (loop_entry thread_list_head counter) (S max_threads))
      as (final & Hfinal & Hptrs);
      [ reflexivity | exact Hring
      | cbn [loop_entry new_thread_list List.length]; lia | lia | ].
    rewrite Hrun in Hfinal. injection Hfinal as <-. exact Hptrs.
Qed.

Lemma traversal_terminates_witness :
  map thread_ptr
      (new_thread_list (traverse ring_board (Some node_A) Hardcoded ARMCortexMHandler
                          node_A 1))
  = [node_A; node_B; node_C; node_D; node_E].
Proof.
  apply (proj2 (proj2 (proj2
           (traversal_terminates ring_board (Some node_A) Hardcoded ARMCortexMHandler
              node_A 1)))
           [node_B; node_C; node_D; node_E]).
  - cbn. repeat split; discriminate.
  - cbn. unfold max_threads. lia.
Defined.

(** ** Session ids *)

Lemma warn_no_announcement (verbose : bool) (lines : list string) :
  Forall (fun o => is_announcement o = false) (warn verbose lines).
Proof.
  unfold warn. destruct verbose; [|constructor].
  induction lines as [|line lines IH]; cbn [map]; now constructor.
Qed.

Lemma current_warning_no_announcement (verbose : bool) (current : option Z) :
  Forall (fun o => is_announcement o = false) (current_warning verbose current).
Proof.
  destruct current; [constructor | apply warn_no_announcement].
Qed.

Lemma detect_architecture_output_no_announcement (g : Gdb) :
  Forall (fun o => is_announcement o = false) (detect_architecture_output g).
Proof.
  unfold detect_architecture_output.
  destruct (show_architecture g) as [out|]; [|constructor].
  cbv zeta.
  repeat match goal with
         | |- context [if ?b then _ else _] => destruct b
         end; repeat constructor.
Qed.

Lemma no_announcement_app (l1 l2 : list Output) :
  Forall (fun o => is_announcement o = false) l1 ->
  Forall (fun o => is_announcement o = false) l2 ->
  Forall (fun o => is_announcement o = false) (l1 ++ l2).
Proof. intros H1 H2. apply Forall_app. now split. Qed.

(** A cycle whose preconditions hold ends in this session. *)
Lemma discover_threads_runs (g : Gdb) (verbose : bool) (s : Session)
    (offs : Offsets) (kernel : Kernel) (head : Z) :
  _cached_offsets s = Some offs ->
  parse_and_eval_kernel g = Ok kernel ->
  k_threads kernel = Ok head ->
  head <> 0 ->
  exists out_current out_empty,
    discover_threads g verbose s
    = ({| thread_cache :=
            new_thread_list
              (traverse g (read_current kernel) offs (detect_architecture g) head 1);
          current_thread_ptr := read_current kernel;
          _cached_offsets := Some offs;
          _hw_active_lwp :=
            first_active
              (new_thread_list
                 (traverse g (read_current kernel) offs (detect_architecture g) head 1));
          _discovery_mode := _discovery_mode s;
          _real_cpu_regs := _real_cpu_regs s;
          next_lwp :=
            lwp_counter
              (traverse g (read_current kernel) offs (detect_architecture g) head 1) |},
       out_current
       ++ announce (thread_cache s)
            (new_thread_list
               (traverse g (read_current kernel) offs (detect_architecture g) head 1))
       ++ out_empty)
    /\ Forall (fun o => is_announcement o = false) out_current
    /\ Forall (fun o => is_announcement o = false) out_empty.
Proof.
  intros Hoffs Hkernel Hthreads Hhead.
  unfold discover_threads.
  cbn [_cached_offsets set_next_lwp]. rewrite Hoffs, Hkernel.
  cbn [_cached_offsets set_next_lwp set_current_thread_ptr]. rewrite Hthreads.
  apply Z.eqb_neq in Hhead. rewrite Hhead.
  cbn [next_lwp thread_cache set_next_lwp set_current_thread_ptr set_thread_cache
       set_hw_active_lwp current_thread_ptr _cached_offsets _hw_active_lwp
       _discovery_mode _real_cpu_regs].
  unfold set_hw_active_lwp, set_thread_cache, set_next_lwp, set_current_thread_ptr.
  cbn [next_lwp thread_cache current_thread_ptr _cached_offsets _hw_active_lwp
       _discovery_mode _real_cpu_regs].
  rewrite Hoffs.
  exists (detect_architecture_output g ++ current_warning verbose (read_current kernel)).
  eexists. split; [now rewrite <- app_assoc|]. split.
  - apply no_announcement_app;
      [apply detect_architecture_output_no_announcement
      | apply current_warning_no_announcement].
  - apply warn_no_announcement.
Qed.

Lemma announce_nothing_new (old_cache new_thread_list : list ZephyrThread) :
  incl new_thread_list old_cache ->
  announce old_cache new_thread_list = [].
Proof.
  unfold announce. induction new_thread_list as [|t rest IH]; intros Hincl;
    [reflexivity|].
  cbn [filter].
  assert (Hin : in_thread_set (thread_ptr t) old_cache = true).
  { apply existsb_exists. exists t. split; [apply Hincl; now left | apply Z.eqb_refl]. }
  rewrite Hin. cbn [negb]. apply IH.
  intros x Hx. apply Hincl. now right.
Qed.

(** Enumerating twice against the same target gives the same session, and
    the second cycle announces nothing. *)
Ltac enter_cycle Hoffs :=
  unfold discover_threads;
  cbn [_cached_offsets set_next_lwp set_current_thread_ptr];
  rewrite ?Hoffs.

Lemma discover_threads_again (g : Gdb) (verbose : bool) (s : Session) :
  fst (discover_threads g verbose (fst (discover_threads g verbose s)))
  = fst (discover_threads g verbose s)
  /\ Forall (fun o => is_announcement o = false)
            (snd (discover_threads g verbose (fst (discover_threads g verbose s)))).
Proof.
  pose proof (warn_no_announcement verbose) as Hwarn.
  pose proof (detect_architecture_output_no_announcement g) as Harch.
  destruct (_cached_offsets s) as [offs|] eqn:Hoffs.
  2:{ enter_cycle Hoffs. cbn [fst snd]. enter_cycle Hoffs.
      split; [reflexivity | apply no_announcement_app; [exact Harch | apply Hwarn]]. }
  destruct (parse_and_eval_kernel g) as [kernel|e] eqn:Hkernel.
  2:{ enter_cycle Hoffs. rewrite Hkernel. cbn [fst snd]. enter_cycle Hoffs.
      split; [reflexivity | apply no_announcement_app; [exact Harch | apply Hwarn]]. }
  pose proof (current_warning_no_announcement verbose (read_current kernel)) as Hcur.
  destruct (k_threads kernel) as [head|e] eqn:Hthreads.
  2:{ enter_cycle Hoffs. rewrite Hkernel. enter_cycle Hoffs. rewrite Hthreads.
      cbn [fst snd]. enter_cycle Hoffs.
      split; [reflexivity|].
      apply no_announcement_app; [exact Harch|].
      apply no_announcement_app; [exact Hcur | apply Hwarn]. }
  destruct (Z.eq_dec head 0) as [-> | Hhead].
  { enter_cycle Hoffs. rewrite Hkernel. enter_cycle Hoffs. rewrite Hthreads.
    cbn [Z.eqb fst snd]. enter_cycle Hoffs.
    split; [reflexivity|].
    apply no_announcement_app; [exact Harch|].
    apply no_announcement_app; [exact Hcur | apply Hwarn]. }
  destruct (discover_threads_runs g verbose s offs kernel head Hoffs Hkernel Hthreads Hhead)
    as (out1 & out1' & Hfirst & _ & _).
  rewrite Hfirst. cbn [fst].
  match goal with
  | |- context [discover_threads g verbose ?s1] =>
      destruct (discover_threads_runs g verbose s1 offs kernel head
                  eq_refl Hkernel Hthreads Hhead)
        as (out2 & out2' & Hsecond & Hno2 & Hno2')
  end.
  rewrite Hsecond. cbn [fst snd thread_cache _discovery_mode _real_cpu_regs].
  split; [reflexivity|].
  rewrite announce_nothing_new by apply incl_refl.
  now apply no_announcement_app.
Qed.

Lemma positional_increasing (cache : list ZephyrThread) :
  positional cache ->
  forall i j ti tj,
    nth_error cache i = Some ti -> nth_error cache j = Some tj ->
    (i < j)%nat -> lwp ti < lwp tj.
Proof.
  intros Hpos i j ti tj Hi Hj Hlt.
  rewrite (Hpos i ti Hi), (Hpos j tj Hj). lia.
Qed.

Lemma positional_unique (cache : list ZephyrThread) :
  positional cache -> NoDup (map lwp cache).
Proof.
  intros Hpos. apply NoDup_nth_error. intros i j Hi Heq.
  rewrite length_map in Hi.
  rewrite !nth_error_map in Heq.
  destruct (nth_error cache i) as [ti|] eqn:Hti;
    [|apply nth_error_None in Hti; lia].
  destruct (nth_error cache j) as [tj|] eqn:Htj; [|discriminate].
  cbn in Heq. injection Heq as Heq.
  rewrite (Hpos i ti Hti), (Hpos j tj Htj) in Heq. lia.
Qed.

Lemma completed_cycle_positional (g : Gdb) (verbose : bool) (s : Session) :
  ~ precondition_fails g s ->
  positional (thread_cache (fst (discover_threads g verbose s))).
Proof.
  intros Hpre.
  destruct (_cached_offsets s) as [offs|] eqn:Hoffs;
    [|exfalso; apply Hpre; now left].
  destruct (parse_and_eval_kernel g) as [kernel|e] eqn:Hkernel;
    [|exfalso; apply Hpre; right; left; now exists e].
  destruct (k_threads kernel) as [head|e] eqn:Hthreads;
    [|exfalso; apply Hpre; right; right; exists kernel; split;
      [assumption | left; now exists e]].
  destruct (Z.eq_dec head 0) as [-> | Hhead];
    [exfalso; apply Hpre; right; right; exists kernel; split;
     [assumption | now right]|].
  destruct (discover_threads_runs g verbose s offs kernel head Hoffs Hkernel Hthreads Hhead)
    as (out & out' & Hrun & _ & _).
  rewrite Hrun. cbn [fst thread_cache].
  destruct (traverse_numbered g (read_current kernel) offs (detect_architecture g) head 1)
    as [_ Hids].
  intros i t Hit. rewrite (Hids i t Hit). lia.
Qed.

(** C1 (amended).  In every enumeration cycle that gets past its
    preconditions the session ids of the new snapshot are the positions in
    the traversal, 1, 2, ..., n: unique, in first-seen order and strictly
    increasing from 1 (the counter restarts at 1 in every cycle).  A thread
    therefore has the id it had in the previous snapshot exactly when it is
    visited at the position it had there.  Re-enumerating an unchanged
    target gives the same snapshot, ids included, and announces no new
    thread. *)
Theorem session_ids_are_positions (g : Gdb) (verbose : bool) (s : Session) :
  (~ precondition_fails g s ->
     positional (thread_cache (fst (discover_threads g verbose s)))
     /\ NoDup (map lwp (thread_cache (fst (discover_threads g verbose s))))
     /\ (forall i j ti tj,
           nth_error (thread_cache (fst (discover_threads g verbose s))) i = Some ti ->
           nth_error (thread_cache (fst (discover_threads g verbose s))) j = Some tj ->
           (i < j)%nat -> lwp ti < lwp tj))
  /\ (~ precondition_fails g s ->
      positional (thread_cache s) ->
      forall i j t_old t_new,
        nth_error (thread_cache s) i = Some t_old ->
        nth_error (thread_cache (fst (discover_threads g verbose s))) j = Some t_new ->
        (lwp t_new = lwp t_old <-> i = j))
  /\ fst (discover_threads g verbose (fst (discover_threads g verbose s)))
     = fst (discover_threads g verbose s)
  /\ Forall (fun o => is_announcement o = false)
            (snd (discover_threads g verbose (fst (discover_threads g verbose s)))).
Proof.
  split; [|split].
  - intros Hpre.
    pose proof (completed_cycle_positional g verbose s Hpre) as Hpos.
    split; [exact Hpos | split].
    + now apply positional_unique.
    + now apply positional_increasing.
  - intros Hpre Hold i j t_old t_new Hi Hj.
    pose proof (completed_cycle_positional g verbose s Hpre) as Hnew.
    rewrite (Hold i t_old Hi), (Hnew j t_new Hj). lia.
  - apply discover_threads_again.
Qed.

Lemma session_ids_are_positions_witness :
  map lwp (thread_cache (fst (discover_threads small_board false fresh_session))) = [1; 2; 3]
  /\ positional (thread_cache (fst (discover_threads small_board false fresh_session))).
Proof.
  split; [reflexivity|].
  apply (proj1 (session_ids_are_positions small_board false fresh_session)).
  intros [H | [[e H] | (kernel & Hk & [[e H] | H])]]; try discriminate.
  - injection Hk as <-. discriminate.
  - injection Hk as <-. discriminate.
Defined.

(** C1, as stated, fails when the kernel list changes in front of a thread:
    a thread created after the first stop is linked in at the head, and the
    thread at [node_A], listed with id 1 before, is listed with id 2. *)
Lemma session_id_not_kept_counterexample :
  lwp_of node_A
    (thread_cache (fst (discover_threads (board_with [node_A; node_B; node_C]) false
                          fresh_session)))
  = Some 1
  /\ lwp_of node_A
       (thread_cache
          (fst (discover_threads (board_with [node_D; node_A; node_B; node_C]) false
                  (fst (discover_threads (board_with [node_A; node_B; node_C]) false
                          fresh_session)))))
     = Some 2.
Proof.
  split; reflexivity.
Qed.

(** * Further properties of the module *)

(** ** Architecture detection *)

Lemma prefix_trans (a : string) :
  forall b s, String.prefix a b = true -> String.prefix b s = true ->
              String.prefix a s = true.
Proof.
  induction a as [|c a IH]; intros b s Hab Hbs; [now destruct s|].
  destruct b as [|d b]; [discriminate|].
  destruct s as [|e s]; [discriminate|].
  cbn in *.
  destruct (ascii_dec c d) as [->|]; [|discriminate].
  destruct (ascii_dec d e) as [->|]; [|discriminate].
  now apply (IH b s).
Qed.

Lemma contains_prefix (a b : string) :
  String.prefix a b = true ->
  forall s, contains b s = true -> contains a s = true.
Proof.
  intros Hab. induction s as [|c s IH]; intros Hb.
  - cbn [contains] in *. destruct (String.prefix b "") eqn:Hp; [|discriminate].
    now rewrite (prefix_trans a b "" Hab Hp).
  - cbn [contains] in *.
    destruct (String.prefix b (String c s)) eqn:Hp.
    + now rewrite (prefix_trans a b _ Hab Hp).
    + destruct (String.prefix a (String c s)); [reflexivity | now apply IH].
Qed.

(** X1.  The test for "arc" comes before the test for "riscv", so the
    RISC-V handler is chosen only for a description without "arc" in it.  A
    description that contains the word "architecture" - as the answer of
    [show architecture] does - never selects the RISC-V handler: unless it
    names an ARM or x86 target it selects the ARC handler. *)
Theorem detect_architecture_riscv_shadowed (g : Gdb) :
  (detect_architecture g = RISCVHandler ->
     exists out, show_architecture g = Ok out
                 /\ contains "riscv" (lower out) = true
                 /\ contains "arc" (lower out) = false)
  /\ (forall out,
        show_architecture g = Ok out ->
        contains "architecture" (lower out) = true ->
        detect_architecture g <> RISCVHandler
        /\ (contains "arm" (lower out) = false ->
            contains "cortex" (lower out) = false ->
            contains "i386" (lower out) = false ->
            contains "x86-64" (lower out) = false ->
            detect_architecture g = ARCHandler)).
Proof.
  unfold detect_architecture. split.
  - destruct (show_architecture g) as [out|e]; [|discriminate].
    destruct (contains "arm" (lower out) || contains "cortex" (lower out))%bool;
      [discriminate|].
    destruct (contains "i386" (lower out) || contains "x86-64" (lower out))%bool;
      [discriminate|].
    destruct (contains "arc" (lower out)) eqn:Harc; [discriminate|].
    destruct (contains "riscv" (lower out)) eqn:Hriscv; [|discriminate].
    intros _. now exists out.
  - intros out Hout Hword. rewrite Hout.
    assert (Harc : contains "arc" (lower out) = true)
      by (apply (contains_prefix "arc" "architecture"); [reflexivity | exact Hword]).
    rewrite Harc. split.
    + destruct (contains "arm" (lower out) || contains "cortex" (lower out))%bool;
        [discriminate|].
      destruct (contains "i386" (lower out) || contains "x86-64" (lower out))%bool;
        discriminate.
    + intros -> -> -> ->. reflexivity.
Qed.

Lemma detect_architecture_riscv_shadowed_witness :
  detect_architecture riscv_board <> RISCVHandler
  /\ detect_architecture riscv_board = ARCHandler.
Proof.
  destruct (proj2 (detect_architecture_riscv_shadowed riscv_board)
              riscv_description eq_refl eq_refl) as [Hnot Harc].
  split; [exact Hnot|]. apply Harc; reflexivity.
Defined.

(** ** Saved contexts *)

Lemma lor_below (n a b : Z) :
  0 <= n -> 0 <= a < 2 ^ n -> 0 <= b < 2 ^ n -> 0 <= Z.lor a b < 2 ^ n.
Proof.
  intros Hn Ha Hb.
  assert (Hnonneg : 0 <= Z.lor a b) by (apply Z.lor_nonneg; lia).
  split; [exact Hnonneg|].
  destruct (Z.eq_dec (Z.lor a b) 0) as [-> | Hnz]; [lia|].
  apply Z.log2_lt_pow2; [lia|].
  rewrite Z.log2_lor by lia.
  destruct (Z.eq_dec a 0) as [-> | Ha0]; destruct (Z.eq_dec b 0) as [-> | Hb0].
  - cbn in Hnz. lia.
  - rewrite Z.max_r by (cbn; apply Z.log2_nonneg). apply Z.log2_lt_pow2; lia.
  - rewrite Z.max_l by (cbn; apply Z.log2_nonneg). apply Z.log2_lt_pow2; lia.
  - apply Z.max_lub_lt; apply Z.log2_lt_pow2; lia.
Qed.

Lemma byte_shifted_below (b : Byte.byte) (k : Z) :
  0 <= k <= 24 -> 0 <= Z.shiftl (Z.of_N (Byte.to_N b)) k < 2 ^ 32.
Proof.
  intros Hk. pose proof (Byte.to_N_bounded b) as Hb.
  rewrite Z.shiftl_mul_pow2 by lia.
  assert (Hpow : 0 < 2 ^ k) by (apply Z.pow_pos_nonneg; lia).
  assert (Hle : 2 ^ k <= 2 ^ 24) by (apply Z.pow_le_mono_r; lia).
  change (2 ^ 24) with 16777216 in Hle. change (2 ^ 32) with 4294967296.
  nia.
Qed.

Lemma unpack_le_u32_below (bs : list Byte.byte) (v : Z) :
  unpack_le_u32 bs = Ok v -> 0 <= v < 2 ^ 32.
Proof.
  destruct bs as [|b0 [|b1 [|b2 [|b3 [|]]]]]; try discriminate.
  intros H.
  assert (Hv : v = Z.lor (Z.of_N (Byte.to_N b0))
                 (Z.lor (Z.shiftl (Z.of_N (Byte.to_N b1)) 8)
                 (Z.lor (Z.shiftl (Z.of_N (Byte.to_N b2)) 16)
                        (Z.shiftl (Z.of_N (Byte.to_N b3)) 24))))
    by (unfold unpack_le_u32 in H; congruence).
  rewrite Hv.
  pose proof (byte_shifted_below b0 0) as H0. rewrite Z.shiftl_0_r in H0.
  pose proof (byte_shifted_below b1 8) as H1.
  pose proof (byte_shifted_below b2 16) as H2.
  pose proof (byte_shifted_below b3 24) as H3.
  repeat apply lor_below; lia.
Qed.

(** X2.  On the Cortex-M profile the saved program counter is an unsigned
    32-bit number, whatever the thread's saved registers and the target
    memory hold; it is 0 when the saved registers have no [psp] member. *)
Theorem arm_saved_pc_is_u32 (g : Gdb) (cs : CalleeSaved) :
  0 <= get_thread_pc ARMCortexMHandler g cs < 2 ^ 32
  /\ (field_lookup "psp" cs = None -> get_thread_pc ARMCortexMHandler g cs = 0).
Proof.
  cbn [get_thread_pc]. split.
  - destruct (field_lookup "psp" cs) as [[psp|e]|]; cbn [bind try_default]; try lia.
    destruct (read_memory g (psp + 24) 4) as [bs|e]; cbn [bind try_default]; try lia.
    destruct (unpack_le_u32 bs) as [v|e] eqn:Hv; cbn [try_default]; try lia.
    now apply (unpack_le_u32_below bs).
  - now intros ->.
Qed.

Lemma arm_saved_pc_is_u32_witness :
  get_thread_pc ARMCortexMHandler small_board [("sp", Ok 0x20002000)] = 0.
Proof.
  apply (proj2 (arm_saved_pc_is_u32 small_board [("sp", Ok 0x20002000)])).
  reflexivity.
Defined.

(** X3.  The x86 and ARC handlers know no saved stack pointer (and the
    x86 one no program counter), so for a thread of such a target that is
    not the hardware-active one a context switch changes nothing, and
    unwinding it as a suspended thread leaves the registers alone and
    returns the synthetic frame only - or nothing when the requested range
    starts above level 0. *)
Theorem unsupported_profiles_never_substitute (g : Gdb) (t : ZephyrThread)
    (low high : option Z) (live : Regs) (s : Session) :
  arch t = x86Handler \/ arch t = ARCHandler ->
  (is_hw_active t s = false -> _switch_thread_context g t (live, s) = (live, s))
  /\ (active t = false ->
      _build_frame_list g t low high live
      = (live, if wants_level0 low then [_build_frame_dict g live t false] else [])).
Proof.
  intros Harch.
  assert (Hsp : forall cs, get_thread_sp (arch t) cs = 0)
    by (intros cs; destruct Harch as [-> | ->]; reflexivity).
  split.
  - intros Hsusp. unfold _switch_thread_context. rewrite Hsusp.
    destruct (callee_saved t) as [cs|]; [|reflexivity].
    rewrite Hsp. cbn [Z.eqb negb]. now rewrite andb_false_r.
  - intros Hinactive. unfold _build_frame_list, unwind_suspended. rewrite Hinactive.
    destruct (callee_saved t) as [cs|].
    + rewrite Hsp. cbn [Z.eqb negb]. rewrite andb_false_r. cbn [negb andb app].
      destruct (wants_level0 low); reflexivity.
    + cbn [negb andb app]. destruct (wants_level0 low); reflexivity.
Qed.

Lemma unsupported_profiles_never_substitute_witness :
  _switch_thread_context small_board arc_thread (live_regs, stopped_session)
  = (live_regs, stopped_session)
  /\ _build_frame_list small_board arc_thread (Some 1) (Some 3) live_regs
     = (live_regs, []).
Proof.
  destruct (unsupported_profiles_never_substitute small_board arc_thread
              (Some 1) (Some 3) live_regs stopped_session (or_intror eq_refl))
    as [Hswitch Hframes].
  split; [apply Hswitch | apply Hframes]; reflexivity.
Defined.

(** ** Context switches *)

Lemma write_sp_pc_swallow_twice (g : Gdb) (target live : Regs) :
  write_sp_pc_swallow g target (write_sp_pc_swallow g target live)
  = write_sp_pc_swallow g target live.
Proof.
  unfold write_sp_pc_swallow, set_reg.
  destruct (reg_writable g SP (sp target)); [|reflexivity].
  destruct (reg_writable g PC (pc target)); reflexivity.
Qed.

(** X4.  A context switch is idempotent: switching to the same thread a
    second time changes neither the live registers nor the session, whether
    the thread is the hardware-active one or a suspended one and whatever
    the debugger does with the register accesses. *)
Theorem switch_thread_context_idempotent (g : Gdb) (t : ZephyrThread)
    (st : Regs * Session) :
  _switch_thread_context g t (_switch_thread_context g t st)
  = _switch_thread_context g t st.
Proof.
  destruct st as [live s].
  destruct (is_hw_active t s) eqn:Hhw.
  - destruct (_real_cpu_regs s) as [saved|] eqn:Hsnap.
    + assert (H1 : _switch_thread_context g t (live, s)
                   = (write_sp_pc_swallow g saved live, set_real_cpu_regs None s))
        by (unfold _switch_thread_context; now rewrite Hhw, Hsnap).
      rewrite H1. unfold _switch_thread_context.
      now rewrite is_hw_active_set_real_cpu_regs, Hhw.
    + assert (H1 : _switch_thread_context g t (live, s) = (live, s))
        by (unfold _switch_thread_context; now rewrite Hhw, Hsnap).
      now rewrite !H1.
  - destruct (callee_saved t) as [cs|] eqn:Hcs.
    2:{ assert (H1 : _switch_thread_context g t (live, s) = (live, s))
          by (unfold _switch_thread_context; now rewrite Hhw, Hcs).
        now rewrite !H1. }
    destruct (negb (get_thread_pc (arch t) g cs =? 0)
              && negb (get_thread_sp (arch t) cs =? 0)) eqn:Hok.
    2:{ assert (H1 : _switch_thread_context g t (live, s) = (live, s))
          by (unfold _switch_thread_context; now rewrite Hhw, Hcs, Hok).
        now rewrite !H1. }
    destruct (_real_cpu_regs s) as [saved|] eqn:Hsnap.
    + assert (H1 : _switch_thread_context g t (live, s)
                   = (write_sp_pc_swallow g
                        {| sp := get_thread_sp (arch t) cs;
                           pc := get_thread_pc (arch t) g cs |} live, s))
        by (unfold _switch_thread_context; now rewrite Hhw, Hcs, Hok, Hsnap).
      rewrite H1. unfold _switch_thread_context. rewrite Hhw, Hcs, Hok, Hsnap.
      now rewrite write_sp_pc_swallow_twice.
    + destruct (capture g live) as [saved|e] eqn:Hcap.
      * assert (H1 : _switch_thread_context g t (live, s)
                     = (write_sp_pc_swallow g
                          {| sp := get_thread_sp (arch t) cs;
                             pc := get_thread_pc (arch t) g cs |} live,
                        set_real_cpu_regs (Some saved) s))
          by (unfold _switch_thread_context; now rewrite Hhw, Hcs, Hok, Hsnap, Hcap).
        rewrite H1. unfold _switch_thread_context.
        rewrite is_hw_active_set_real_cpu_regs, Hhw, Hcs, Hok.
        cbn [_real_cpu_regs set_real_cpu_regs].
        now rewrite write_sp_pc_swallow_twice.
      * assert (H1 : _switch_thread_context g t (live, s) = (live, s))
          by (unfold _switch_thread_context; now rewrite Hhw, Hcs, Hok, Hsnap, Hcap).
        now rewrite !H1.
Qed.

(** X26.  What a switch to a suspended thread with a resolved context does
    when the debugger accepts the two writes: the live registers become the
    thread's saved stack pointer and program counter.  With a snapshot
    outstanding the session is left as it is (nothing is saved again);
    without one the registers of entry become the snapshot - and when they
    cannot be read, nothing is written and nothing changes. *)
Theorem switch_substitutes_saved_context (g : Gdb) (t : ZephyrThread)
    (cs : CalleeSaved) (live : Regs) (s : Session) :
  is_hw_active t s = false ->
  callee_saved t = Some cs ->
  get_thread_pc (arch t) g cs <> 0 ->
  get_thread_sp (arch t) cs <> 0 ->
  reg_writable g SP (get_thread_sp (arch t) cs) = true ->
  reg_writable g PC (get_thread_pc (arch t) g cs) = true ->
  (_real_cpu_regs s <> None ->
   _switch_thread_context g t (live, s)
   = ({| sp := get_thread_sp (arch t) cs; pc := get_thread_pc (arch t) g cs |}, s))
  /\ (_real_cpu_regs s = None ->
      reg_readable g SP = true -> reg_readable g PC = true ->
      _switch_thread_context g t (live, s)
      = ({| sp := get_thread_sp (arch t) cs; pc := get_thread_pc (arch t) g cs |},
         set_real_cpu_regs (Some live) s))
  /\ (_real_cpu_regs s = None ->
      reg_readable g SP = false \/ reg_readable g PC = false ->
      _switch_thread_context g t (live, s) = (live, s)).
Proof.
  intros Hhw Hcs Hpc Hsp Hwsp Hwpc.
  unfold _switch_thread_context. rewrite Hhw, Hcs.
  apply Z.eqb_neq in Hpc. apply Z.eqb_neq in Hsp. rewrite Hpc, Hsp. cbn [negb andb].
  split; [|split].
  - intros Hsnap. destruct (_real_cpu_regs s); [|congruence].
    now rewrite write_sp_pc_accepted.
  - intros Hsnap Hrsp Hrpc. rewrite Hsnap.
    destruct (capture g live) as [saved|e] eqn:Hcap.
    + apply capture_readable in Hcap. subst saved.
      now rewrite write_sp_pc_accepted.
    + unfold capture, read_reg in Hcap. rewrite Hrsp, Hrpc in Hcap. discriminate.
  - intros Hsnap Hunreadable. rewrite Hsnap.
    destruct (capture g live) as [saved|e] eqn:Hcap; [|reflexivity].
    unfold capture, read_reg in Hcap.
    destruct Hunreadable as [H | H]; rewrite H in Hcap;
      [|destruct (reg_readable g SP)]; discriminate.
Qed.

Lemma switch_substitutes_saved_context_witness :
  _switch_thread_context small_board thread_B (live_regs, stopped_session)
  = ({| sp := 0x20000280; pc := 0x08004321 |},
     set_real_cpu_regs (Some live_regs) stopped_session).
Proof.
  apply (proj1 (proj2 (switch_substitutes_saved_context small_board thread_B
                         [("psp", Ok 0x20000280)] live_regs stopped_session
                         eq_refl eq_refl ltac:(discriminate) ltac:(discriminate)
                         eq_refl eq_refl)));
    reflexivity.
Defined.

(** X5.  A stop undoes every substitution: from a state without snapshot,
    after switches to any sequence of suspended threads, the stop handler
    leaves the live registers as they were before the first switch,
    provided the debugger performs the two restoring writes. *)
Theorem stop_after_switches_restores (g : Gdb) (ts : list ZephyrThread)
    (live : Regs) (s : Session) :
  _real_cpu_regs s = None ->
  Forall (fun t => is_hw_active t s = false) ts ->
  reg_writable g SP (sp live) = true ->
  reg_writable g PC (pc live) = true ->
  fst (fst (stop_handler g (switch_all g ts (live, s)))) = live.
Proof.
  intros Hnone Hts Hsp Hpc.
  assert (Haway : away_from live s (switch_all g ts (live, s)))
    by (apply switch_all_away; [assumption | assumption | now left]).
  destruct Haway as [-> | Hsnap].
  - unfold stop_handler. rewrite Hnone.
    now destruct (discover_threads g false s).
  - destruct (switch_all g ts (live, s)) as [live' s']. cbn [snd] in Hsnap. subst s'.
    unfold stop_handler. cbn [_real_cpu_regs set_real_cpu_regs].
    rewrite (write_sp_pc_accepted g live live' Hsp Hpc).
    now destruct (discover_threads g false _).
Qed.

Lemma stop_after_switches_restores_witness :
  fst (fst (stop_handler small_board
              (switch_all small_board [thread_B; thread_C] (live_regs, stopped_session))))
  = live_regs.
Proof.
  apply (stop_after_switches_restores small_board [thread_B; thread_C]
           live_regs stopped_session).
  - reflexivity.
  - repeat constructor.
  - reflexivity.
  - reflexivity.
Defined.

(** ** Offset resolution by mode *)

Lemma read_offsets_nothing (s : Symbol) (num_offsets : Z) (names : list string) :
  num_offsets <= 0 -> forall i, read_offsets s num_offsets i names = Ok [].
Proof.
  intros Hnum. induction names as [|name rest IH]; intros i; [reflexivity|].
  cbn [read_offsets].
  replace (Z.of_nat i <? num_offsets) with false by (symmetry; apply Z.ltb_ge; lia).
  apply IH.
Qed.

(** X6.  [get_kernel_offsets] returns no table only in the forced mode
    "symbols"; any mode string other than "hardcoded" and "symbols" behaves
    as "auto".  An exported table whose declared count is not positive
    counts as absent: "symbols" then returns no table and "auto" the
    hardcoded sentinel. *)
Theorem get_kernel_offsets_failure_modes (g : Gdb) :
  (forall mode, snd (get_kernel_offsets g mode) = Ok None -> mode = "symbols")
  /\ (forall mode, mode <> "hardcoded" -> mode <> "symbols" ->
        get_kernel_offsets g mode = get_kernel_offsets g "auto")
  /\ (forall offsets_symbol num_symbol,
        lookup_symbol g "_kernel_thread_info_offsets" = Ok (Some offsets_symbol) ->
        lookup_symbol g "_kernel_thread_info_num_offsets" = Ok num_symbol ->
        sym_value offsets_symbol = Ok tt ->
        declared_count num_symbol <= 0 ->
        snd (get_kernel_offsets g "symbols") = Ok None
        /\ snd (get_kernel_offsets g "auto") = Ok (Some get_hardcoded_offsets)).
Proof.
  split; [|split].
  - intros mode. unfold get_kernel_offsets.
    destruct (String.eqb mode "hardcoded"); [discriminate|].
    destruct (discover_offsets_from_symbols g) as [lookups [[[|entry more]|]|e]];
      cbn [snd bind]; try discriminate;
      (destruct (String.eqb mode "symbols") eqn:Hmode;
       [intros _; now apply String.eqb_eq | discriminate]).
  - intros mode Hhard Hsym. unfold get_kernel_offsets.
    apply String.eqb_neq in Hhard. apply String.eqb_neq in Hsym.
    rewrite Hhard, Hsym. reflexivity.
  - intros offsets_symbol num_symbol Ho Hn Hvalue Hcount.
    assert (Hd : discover_offsets_from_symbols g
                 = (["_kernel_thread_info_offsets"; "_kernel_thread_info_num_offsets"],
                    Ok (Some []))).
    { unfold discover_offsets_from_symbols. rewrite Ho, Hn. cbn [bind].
      rewrite Hvalue. cbn [bind].
      now rewrite (read_offsets_nothing offsets_symbol _ OFFSET_FIELDS Hcount). }
    unfold get_kernel_offsets. cbn [String.eqb Ascii.eqb Bool.eqb].
    rewrite Hd. now split.
Qed.

Lemma get_kernel_offsets_failure_modes_witness :
  snd (get_kernel_offsets (board_symbols (Some table_symbol) (Some (count_symbol 0)))
         "symbols") = Ok None
  /\ snd (get_kernel_offsets (board_symbols (Some table_symbol) (Some (count_symbol 0)))
            "auto") = Ok (Some get_hardcoded_offsets)
  /\ get_kernel_offsets (board_symbols None None) "fast"
     = get_kernel_offsets (board_symbols None None) "auto".
Proof.
  split; [|split].
  - apply (proj2 (proj2 (get_kernel_offsets_failure_modes
                           (board_symbols (Some table_symbol) (Some (count_symbol 0)))))
             table_symbol (Some (count_symbol 0))); reflexivity.
  - apply (proj2 (proj2 (get_kernel_offsets_failure_modes
                           (board_symbols (Some table_symbol) (Some (count_symbol 0)))))
             table_symbol (Some (count_symbol 0))); reflexivity.
  - apply (proj1 (proj2 (get_kernel_offsets_failure_modes (board_symbols None None)))
             "fast"); discriminate.
Defined.

(** ** The registry after a cycle *)

Lemma while_loop_forall (g : Gdb) (current : option Z) (offs : Offsets)
    (a : ArchitectureHandler) (thread_list_head : Z) (P : ZephyrThread -> Prop) :
  (forall counter ptr, P (ZephyrThread_init g current counter ptr offs a)) ->
  forall fuel st final,
    Forall P (new_thread_list st) ->
    while_loop g current offs a thread_list_head fuel st = Some final ->
    Forall P (new_thread_list final).
Proof.
  intros Hinit. induction fuel as [|fuel IH]; intros st final Hst Hrun; [discriminate|].
  cbn [while_loop] in Hrun.
  destruct (loop_iter g current offs a thread_list_head st) as [st'|st'] eqn:Hiter.
  - destruct (loop_iter_continue g current offs a thread_list_head st st' Hiter)
      as (_ & Hlist & _).
    apply (IH st' final); [|exact Hrun].
    rewrite Hlist. apply Forall_app. split; [exact Hst | now repeat constructor].
  - injection Hrun as <-.
    destruct (loop_iter_leave g current offs a thread_list_head st st' Hiter)
      as [-> | (_ & Hlist & _)]; [exact Hst|].
    rewrite Hlist. apply Forall_app. split; [exact Hst | now repeat constructor].
Qed.

Lemma traverse_forall (g : Gdb) (current : option Z) (offs : Offsets)
    (a : ArchitectureHandler) (thread_list_head counter : Z) (P : ZephyrThread -> Prop) :
  (forall counter ptr, P (ZephyrThread_init g current counter ptr offs a)) ->
  Forall P (new_thread_list (traverse g current offs a thread_list_head counter)).
Proof.
  intros Hinit.
  apply (while_loop_forall g current offs a thread_list_head P Hinit (S max_threads)
           (loop_entry thread_list_head counter)); [constructor|].
  apply traverse_leaves_loop.
Qed.

(** The traversal starts with the thread of the list head. *)
Lemma while_loop_extends (g : Gdb) (current : option Z) (offs : Offsets)
    (a : ArchitectureHandler) (thread_list_head : Z) :
  forall fuel st final,
    while_loop g current offs a thread_list_head fuel st = Some final ->
    exists more, new_thread_list final = new_thread_list st ++ more.
Proof.
  induction fuel as [|fuel IH]; intros st final Hrun; [discriminate|].
  cbn [while_loop] in Hrun.
  destruct (loop_iter g current offs a thread_list_head st) as [st'|st'] eqn:Hiter.
  - destruct (loop_iter_continue g current offs a thread_list_head st st' Hiter)
      as (_ & Hlist & _).
    destruct (IH st' final Hrun) as [more Hmore].
    eexists. rewrite Hmore, Hlist, <- app_assoc. reflexivity.
  - injection Hrun as <-.
    destruct (loop_iter_leave g current offs a thread_list_head st st' Hiter)
      as [-> | (_ & Hlist & _)].
    + exists []. now rewrite app_nil_r.
    + eexists. exact Hlist.
Qed.

Lemma traverse_starts_at_head (g : Gdb) (current : option Z) (offs : Offsets)
    (a : ArchitectureHandler) (thread_list_head counter : Z) :
  thread_list_head <> 0 ->
  exists more,
    new_thread_list (traverse g current offs a thread_list_head counter)
    = ZephyrThread_init g current counter thread_list_head offs a :: more.
Proof.
  intros Hhead.
  destruct (traverse_leaves_loop g current offs a thread_list_head counter) as [Hrun _].
  cbn [while_loop] in Hrun.
  destruct (loop_iter g current offs a thread_list_head
              (loop_entry thread_list_head counter)) as [st'|st'] eqn:Hiter.
  - destruct (loop_iter_continue g current offs a thread_list_head _ st' Hiter)
      as (_ & Hlist & _).
    destruct (while_loop_extends g current offs a thread_list_head _ _ _ Hrun)
      as [more Hmore].
    exists more. rewrite Hmore, Hlist. reflexivity.
  - injection Hrun as <-.
    destruct (loop_iter_leave g current offs a thread_list_head _ st' Hiter)
      as [-> | (_ & Hlist & _)].
    + exfalso. unfold loop_iter, loop_test in Hiter.
      cbn [loop_entry current_ptr new_thread_list List.length] in Hiter.
      apply Z.eqb_neq in Hhead. rewrite Hhead in Hiter. cbn [negb andb] in Hiter.
      change (Nat.ltb 0 max_threads) with true in Hiter. cbn iota in Hiter.
      destruct (thread_next_thread g thread_list_head) as [next|];
        [destruct (next =? thread_list_head)|]; discriminate.
    + exists []. exact Hlist.
Qed.

Lemma discover_threads_positional (g : Gdb) (verbose : bool) (s : Session) :
  positional (thread_cache s) ->
  positional (thread_cache (fst (discover_threads g verbose s))).
Proof.
  intros Hpos.
  destruct (_cached_offsets s) as [offs|] eqn:Hoffs.
  2:{ enter_cycle Hoffs. exact Hpos. }
  destruct (parse_and_eval_kernel g) as [kernel|e] eqn:Hkernel.
  2:{ enter_cycle Hoffs. rewrite Hkernel. exact Hpos. }
  destruct (k_threads kernel) as [head|e] eqn:Hthreads.
  2:{ enter_cycle Hoffs. rewrite Hkernel. enter_cycle Hoffs. rewrite Hthreads.
      exact Hpos. }
  destruct (Z.eq_dec head 0) as [-> | Hhead].
  { enter_cycle Hoffs. rewrite Hkernel. enter_cycle Hoffs. rewrite Hthreads.
    exact Hpos. }
  apply completed_cycle_positional.
  intros [H | [[e H] | (kernel' & Hk & [[e H] | H])]]; try congruence.
Qed.

Lemma completed_cycle_cache (g : Gdb) (verbose : bool) (s : Session) :
  ~ precondition_fails g s ->
  exists offs kernel head,
    _cached_offsets s = Some offs
    /\ parse_and_eval_kernel g = Ok kernel
    /\ k_threads kernel = Ok head
    /\ head <> 0
    /\ thread_cache (fst (discover_threads g verbose s))
       = new_thread_list
           (traverse g (read_current kernel) offs (detect_architecture g) head 1)
    /\ current_thread_ptr (fst (discover_threads g verbose s)) = read_current kernel
    /\ _hw_active_lwp (fst (discover_threads g verbose s))
       = first_active (thread_cache (fst (discover_threads g verbose s))).
Proof.
  intros Hpre.
  destruct (_cached_offsets s) as [offs|] eqn:Hoffs;
    [|exfalso; apply Hpre; now left].
  destruct (parse_and_eval_kernel g) as [kernel|e] eqn:Hkernel;
    [|exfalso; apply Hpre; right; left; now exists e].
  destruct (k_threads kernel) as [head|e] eqn:Hthreads;
    [|exfalso; apply Hpre; right; right; exists kernel; split;
      [assumption | left; now exists e]].
  destruct (Z.eq_dec head 0) as [-> | Hhead];
    [exfalso; apply Hpre; right; right; exists kernel; split;
     [assumption | now right]|].
  destruct (discover_threads_runs g verbose s offs kernel head Hoffs Hkernel Hthreads Hhead)
    as (out & out' & Hrun & _ & _).
  exists offs, kernel, head. rewrite Hrun. cbn [fst thread_cache current_thread_ptr
                                                _hw_active_lwp].
  repeat split; assumption.
Qed.

Lemma first_active_some (cache : list ZephyrThread) (id : Z) :
  first_active cache = Some id ->
  exists t, In t cache /\ lwp t = id /\ active t = true.
Proof.
  unfold first_active. destruct (find active cache) as [t|] eqn:Hfind; [|discriminate].
  intros H. injection H as <-. apply find_some in Hfind. now exists t.
Qed.

Lemma first_active_none (cache : list ZephyrThread) :
  first_active cache = None <-> forall t, In t cache -> active t = false.
Proof.
  unfold first_active. split.
  - destruct (find active cache) as [t|] eqn:Hfind; [discriminate|].
    intros _ t Ht. apply (find_none _ _ Hfind t Ht).
  - intros Hall. destruct (find active cache) as [t|] eqn:Hfind; [|reflexivity].
    apply find_some in Hfind. destruct Hfind as [Hin Hact].
    rewrite (Hall t Hin) in Hact. discriminate.
Qed.

Lemma is_current_true (ptr : Z) (current : option Z) :
  is_current ptr current = true <-> current = Some ptr.
Proof.
  unfold is_current. destruct current as [c|]; [|split; discriminate].
  rewrite Z.eqb_eq. split; [now intros -> | now intros [= ->]].
Qed.

Lemma NoDup_map_injective {A B : Type} (f : A -> B) (l : list A) :
  NoDup (map f l) -> forall x y, In x l -> In y l -> f x = f y -> x = y.
Proof.
  induction l as [|z l IH]; intros Hnd x y Hx Hy Hf; [contradiction|].
  cbn [map] in Hnd. apply NoDup_cons_iff in Hnd. destruct Hnd as [Hz Hnd].
  destruct Hx as [-> | Hx]; destruct Hy as [-> | Hy].
  - reflexivity.
  - exfalso. apply Hz. rewrite Hf. now apply in_map.
  - exfalso. apply Hz. rewrite <- Hf. now apply in_map.
  - now apply IH.
Qed.

(** X7.  After a cycle that got past its preconditions, a thread of the
    registry has [active] set exactly when its address is the one read as
    the current thread; [_hw_active_lwp] is the id of such a thread, and is
    unset exactly when no thread of the registry has that address.  When no
    address occurs twice in the registry, at most one thread has [active]
    set, and the test the context switcher uses agrees with the flag. *)
Theorem hardware_active_is_current (g : Gdb) (verbose : bool) (s : Session) :
  ~ precondition_fails g s ->
  (forall t, In t (thread_cache (fst (discover_threads g verbose s))) ->
     (active t = true
      <-> current_thread_ptr (fst (discover_threads g verbose s)) = Some (thread_ptr t)))
  /\ (forall id, _hw_active_lwp (fst (discover_threads g verbose s)) = Some id ->
        exists t, In t (thread_cache (fst (discover_threads g verbose s)))
                  /\ lwp t = id
                  /\ current_thread_ptr (fst (discover_threads g verbose s))
                     = Some (thread_ptr t))
  /\ (_hw_active_lwp (fst (discover_threads g verbose s)) = None
      <-> forall t, In t (thread_cache (fst (discover_threads g verbose s))) ->
                    current_thread_ptr (fst (discover_threads g verbose s))
                    <> Some (thread_ptr t))
  /\ (NoDup (map thread_ptr (thread_cache (fst (discover_threads g verbose s)))) ->
      (forall t1 t2,
         In t1 (thread_cache (fst (discover_threads g verbose s))) ->
         In t2 (thread_cache (fst (discover_threads g verbose s))) ->
         active t1 = true -> active t2 = true -> t1 = t2)
      /\ (forall t, In t (thread_cache (fst (discover_threads g verbose s))) ->
            is_hw_active t (fst (discover_threads g verbose s)) = active t)).
Proof.
  intros Hpre.
  pose proof (completed_cycle_positional g verbose s Hpre) as Hpos.
  destruct (completed_cycle_cache g verbose s Hpre)
    as (offs & kernel & head & _ & _ & _ & _ & Hcache & Hcur & Hhw).
  assert (Hflags : forall t,
             In t (thread_cache (fst (discover_threads g verbose s))) ->
             (active t = true
              <-> current_thread_ptr (fst (discover_threads g verbose s))
                  = Some (thread_ptr t))).
  { intros t Ht. rewrite Hcache in Ht. rewrite Hcur.
    pose proof (traverse_forall g (read_current kernel) offs (detect_architecture g)
                  head 1
                  (fun t => active t = is_current (thread_ptr t) (read_current kernel))
                  (fun _ _ => eq_refl)) as Hall.
    rewrite Forall_forall in Hall. rewrite (Hall t Ht). apply is_current_true. }
  assert (Hone : NoDup (map thread_ptr (thread_cache (fst (discover_threads g verbose s)))) ->
                 forall t1 t2,
                   In t1 (thread_cache (fst (discover_threads g verbose s))) ->
                   In t2 (thread_cache (fst (discover_threads g verbose s))) ->
                   active t1 = true -> active t2 = true -> t1 = t2).
  { intros Hnd t1 t2 H1 H2 Ha1 Ha2.
    apply (NoDup_map_injective thread_ptr _ Hnd t1 t2 H1 H2).
    apply Hflags in Ha1; [|exact H1]. apply Hflags in Ha2; [|exact H2].
    congruence. }
  split; [exact Hflags | split; [|split]].
  - intros id Hid. rewrite Hhw in Hid.
    destruct (first_active_some _ id Hid) as (t & Ht & Hlwp & Hact).
    exists t. split; [exact Ht | split; [exact Hlwp|]]. now apply Hflags.
  - rewrite Hhw, first_active_none. split.
    + intros Hall t Ht Hc. apply Hflags in Hc; [|exact Ht].
      rewrite (Hall t Ht) in Hc. discriminate.
    + intros Hall t Ht. destruct (active t) eqn:Hact; [|reflexivity].
      exfalso. apply (Hall t Ht). now apply Hflags.
  - intros Hnd. split; [exact (Hone Hnd)|].
    intros t Ht. unfold is_hw_active. rewrite Hhw.
    destruct (first_active (thread_cache (fst (discover_threads g verbose s))))
      as [id|] eqn:Hfirst.
    + destruct (first_active_some _ id Hfirst) as (t0 & Ht0 & Hlwp & Hact).
      destruct (active t) eqn:Ha.
      * rewrite (Hone Hnd t t0 Ht Ht0 Ha Hact), Hlwp. apply Z.eqb_refl.
      * apply Z.eqb_neq. intros Heq.
        assert (t = t0).
        { apply (NoDup_map_injective lwp _ (positional_unique _ Hpos) t t0 Ht Ht0).
          congruence. }
        subst t0. congruence.
    + symmetry. now apply (proj1 (first_active_none _) Hfirst).
Qed.

Lemma hardware_active_is_current_witness :
  _hw_active_lwp (fst (discover_threads small_board false fresh_session)) = Some 1
  /\ Forall (fun t => is_hw_active t (fst (discover_threads small_board false fresh_session))
                      = active t)
       (thread_cache (fst (discover_threads small_board false fresh_session))).
Proof.
  split; [reflexivity|]. apply Forall_forall.
  assert (Hpre : ~ precondition_fails small_board fresh_session).
  { intros [H | [[e H] | (kernel & Hk & [[e H] | H])]]; try discriminate.
    - injection Hk as <-. discriminate.
    - injection Hk as <-. discriminate. }
  destruct (hardware_active_is_current small_board false fresh_session Hpre)
    as (_ & _ & _ & Hnodup).
  apply Hnodup. vm_compute.
  repeat (constructor; [cbn; intuition discriminate|]). constructor.
Defined.

(** ** Lists in target memory *)

Lemma loop_test_holds (st : Loop) :
  current_ptr st <> 0 ->
  (List.length (new_thread_list st) < max_threads)%nat ->
  loop_test st = true.
Proof.
  intros Hp Hlen. unfold loop_test.
  apply Z.eqb_neq in Hp. rewrite Hp. cbn [negb andb].
  now apply Nat.ltb_lt.
Qed.

Lemma while_loop_chain (g : Gdb) (current : option Z) (offs : Offsets)
    (a : ArchitectureHandler) (thread_list_head : Z) (rest : list Z) :
  forall p st fuel,
    current_ptr st = p ->
    chain_to_end g thread_list_head p rest ->
    (List.length (new_thread_list st) + S (List.length rest) <= max_threads)%nat ->
    (S (List.length rest) < fuel)%nat ->
    exists final,
      while_loop g current offs a thread_list_head fuel st = Some final
      /\ map thread_ptr (new_thread_list final)
         = map thread_ptr (new_thread_list st) ++ p :: rest.
Proof.
  induction rest as [|q rest IH]; intros p st fuel Hp [Hnz Hlink] Hroom Hfuel;
    (destruct fuel as [|fuel]; [lia|]);
    cbn [while_loop]; unfold loop_iter;
    (rewrite loop_test_holds by (rewrite ?Hp; cbn [List.length] in Hroom; lia || assumption));
    rewrite Hp.
  - destruct Hlink as [Hnull | [[e Hraise] | Hback]].
    + rewrite Hnull.
      destruct (0 =? thread_list_head) eqn:Hzero.
      * eexists. split; [reflexivity|]. cbn [new_thread_list]. now rewrite map_app.
      * destruct fuel as [|fuel]; [cbn [List.length] in Hfuel; lia|].
        cbn [while_loop]. unfold loop_iter, loop_test. cbn [current_ptr Z.eqb negb andb].
        eexists. split; [reflexivity|]. cbn [new_thread_list]. now rewrite map_app.
    + rewrite Hraise. eexists. split; [reflexivity|].
      cbn [new_thread_list]. now rewrite map_app.
    + rewrite Hback, Z.eqb_refl. eexists. split; [reflexivity|].
      cbn [new_thread_list]. now rewrite map_app.
  - destruct Hlink as (Hnext & Hq & Hchain).
    rewrite Hnext.
    replace (q =? thread_list_head) with false by (symmetry; now apply Z.eqb_neq).
    edestruct (IH q) as (final & Hrun & Hptrs);
      [ | exact Hchain | | | exists final; split; [exact Hrun|] ].
    + reflexivity.
    + cbn [new_thread_list]. rewrite length_app. cbn [List.length] in *. lia.
    + cbn [List.length] in Hfuel. lia.
    + rewrite Hptrs. cbn [new_thread_list]. rewrite map_app, <- app_assoc.
      reflexivity.
Qed.

Lemma positional_ids (cache : list ZephyrThread) :
  positional cache -> map lwp cache = ids_up_to (List.length cache).
Proof.
  unfold positional, ids_up_to.
  assert (H : forall (l : list ZephyrThread) (k : nat),
             (forall i t, nth_error l i = Some t -> lwp t = Z.of_nat (k + i) + 1) ->
             map lwp l = map (fun i => Z.of_nat i + 1) (seq k (List.length l))).
  { induction l as [|t l IH]; intros k Hl; [reflexivity|].
    cbn [map List.length seq]. f_equal.
    - rewrite (Hl O t eq_refl). now rewrite Nat.add_0_r.
    - apply IH. intros i t' Hi. rewrite (Hl (S i) t' Hi). f_equal. lia. }
  intros Hpos. apply (H cache O). intros i t Hi. now apply Hpos.
Qed.

(** X8.  When the target's list is a chain of [n <= 100] nodes whose last
    link is null, unreadable or back at the head, a cycle fills the
    registry with exactly these nodes' threads, in list order, with the ids
    1 to [n]. *)
Theorem discover_threads_lists_chain (g : Gdb) (verbose : bool) (s : Session)
    (offs : Offsets) (kernel : Kernel) (head : Z) (rest : list Z) :
  _cached_offsets s = Some offs ->
  parse_and_eval_kernel g = Ok kernel ->
  k_threads kernel = Ok head ->
  chain_to_end g head head rest ->
  (S (List.length rest) <= max_threads)%nat ->
  map thread_ptr (thread_cache (fst (discover_threads g verbose s))) = head :: rest
  /\ map lwp (thread_cache (fst (discover_threads g verbose s)))
     = ids_up_to (S (List.length rest)).
Proof.
  intros Hoffs Hkernel Hthreads Hchain Hroom.
  assert (Hhead : head <> 0) by (destruct rest; apply Hchain).
  destruct (discover_threads_runs g verbose s offs kernel head Hoffs Hkernel Hthreads Hhead)
    as (out & out' & Hrun & _ & _).
  assert (Hptrs : map thread_ptr (thread_cache (fst (discover_threads g verbose s)))
                  = head :: rest).
  { rewrite Hrun. cbn [fst thread_cache].
    destruct (while_loop_chain g (read_current kernel) offs (detect_architecture g) head
                rest head (loop_entry head 1) (S max_threads))
      as (final & Hfinal & Hmap);
      [ reflexivity | exact Hchain
      | cbn [loop_entry new_thread_list List.length]; lia | lia | ].
    destruct (traverse_leaves_loop g (read_current kernel) offs (detect_architecture g)
                head 1) as [Hleft _].
    rewrite Hleft in Hfinal. injection Hfinal as <-. exact Hmap. }
  split; [exact Hptrs|].
  rewrite positional_ids.
  - rewrite <- (length_map thread_ptr), Hptrs. reflexivity.
  - apply completed_cycle_positional.
    intros [H | [[e H] | (kernel' & Hk & [[e H] | H])]]; congruence.
Qed.

Lemma discover_threads_lists_chain_witness :
  map thread_ptr (thread_cache (fst (discover_threads small_board false fresh_session)))
  = [node_A; node_B; node_C]
  /\ map lwp (thread_cache (fst (discover_threads small_board false fresh_session)))
     = [1; 2; 3].
Proof.
  apply (discover_threads_lists_chain small_board false fresh_session Hardcoded
           (kernel_at node_A) node_A [node_B; node_C]).
  - reflexivity.
  - reflexivity.
  - reflexivity.
  - cbn. repeat split; try discriminate. left. reflexivity.
  - unfold max_threads. cbn. lia.
Defined.

Lemma while_loop_fills (g : Gdb) (current : option Z) (offs : Offsets)
    (a : ArchitectureHandler) (thread_list_head : Z) (room : nat) :
  forall p rest st fuel,
    current_ptr st = p ->
    open_chain g thread_list_head p rest ->
    (List.length (new_thread_list st) + room = max_threads)%nat ->
    (room <= List.length rest)%nat ->
    (room < fuel)%nat ->
    exists final,
      while_loop g current offs a thread_list_head fuel st = Some final
      /\ map thread_ptr (new_thread_list final)
         = map thread_ptr (new_thread_list st) ++ firstn room (p :: rest).
Proof.
  induction room as [|room IH]; intros p rest st fuel Hp Hchain Hlen Hrest Hfuel;
    (destruct fuel as [|fuel]; [lia|]); cbn [while_loop]; unfold loop_iter.
  - unfold loop_test.
    replace (Nat.ltb (List.length (new_thread_list st)) max_threads) with false
      by (symmetry; apply Nat.ltb_ge; lia).
    rewrite andb_false_r. eexists. split; [reflexivity|].
    cbn [firstn]. now rewrite app_nil_r.
  - destruct rest as [|q rest]; [cbn [List.length] in Hrest; lia|].
    destruct Hchain as (Hnz & Hnext & Hq & Hchain).
    rewrite loop_test_holds by (rewrite ?Hp; lia || assumption).
    rewrite Hp, Hnext.
    replace (q =? thread_list_head) with false by (symmetry; now apply Z.eqb_neq).
    edestruct (IH q rest) as (final & Hrun & Hptrs);
      [ | exact Hchain | | | | exists final; split; [exact Hrun|] ].
    + reflexivity.
    + cbn [new_thread_list]. rewrite length_app. cbn [List.length]. lia.
    + cbn [List.length] in Hrest. lia.
    + lia.
    + rewrite Hptrs. cbn [new_thread_list firstn]. rewrite map_app, <- app_assoc.
      reflexivity.
Qed.

(** X9.  A list of more than 100 linked nodes is cut at the cap: the
    registry holds the threads of the first 100 nodes and nothing of what
    follows.  No line of the output tells of the cut: the cycle prints what
    [detect_architecture] prints for an unknown architecture, the warning
    for an undetermined current thread, and the announcements. *)
Theorem discover_threads_truncates (g : Gdb) (verbose : bool) (s : Session)
    (offs : Offsets) (kernel : Kernel) (head : Z) (rest : list Z) :
  _cached_offsets s = Some offs ->
  parse_and_eval_kernel g = Ok kernel ->
  k_threads kernel = Ok head ->
  open_chain g head head rest ->
  (max_threads <= List.length rest)%nat ->
  map thread_ptr (thread_cache (fst (discover_threads g verbose s)))
  = firstn max_threads (head :: rest)
  /\ List.length (thread_cache (fst (discover_threads g verbose s))) = max_threads
  /\ snd (discover_threads g verbose s)
     = detect_architecture_output g
       ++ current_warning verbose (read_current kernel)
       ++ announce (thread_cache s) (thread_cache (fst (discover_threads g verbose s))).
Proof.
  intros Hoffs Hkernel Hthreads Hchain Hlong.
  assert (Hhead : head <> 0) by (destruct rest; apply Hchain).
  assert (Hptrs : map thread_ptr
                    (new_thread_list
                       (traverse g (read_current kernel) offs (detect_architecture g)
                          head 1))
                  = firstn max_threads (head :: rest)).
  { destruct (while_loop_fills g (read_current kernel) offs (detect_architecture g) head
                max_threads head rest (loop_entry head 1) (S max_threads))
      as (final & Hfinal & Hmap);
      [ reflexivity | exact Hchain
      | cbn [loop_entry new_thread_list List.length]; lia | exact Hlong | lia | ].
    destruct (traverse_leaves_loop g (read_current kernel) offs (detect_architecture g)
                head 1) as [Hleft _].
    rewrite Hleft in Hfinal. injection Hfinal as <-. exact Hmap. }
  assert (Hlen : List.length
                   (new_thread_list
                      (traverse g (read_current kernel) offs (detect_architecture g)
                         head 1)) = max_threads).
  { rewrite <- (length_map thread_ptr), Hptrs, length_firstn.
    cbn [List.length]. lia. }
  unfold discover_threads.
  cbn [_cached_offsets set_next_lwp set_current_thread_ptr]. rewrite Hoffs, Hkernel.
  cbn [_cached_offsets set_next_lwp set_current_thread_ptr]. rewrite Hthreads.
  apply Z.eqb_neq in Hhead. rewrite Hhead.
  cbn [fst snd next_lwp thread_cache set_next_lwp set_current_thread_ptr
       set_thread_cache set_hw_active_lwp].
  rewrite Hlen. split; [exact Hptrs | split; [reflexivity|]].
  change (Nat.eqb max_threads 0) with false. rewrite andb_false_r.
  cbn [warn]. now rewrite app_nil_r.
Qed.

Lemma endless_chain (n : nat) :
  forall k, open_chain endless_board node_A (node_A + 16 * Z.of_nat (S k))
              (map (fun i => node_A + 16 * Z.of_nat i) (seq (S (S k)) n)).
Proof.
  induction n as [|n IH]; intros k; cbn [seq map open_chain].
  - split; [unfold node_A; lia | exact I].
  - split; [unfold node_A; lia|]. split; [|split].
    + unfold endless_board, make_gdb. cbn [thread_next_thread]. f_equal. lia.
    + unfold node_A. lia.
    + apply IH.
Qed.

Lemma discover_threads_truncates_witness :
  List.length (thread_cache (fst (discover_threads endless_board false fresh_session)))
  = max_threads.
Proof.
  apply (discover_threads_truncates endless_board false fresh_session Hardcoded
           (kernel_at node_A) node_A
           (map (fun i => node_A + 16 * Z.of_nat i) (seq 1 120))).
  - reflexivity.
  - reflexivity.
  - reflexivity.
  - change (seq 1 120) with (1%nat :: seq 2 119). cbn [map open_chain].
    split; [discriminate|]. split; [reflexivity|]. split; [discriminate|].
    apply (endless_chain 119 0).
  - rewrite length_map, length_seq. unfold max_threads. lia.
Defined.

(** ** Announcements *)

Lemma filter_announcement_warn (verbose : bool) (lines : list string) :
  filter is_announcement (warn verbose lines) = [].
Proof.
  unfold warn. destruct verbose; [|reflexivity].
  induction lines as [|line lines IH]; [reflexivity | exact IH].
Qed.

Lemma filter_announcement_arch (g : Gdb) :
  filter is_announcement (detect_architecture_output g) = [].
Proof.
  unfold detect_architecture_output.
  destruct (show_architecture g) as [out|]; [|reflexivity].
  cbv zeta.
  repeat match goal with
         | |- context [if ?b then _ else _] => destruct b
         end; reflexivity.
Qed.

Lemma filter_announcement_current (verbose : bool) (current : option Z) :
  filter is_announcement (current_warning verbose current) = [].
Proof.
  destruct current; [reflexivity | apply filter_announcement_warn].
Qed.

Lemma filter_announcement_announce (old_cache new_thread_list : list ZephyrThread) :
  filter is_announcement (announce old_cache new_thread_list)
  = announce old_cache new_thread_list.
Proof.
  unfold announce.
  induction (filter (fun t => negb (in_thread_set (thread_ptr t) old_cache))
               new_thread_list) as [|t l IH]; [reflexivity|].
  cbn [map filter is_announcement]. now rewrite IH.
Qed.

Lemma announce_from_empty (new_thread_list : list ZephyrThread) :
  announce [] new_thread_list
  = map (fun t => NewThread (name t) (lwp t)) new_thread_list.
Proof.
  unfold announce. f_equal.
  induction new_thread_list as [|t l IH]; [reflexivity|].
  cbn [filter in_thread_set existsb negb]. now f_equal.
Qed.

(** X10.  What a cycle announces is exactly the threads of the new registry
    whose address was not in the registry before, in list order, each with
    its name and id - whether or not the call is verbose, and nothing when
    the cycle aborts.  From an empty registry every thread is announced. *)
Theorem discover_threads_announces_new (g : Gdb) (verbose : bool) (s : Session) :
  filter is_announcement (snd (discover_threads g verbose s))
  = announce (thread_cache s) (thread_cache (fst (discover_threads g verbose s)))
  /\ (thread_cache s = [] ->
      filter is_announcement (snd (discover_threads g verbose s))
      = map (fun t => NewThread (name t) (lwp t))
            (thread_cache (fst (discover_threads g verbose s)))).
Proof.
  assert (Hgen : filter is_announcement (snd (discover_threads g verbose s))
                 = announce (thread_cache s)
                     (thread_cache (fst (discover_threads g verbose s)))).
  { destruct (_cached_offsets s) as [offs|] eqn:Hoffs.
    2:{ enter_cycle Hoffs. cbn [fst snd thread_cache].
        rewrite filter_app, filter_announcement_arch, filter_announcement_warn.
        symmetry. apply announce_nothing_new, incl_refl. }
    destruct (parse_and_eval_kernel g) as [kernel|e] eqn:Hkernel.
    2:{ enter_cycle Hoffs. rewrite Hkernel. cbn [fst snd thread_cache].
        rewrite filter_app, filter_announcement_arch, filter_announcement_warn.
        symmetry. apply announce_nothing_new, incl_refl. }
    destruct (k_threads kernel) as [head|e] eqn:Hthreads.
    2:{ enter_cycle Hoffs. rewrite Hkernel. enter_cycle Hoffs. rewrite Hthreads.
        cbn [fst snd thread_cache].
        rewrite !filter_app, filter_announcement_arch, filter_announcement_warn,
          filter_announcement_current.
        symmetry. apply announce_nothing_new, incl_refl. }
    destruct (Z.eq_dec head 0) as [-> | Hhead].
    { enter_cycle Hoffs. rewrite Hkernel. enter_cycle Hoffs. rewrite Hthreads.
      cbn [Z.eqb fst snd thread_cache].
      rewrite !filter_app, filter_announcement_arch, filter_announcement_warn,
        filter_announcement_current.
      symmetry. apply announce_nothing_new, incl_refl. }
    unfold discover_threads.
    cbn [_cached_offsets set_next_lwp set_current_thread_ptr]. rewrite Hoffs, Hkernel.
    cbn [_cached_offsets set_next_lwp set_current_thread_ptr]. rewrite Hthreads.
    apply Z.eqb_neq in Hhead. rewrite Hhead.
    cbn [fst snd next_lwp thread_cache set_next_lwp set_current_thread_ptr
         set_thread_cache set_hw_active_lwp].
    rewrite !filter_app, filter_announcement_arch, filter_announcement_warn,
      filter_announcement_current, filter_announcement_announce.
    cbn [app]. now rewrite app_nil_r. }
  split; [exact Hgen|].
  intros Hempty. rewrite Hgen, Hempty. apply announce_from_empty.
Qed.

Lemma discover_threads_announces_new_witness :
  filter is_announcement (snd (discover_threads small_board false fresh_session))
  = [NewThread "thread" 1; NewThread "thread" 2; NewThread "thread" 3].
Proof.
  rewrite (proj2 (discover_threads_announces_new small_board false fresh_session) eq_refl).
  reflexivity.
Defined.

(** ** Lookups by id *)

Lemma find_by_id_from (cache : list ZephyrThread) :
  forall (first : Z),
    (forall i t, nth_error cache i = Some t -> lwp t = first + Z.of_nat i) ->
    forall id,
      find (fun t => lwp t =? id) cache
      = if (first <=? id) && (id <? first + Z.of_nat (List.length cache))
        then nth_error cache (Z.to_nat (id - first))
        else None.
Proof.
  induction cache as [|t cache IH]; intros first Hids id.
  - cbn [find List.length]. destruct ((first <=? id) && (id <? first + Z.of_nat 0)) eqn:H;
      [|reflexivity].
    apply andb_true_iff in H. destruct H as [H1 H2].
    apply Z.leb_le in H1. apply Z.ltb_lt in H2. lia.
  - cbn [find]. rewrite (Hids O t eq_refl). rewrite Z.add_0_r.
    destruct (first =? id) eqn:Hhere.
    + apply Z.eqb_eq in Hhere. subst id.
      replace (first <=? first) with true by (symmetry; apply Z.leb_le; lia).
      replace (first <? first + Z.of_nat (List.length (t :: cache))) with true
        by (symmetry; apply Z.ltb_lt; cbn [List.length]; lia).
      now rewrite Z.sub_diag.
    + apply Z.eqb_neq in Hhere.
      rewrite (IH (first + 1)).
      2:{ intros i t' Hi. rewrite (Hids (S i) t' Hi). lia. }
      destruct (Z.leb_spec first id) as [Hle|Hgt].
      * replace (first + 1 <=? id) with true by (symmetry; apply Z.leb_le; lia).
        cbn [andb List.length].
        replace (first + 1 + Z.of_nat (List.length cache))
          with (first + Z.of_nat (S (List.length cache))) by lia.
        destruct (id <? first + Z.of_nat (S (List.length cache))); [|reflexivity].
        replace (Z.to_nat (id - first)) with (S (Z.to_nat (id - (first + 1)))) by lia.
        reflexivity.
      * replace (first + 1 <=? id) with false by (symmetry; apply Z.leb_gt; lia).
        reflexivity.
Qed.

(** X11.  In a registry as a cycle leaves it, [_find_thread] finds the
    thread with id [k] at position [k - 1]; an id below 1 or above the
    number of threads finds nothing. *)
Theorem find_thread_by_position (s : Session) (id : Z) :
  positional (thread_cache s) ->
  _find_thread s id
  = if (1 <=? id) && (id <=? Z.of_nat (List.length (thread_cache s)))
    then nth_error (thread_cache s) (Z.to_nat (id - 1))
    else None.
Proof.
  intros Hpos. unfold _find_thread.
  rewrite (find_by_id_from (thread_cache s) 1).
  - replace (id <? 1 + Z.of_nat (List.length (thread_cache s)))
      with (id <=? Z.of_nat (List.length (thread_cache s))); [reflexivity|].
    destruct (Z.leb_spec id (Z.of_nat (List.length (thread_cache s))));
      symmetry; [apply Z.ltb_lt | apply Z.ltb_ge]; lia.
  - intros i t Hi. rewrite (Hpos i t Hi). lia.
Qed.

Lemma find_thread_by_position_witness :
  _find_thread stopped_session 2 = nth_error (thread_cache stopped_session) 1
  /\ _find_thread stopped_session 4 = None.
Proof.
  assert (Hpos : positional (thread_cache stopped_session)).
  { apply completed_cycle_positional.
    intros [H | [[e H] | (kernel & Hk & [[e H] | H])]]; try discriminate.
    - injection Hk as <-. discriminate.
    - injection Hk as <-. discriminate. }
  split.
  - rewrite (find_thread_by_position stopped_session 2 Hpos). reflexivity.
  - rewrite (find_thread_by_position stopped_session 4 Hpos). reflexivity.
Defined.

(** X12.  [-override-thread-list-ids] on a registry as a cycle leaves it -
    the empty one included, for which it runs a cycle first - lists the ids
    1 to [n] in order, where [n] is the number of threads it reports. *)
Theorem list_ids_are_one_to_n (g : Gdb) (s : Session) :
  positional (thread_cache s) ->
  thread_ids (snd (MIOverrideThreadListIds_invoke g s))
  = ids_up_to (number_of_threads (snd (MIOverrideThreadListIds_invoke g s)))
  /\ (thread_cache s <> [] ->
      MIOverrideThreadListIds_invoke g s
      = (s, [], {| thread_ids := ids_up_to (List.length (thread_cache s));
                   number_of_threads := List.length (thread_cache s);
                   current_thread_id := _get_current_thread_id s |})).
Proof.
  intros Hpos. unfold MIOverrideThreadListIds_invoke, _ensure_thread_cache.
  destruct (thread_cache s) as [|t cache] eqn:Hcache.
  - split; [|congruence].
    pose proof (discover_threads_positional g false s) as Hnew.
    rewrite Hcache in Hnew. specialize (Hnew Hpos).
    destruct (discover_threads g false s) as [s' out].
    cbn [fst snd thread_ids number_of_threads] in *.
    now apply positional_ids.
  - cbn [snd thread_ids number_of_threads]. rewrite Hcache.
    rewrite (positional_ids (t :: cache) Hpos). split; [reflexivity|].
    intros _. reflexivity.
Qed.

Lemma list_ids_are_one_to_n_witness :
  thread_ids (snd (MIOverrideThreadListIds_invoke small_board fresh_session)) = [1; 2; 3].
Proof.
  assert (Hpos : positional (thread_cache fresh_session))
    by (intros [|i] t H; discriminate).
  rewrite (proj1 (list_ids_are_one_to_n small_board fresh_session Hpos)).
  reflexivity.
Defined.

Lemma filter_by_id_from (cache : list ZephyrThread) :
  forall (first : Z),
    (forall i t, nth_error cache i = Some t -> lwp t = first + Z.of_nat i) ->
    forall id,
      filter (fun t => lwp t =? id) cache
      = match find (fun t => lwp t =? id) cache with
        | Some t => [t]
        | None => []
        end.
Proof.
  induction cache as [|t cache IH]; intros first Hids id; [reflexivity|].
  assert (Hrest : forall i t', nth_error cache i = Some t' ->
                               lwp t' = first + 1 + Z.of_nat i).
  { intros i t' Hi. rewrite (Hids (S i) t' Hi). lia. }
  cbn [filter find]. destruct (lwp t =? id) eqn:Hhere.
  - f_equal. rewrite (IH (first + 1) Hrest id).
    rewrite (find_by_id_from cache (first + 1) Hrest id).
    apply Z.eqb_eq in Hhere. rewrite (Hids O t eq_refl) in Hhere.
    replace (first + 1 <=? id) with false by (symmetry; apply Z.leb_gt; lia).
    reflexivity.
  - apply (IH (first + 1) Hrest id).
Qed.

Lemma filter_all {A : Type} (l : list A) : filter (fun _ => true) l = l.
Proof.
  induction l as [|a l IH]; [reflexivity|]. cbn [filter]. now rewrite IH.
Qed.

(** X25.  [-override-thread-info] on a non-empty registry as a cycle
    leaves it prints nothing and leaves the session as it was.  Called with
    an id it returns the dictionary of the one thread with that id, and for
    an id no thread has it returns an empty list, not an error; called
    without arguments it returns one dictionary per thread, in registry
    order.  The current-thread id it reports is the one
    [_get_current_thread_id] gives. *)
Theorem thread_info_lists_by_id (g : Gdb) (py_int : string -> option Z)
    (argv : list string) (live : Regs) (s : Session) :
  positional (thread_cache s) ->
  thread_cache s <> [] ->
  (forall id,
     info_filter_id py_int argv = Done (Some id) ->
     MIOverrideThreadInfo_invoke g py_int argv (live, s)
     = (s, [],
        Done {| threads := match _find_thread s id with
                           | Some t => [thread_dict g live t]
                           | None => []
                           end;
                info_current_thread_id := _get_current_thread_id s |}))
  /\ (info_filter_id py_int argv = Done None ->
      MIOverrideThreadInfo_invoke g py_int argv (live, s)
      = (s, [],
         Done {| threads := map (thread_dict g live) (thread_cache s);
                 info_current_thread_id := _get_current_thread_id s |}))
  /\ fst (MIOverrideThreadInfo_invoke g py_int argv (live, s)) = (s, []).
Proof.
  intros Hpos Hcache.
  assert (Hensure : _ensure_thread_cache g s = (s, [])).
  { unfold _ensure_thread_cache. destruct (thread_cache s); [congruence | reflexivity]. }
  unfold MIOverrideThreadInfo_invoke. rewrite Hensure.
  split; [|split].
  - intros id Hid. rewrite Hid. unfold _find_thread.
    rewrite (filter_by_id_from (thread_cache s) 1).
    + now destruct (find (fun t => lwp t =? id) (thread_cache s)).
    + intros i t Hi. rewrite (Hpos i t Hi). lia.
  - intros Hnone. rewrite Hnone. now rewrite filter_all.
  - now destruct (info_filter_id py_int argv) as [filter_id|e].
Qed.

Lemma thread_info_lists_by_id_witness :
  option_map (fun r => map td_id (threads r))
    match snd (MIOverrideThreadInfo_invoke small_board decimal_int ["2"]
                 (live_regs, stopped_session)) with
    | Done r => Some r
    | Failed _ => None
    end
  = Some [2]
  /\ option_map (fun r => map td_id (threads r))
       match snd (MIOverrideThreadInfo_invoke small_board decimal_int
                    ["--override-thread"; "7"] (live_regs, stopped_session)) with
       | Done r => Some r
       | Failed _ => None
       end
     = Some [].
Proof.
  assert (Hpos : positional (thread_cache stopped_session)).
  { apply completed_cycle_positional.
    intros [H | [[e H] | (kernel & Hk & [[e H] | H])]]; try discriminate.
    - injection Hk as <-. discriminate.
    - injection Hk as <-. discriminate. }
  split.
  - rewrite (proj1 (thread_info_lists_by_id small_board decimal_int ["2"] live_regs
                      stopped_session Hpos ltac:(discriminate)) 2 eq_refl).
    reflexivity.
  - rewrite (proj1 (thread_info_lists_by_id small_board decimal_int
                      ["--override-thread"; "7"] live_regs stopped_session Hpos
                      ltac:(discriminate)) 7 eq_refl).
    reflexivity.
Defined.

(** ** The frame walk *)

Lemma walk_frames_described (ds : list FrameFacts) :
  forall d level low high frames,
    Forall (fun d => _is_valid_code_addr (ff_addr d) = true) (d :: ds) ->
    walk_frames (frame_of d) (chain_of (map frame_of ds) NoFrame) level low high frames
    = (frames ++ filter (fun fd => in_range low high (fd_level fd))
                   (entries_from level (d :: ds)),
       None).
Proof.
  induction ds as [|d' ds IH]; intros d level low high frames Hvalid;
    apply Forall_cons_iff in Hvalid; destruct Hvalid as [Hd Hds];
    cbn [map chain_of].
  - cbn [walk_frames frame_of f_pc f_name f_sal f_arch].
    rewrite Hd. cbn [negb entries_from filter entry_of fd_level].
    unfold frame_entry. cbn [f_name f_sal f_arch bind].
    destruct (in_range low high level); [reflexivity | now rewrite app_nil_r].
  - remember (frame_of d') as f' eqn:Hf'.
    remember (chain_of (map frame_of ds) NoFrame) as older eqn:Holder.
    cbn [walk_frames frame_of f_pc f_name f_sal f_arch].
    rewrite Hd. cbn [negb]. unfold frame_entry. cbn [f_name f_sal f_arch bind].
    subst f' older.
    change (entries_from level (d :: d' :: ds))
      with (entry_of level d :: entries_from (level + 1) (d' :: ds)).
    cbn [filter entry_of fd_level].
    destruct (in_range low high level); cbn [frame_of f_name f_sal f_arch bind];
      rewrite (IH d' (level + 1) low high _ Hds); [|reflexivity].
    now rewrite <- app_assoc.
Qed.

(** The same chain continued by a frame whose [pc()] raises: the walk goes
    on to that frame, whatever the range, and is left by its exception. *)
Lemma walk_frames_described_raising (bad : GdbFrame) (older : FrameChain) (e : exn)
    (ds : list FrameFacts) :
  f_pc bad = Raise e ->
  forall d level low high frames,
    Forall (fun d => _is_valid_code_addr (ff_addr d) = true) (d :: ds) ->
    walk_frames (frame_of d) (chain_of (map frame_of ds) (Frame bad older))
      level low high frames
    = (frames ++ filter (fun fd => in_range low high (fd_level fd))
                   (entries_from level (d :: ds)),
       Some e).
Proof.
  intros Hbad.
  assert (Hraise : forall level low high frames,
             walk_frames bad older level low high frames = (frames, Some e)).
  { intros level low high frames. destruct older; cbn [walk_frames]; now rewrite Hbad. }
  induction ds as [|d' ds IH]; intros d level low high frames Hvalid;
    apply Forall_cons_iff in Hvalid; destruct Hvalid as [Hd Hds];
    cbn [map chain_of].
  - remember bad as f' eqn:Hf'. remember older as older' eqn:Holder.
    cbn [walk_frames frame_of f_pc f_name f_sal f_arch].
    rewrite Hd. cbn [negb entries_from filter entry_of fd_level].
    unfold frame_entry. cbn [f_name f_sal f_arch bind]. subst f' older'.
    destruct (in_range low high level); cbn [frame_of f_name f_sal f_arch bind];
      rewrite Hraise; [reflexivity | now rewrite app_nil_r].
  - remember (frame_of d') as f' eqn:Hf'.
    remember (chain_of (map frame_of ds) (Frame bad older)) as older' eqn:Holder.
    cbn [walk_frames frame_of f_pc f_name f_sal f_arch].
    rewrite Hd. cbn [negb]. unfold frame_entry. cbn [f_name f_sal f_arch bind].
    subst f' older'.
    change (entries_from level (d :: d' :: ds))
      with (entry_of level d :: entries_from (level + 1) (d' :: ds)).
    cbn [filter entry_of fd_level].
    destruct (in_range low high level); cbn [frame_of f_name f_sal f_arch bind];
      rewrite (IH d' (level + 1) low high _ Hds); [|reflexivity].
    now rewrite <- app_assoc.
Qed.

Lemma filter_in_range_all (l : list FrameDict) :
  filter (fun fd => in_range None None (fd_level fd)) l = l.
Proof.
  induction l as [|fd l IH]; [reflexivity|].
  cbn [filter]. change (in_range None None (fd_level fd)) with true.
  cbn iota. now f_equal.
Qed.

(** X13.  For an active thread whose frame chain GDB can describe and whose
    addresses are plausible, [_build_frame_list] leaves the registers alone
    and returns one dictionary per frame of the requested range, innermost
    first, with the frame's position as its level; without a range it
    returns all of them.  A frame above [high] does not end the walk, it is
    only left out: when a frame further out raises on [pc()], the walk
    reaches it wherever [high] stands, and the synthetic frame is appended
    to what was collected. *)
Theorem build_frame_list_describes_chain (g : Gdb) (t : ZephyrThread)
    (ds : list FrameFacts) (tail : FrameChain) (low high : option Z) (live : Regs) :
  active t = true ->
  Forall (fun d => _is_valid_code_addr (ff_addr d) = true) ds ->
  newest_frame g live = chain_of (map frame_of ds) tail ->
  (tail = NoFrame ->
   _build_frame_list g t low high live
   = (live, filter (fun fd => in_range low high (fd_level fd)) (entries_from 0 ds))
   /\ _build_frame_list g t None None live = (live, entries_from 0 ds))
  /\ (forall bad older e,
        tail = Frame bad older ->
        f_pc bad = Raise e ->
        _build_frame_list g t low high live
        = (live,
           filter (fun fd => in_range low high (fd_level fd)) (entries_from 0 ds)
           ++ [_build_frame_dict g live t false])).
Proof.
  intros Hactive Hvalid Hchain. unfold _build_frame_list. rewrite Hactive, Hchain.
  split.
  - intros ->.
    assert (H : forall l h,
               walk (chain_of (map frame_of ds) NoFrame) l h
               = (filter (fun fd => in_range l h (fd_level fd)) (entries_from 0 ds),
                  None)).
    { intros l h. destruct ds as [|d ds]; [reflexivity|].
      cbn [map chain_of walk].
      now rewrite (walk_frames_described ds d 0 l h [] Hvalid). }
    rewrite !H. now rewrite filter_in_range_all.
  - intros bad older e -> Hbad.
    assert (H : walk (chain_of (map frame_of ds) (Frame bad older)) low high
                = (filter (fun fd => in_range low high (fd_level fd))
                     (entries_from 0 ds),
                   Some e)).
    { destruct ds as [|d ds]; cbn [map chain_of walk].
      - destruct older; cbn [walk_frames]; now rewrite Hbad.
      - now rewrite (walk_frames_described_raising bad older e ds Hbad d 0 low high []
                       Hvalid). }
    now rewrite H.
Qed.

Lemma build_frame_list_describes_chain_witness :
  map fd_level (snd (_build_frame_list described_board thread_A (Some 1) (Some 1)
                       live_regs))
  = [1]
  /\ map fd_level (snd (_build_frame_list raising_board thread_A (Some 0) (Some 0)
                          live_regs))
     = [0; 0].
Proof.
  split.
  - rewrite (proj1 (proj1 (build_frame_list_describes_chain described_board thread_A
                             three_facts NoFrame (Some 1) (Some 1) live_regs
                             eq_refl ltac:(repeat constructor) eq_refl) eq_refl)).
    reflexivity.
  - rewrite (proj2 (build_frame_list_describes_chain raising_board thread_A
                      (firstn 2 three_facts) (Frame raising_frame NoFrame)
                      (Some 0) (Some 0) live_regs
                      eq_refl ltac:(repeat constructor) eq_refl)
               raising_frame NoFrame OtherException eq_refl eq_refl).
    reflexivity.
Defined.

Lemma levels_up_to_succ (k : nat) :
  levels_up_to (S k) = levels_up_to k ++ [Z.of_nat k].
Proof.
  unfold levels_up_to. rewrite seq_S, map_app. reflexivity.
Qed.

Lemma walk_frames_levels (older : FrameChain) :
  forall f (n : nat) low high frames,
    map fd_level frames = filter (in_range low high) (levels_up_to n) ->
    exists k,
      (n <= k <= n + S (chain_length older))%nat
      /\ map fd_level (fst (walk_frames f older (Z.of_nat n) low high frames))
         = filter (in_range low high) (levels_up_to k).
Proof.
  induction older as [|e|f' older' IH]; intros f n low high frames Hframes;
    cbn [walk_frames chain_length];
    (destruct (f_pc f) as [addr|e0]; [|exists n; split; [lia | exact Hframes]]);
    (destruct (negb (_is_valid_code_addr addr)); [exists n; split; [lia | exact Hframes]|]);
    (assert (Hstep : forall frames',
               (if in_range low high (Z.of_nat n)
                then fd <- frame_entry (Z.of_nat n) addr f ;; Ok (frames ++ [fd])
                else Ok frames) = Ok frames' ->
               map fd_level frames' = filter (in_range low high) (levels_up_to (S n)));
     [ intros frames'; rewrite levels_up_to_succ, filter_app; cbn [filter];
       destruct (in_range low high (Z.of_nat n));
       [ unfold frame_entry;
         destruct (f_name f) as [nm|]; cbn [bind]; [|discriminate];
         destruct (f_sal f) as [sal|]; cbn [bind]; [|discriminate];
         intros H; injection H as <-;
         rewrite map_app, Hframes; reflexivity
       | intros H; injection H as <-; now rewrite app_nil_r ]
     | ]);
    (destruct (if in_range low high (Z.of_nat n)
               then fd <- frame_entry (Z.of_nat n) addr f ;; Ok (frames ++ [fd])
               else Ok frames) as [frames'|e1];
     [|exists n; split; [lia | exact Hframes]]);
    specialize (Hstep frames' eq_refl).
  - exists (S n). split; [lia | exact Hstep].
  - exists (S n). split; [lia|]. destruct e; exact Hstep.
  - replace (Z.of_nat n + 1) with (Z.of_nat (S n)) by lia.
    destruct (IH f' (S n) low high frames' Hstep) as (k & Hk & Hlevels).
    exists k. split; [lia | exact Hlevels].
Qed.

(** Whatever the frame chain does - end, raise, or show an implausible
    address - the levels of the frames of a walk are the levels of the
    range among 0, 1, ..., k - 1, for some [k] not above the length of the
    chain. *)
Lemma walk_levels (chain : FrameChain) (low high : option Z) :
  exists k,
    (k <= chain_length chain)%nat
    /\ map fd_level (fst (walk chain low high))
       = filter (in_range low high) (levels_up_to k).
Proof.
  destruct chain as [|e|f older]; cbn [walk chain_length].
  - exists O. now split.
  - exists O. now split.
  - destruct (walk_frames_levels older f O low high [] eq_refl) as (k & Hk & Hlevels).
    exists k. split; [lia | exact Hlevels].
Qed.

Lemma build_frame_dict_level (g : Gdb) (live : Regs) (thread : ZephyrThread)
    (include_args : bool) :
  fd_level (_build_frame_dict g live thread include_args) = 0.
Proof.
  unfold _build_frame_dict. destruct (active thread).
  - destruct (newest_frame g live) as [|e|gdb_frame older]; try reflexivity.
    destruct (f_pc gdb_frame) as [addr|]; [|reflexivity].
    destruct (f_name gdb_frame) as [n|]; [|reflexivity].
    destruct (f_sal gdb_frame); reflexivity.
  - destruct (callee_saved thread); reflexivity.
Qed.

(** X14.  The levels of the frames [_build_frame_list] returns are the
    levels of the requested range among 0, 1, ..., k - 1 for some [k], in
    order and without a gap inside the range, followed or not by the level
    0 of the synthetic frame.  For a suspended thread the synthetic frame
    is appended only when the range starts at level 0 or is absent; for an
    active thread it is appended exactly when the walk was left by an
    exception, whatever the range - so the list can end with a level 0 that
    is outside the range, or hold level 0 twice. *)
Theorem build_frame_list_levels (g : Gdb) (t : ZephyrThread) (low high : option Z)
    (live : Regs) :
  exists k synthetic,
    map fd_level (snd (_build_frame_list g t low high live))
    = filter (in_range low high) (levels_up_to k) ++ synthetic
    /\ (synthetic = [] \/ synthetic = [0])
    /\ (active t = false -> synthetic = [0] -> wants_level0 low = true)
    /\ (active t = true ->
        (synthetic = [0] <-> snd (walk (newest_frame g live) low high) <> None)).
Proof.
  unfold _build_frame_list. destruct (active t).
  - destruct (walk_levels (newest_frame g live) low high) as (k & _ & Hlevels).
    destruct (walk (newest_frame g live) low high) as [frames [e|]];
      cbn [fst snd] in *; exists k.
    + exists [0]. rewrite map_app, Hlevels. cbn [map].
      rewrite build_frame_dict_level.
      split; [reflexivity|]. split; [now right|]. split; [discriminate|].
      intros _. split; [discriminate | reflexivity].
    + exists []. rewrite app_nil_r.
      split; [exact Hlevels|]. split; [now left|]. split; [discriminate|].
      intros _. split; [discriminate | intros H; now elim H].
  - assert (H : exists k,
               map fd_level (snd (fst (unwind_suspended g t low high live)))
               = filter (in_range low high) (levels_up_to k)).
    { unfold unwind_suspended.
      destruct (callee_saved t) as [cs|]; [|now exists O].
      destruct (negb (get_thread_pc (arch t) g cs =? 0)
                && negb (get_thread_sp (arch t) cs =? 0)); [|now exists O].
      destruct (capture g live) as [orig|]; [|now exists O].
      destruct (set_reg g SP (get_thread_sp (arch t) cs) live) as [live1|];
        [|now exists O].
      destruct (set_reg g PC (get_thread_pc (arch t) g cs) live1) as [live2|];
        [|now exists O].
      destruct (walk_levels (newest_frame g live2) low high) as (k & _ & Hlevels).
      exists k.
      now destruct (walk (newest_frame g live2) low high) as [frames raised]. }
    destruct H as [k H]. exists k.
    destruct (unwind_suspended g t low high live) as [[live' frames] unwound].
    cbn [fst snd] in H.
    destruct (negb unwound && wants_level0 low) eqn:Hfallback; cbn [fst snd].
    + exists [0]. rewrite map_app, H. cbn [map]. rewrite build_frame_dict_level.
      apply andb_true_iff in Hfallback. destruct Hfallback as [_ Hlow].
      split; [reflexivity|]. split; [now right|]. split; [|discriminate].
      intros _ _. exact Hlow.
    + exists []. rewrite app_nil_r.
      split; [exact H|]. split; [now left|]. split; discriminate.
Qed.

Lemma build_frame_list_levels_witness :
  map fd_level (snd (_build_frame_list raising_board thread_A (Some 1) (Some 3)
                       live_regs))
  = [1; 0]
  /\ exists k,
       map fd_level (snd (_build_frame_list raising_board thread_A (Some 1) (Some 3)
                            live_regs))
       = filter (in_range (Some 1) (Some 3)) (levels_up_to k) ++ [0].
Proof.
  split; [reflexivity|].
  destruct (build_frame_list_levels raising_board thread_A (Some 1) (Some 3) live_regs)
    as (k & synthetic & Hlevels & _ & _ & Hactive).
  exists k. rewrite Hlevels. f_equal.
  apply (Hactive eq_refl). discriminate.
Defined.

(** ** The adapted offset table *)

Lemma dict_get_absent (d : OffsetDict) (key : string) :
  ~ In key (map fst d) -> dict_get d key = None.
Proof.
  induction d as [|[k v] d IH]; intros Hnotin; [reflexivity|].
  cbn [dict_get]. destruct (String.eqb key k) eqn:Hk.
  - apply String.eqb_eq in Hk. exfalso. apply Hnotin. left. now symmetry.
  - apply IH. intros Hin. apply Hnotin. now right.
Qed.

Lemma dict_get_nth (d : OffsetDict) :
  NoDup (map fst d) ->
  forall k, (k < List.length d)%nat ->
            dict_get d (nth k (map fst d) "") = Some (nth k (map snd d) 0).
Proof.
  induction d as [|[key v] d IH]; intros Hnd k Hk; [cbn in Hk; lia|].
  cbn [map fst] in Hnd. apply NoDup_cons_iff in Hnd. destruct Hnd as [Hkey Hnd].
  destruct k as [|k]; cbn [map fst snd nth dict_get].
  - now rewrite String.eqb_refl.
  - destruct (String.eqb (nth k (map fst d) "") key) eqn:Hsame.
    + apply String.eqb_eq in Hsame. exfalso. apply Hkey. rewrite <- Hsame.
      apply nth_In. rewrite length_map. cbn [List.length] in Hk. lia.
    + apply IH; [exact Hnd | cbn [List.length] in Hk; lia].
Qed.

Lemma OFFSET_FIELDS_NoDup : NoDup OFFSET_FIELDS.
Proof.
  unfold OFFSET_FIELDS.
  repeat (constructor; [cbn [In]; intuition discriminate|]). constructor.
Qed.

Lemma dict_get_field (s : Symbol) (d : OffsetDict) (n k : nat) :
  map fst d = firstn n OFFSET_FIELDS ->
  List.length d = n ->
  (forall i, (i < n)%nat -> sym_index s i = Ok (nth i (map snd d) 0)) ->
  (k < 13)%nat ->
  (dict_get d (nth k OFFSET_FIELDS "") = None /\ (n <= k)%nat)
  \/ (exists v, dict_get d (nth k OFFSET_FIELDS "") = Some v
                /\ sym_index s k = Ok v /\ (k < n)%nat).
Proof.
  intros Hkeys Hlen Hvals Hk.
  assert (Hnd : NoDup (map fst d))
    by (rewrite Hkeys; apply (NoDup_app_remove_r _ (skipn n OFFSET_FIELDS));
        rewrite firstn_skipn; apply OFFSET_FIELDS_NoDup).
  destruct (Nat.lt_ge_cases k n) as [Hin | Hout].
  - right. exists (nth k (map snd d) 0).
    pose proof (dict_get_nth d Hnd k ltac:(lia)) as Hget.
    rewrite Hkeys, nth_firstn in Hget.
    replace (k <? n)%nat with true in Hget by (symmetry; apply Nat.ltb_lt; lia).
    repeat split; [exact Hget | now apply Hvals | exact Hin].
  - left. split; [|exact Hout]. apply dict_get_absent. rewrite Hkeys.
    intros Habs. apply (In_nth _ _ "") in Habs. destruct Habs as (j & Hj & Hnth).
    rewrite length_firstn in Hj. rewrite nth_firstn in Hnth.
    replace (j <? n)%nat with true in Hnth by (symmetry; apply Nat.ltb_lt; lia).
    assert (j = k).
    { apply (proj1 (NoDup_nth OFFSET_FIELDS "") OFFSET_FIELDS_NoDup);
        [change (List.length OFFSET_FIELDS) with 13%nat in *; lia
        | change (List.length OFFSET_FIELDS) with 13%nat; lia | exact Hnth]. }
    lia.
Qed.

Lemma dict_get_default_field (s : Symbol) (d : OffsetDict) (n k : nat) :
  map fst d = firstn n OFFSET_FIELDS ->
  List.length d = n ->
  (forall i, (i < n)%nat -> sym_index s i = Ok (nth i (map snd d) 0)) ->
  (k < 13)%nat ->
  table_field s n k (dict_get_default d (nth k OFFSET_FIELDS "")).
Proof.
  intros Hkeys Hlen Hvals Hk. unfold table_field, dict_get_default.
  destruct (dict_get_field s d n k Hkeys Hlen Hvals Hk)
    as [[Hget Hout] | (v & Hget & Hv & Hin)]; rewrite Hget.
  - now replace (k <? n)%nat with false by (symmetry; apply Nat.ltb_ge; lia).
  - now replace (k <? n)%nat with true by (symmetry; apply Nat.ltb_lt; lia).
Qed.

(** X15.  A table [get_kernel_offsets] adapts from the exported symbol takes
    each of its fields from the entry at the field's fixed index - version
    0, current thread 1, thread list 2, entry 3, next thread 4, state 5,
    priority 7, stack pointer 8, name 9 - and silently uses offset 0 for a
    field whose index is not below the declared count. *)
Theorem adapted_offsets_follow_table (g : Gdb) (mode : string) (o : SymbolOffsets) :
  snd (get_kernel_offsets g mode) = Ok (Some (Adapted o)) ->
  exists offsets_symbol num_symbol n version_entry,
    lookup_symbol g "_kernel_thread_info_offsets" = Ok (Some offsets_symbol)
    /\ lookup_symbol g "_kernel_thread_info_num_offsets" = Ok num_symbol
    /\ n = Z.to_nat (Z.min (declared_count num_symbol) 13)
    /\ version o = Some version_entry
    /\ sym_index offsets_symbol 0 = Ok version_entry
    /\ table_field offsets_symbol n 1 (kernel_current o)
    /\ table_field offsets_symbol n 2 (kernel_threads o)
    /\ table_field offsets_symbol n 3 (thread_entry o)
    /\ table_field offsets_symbol n 4 (thread_next_thread_off o)
    /\ table_field offsets_symbol n 5 (thread_state_off o)
    /\ table_field offsets_symbol n 7 (thread_prio_off o)
    /\ table_field offsets_symbol n 8 (thread_stack_pointer o)
    /\ table_field offsets_symbol n 9 (thread_name_off o).
Proof.
  unfold get_kernel_offsets.
  destruct (String.eqb mode "hardcoded"); [discriminate|].
  destruct (discover_offsets_from_symbols g) as [lookups discovered] eqn:Hdisc.
  cbn [snd].
  destruct discovered as [[[|entry more]|]|e]; cbn [bind];
    try (destruct (String.eqb mode "symbols"); discriminate); try discriminate.
  intros H. injection H as <-.
  assert (Hd : snd (discover_offsets_from_symbols g) = Ok (Some (entry :: more)))
    by now rewrite Hdisc.
  destruct (discover_success g _ Hd) as (offsets_symbol & num_symbol & Ho & Hn & Hread).
  destruct (read_offsets_ok _ _ _ _ _ Hread) as [Hkeys Hvals].
  rewrite Z.sub_0_r in Hkeys.
  set (d := entry :: more) in *.
  set (n := Z.to_nat (Z.min (declared_count num_symbol) 13)).
  assert (Hkeys' : map fst d = firstn n OFFSET_FIELDS).
  { rewrite Hkeys, (firstn_min_length _ OFFSET_FIELDS). f_equal.
    change (List.length OFFSET_FIELDS) with 13%nat. unfold n. lia. }
  assert (Hlen : List.length d = n).
  { rewrite <- (length_map fst d), Hkeys', length_firstn.
    change (List.length OFFSET_FIELDS) with 13%nat. unfold n. lia. }
  assert (Hvals' : forall i, (i < n)%nat ->
                             sym_index offsets_symbol i = Ok (nth i (map snd d) 0))
    by (intros i Hi; apply (Hvals i); lia).
  assert (Hpos : (0 < n)%nat) by (rewrite <- Hlen; cbn [d List.length]; lia).
  destruct (dict_get_field offsets_symbol d n 0 Hkeys' Hlen Hvals' ltac:(lia))
    as [[_ Hout] | (v & Hget & Hv & _)]; [lia|].
  exists offsets_symbol, num_symbol, n, v.
  cbn [adapt_offsets_to_structure version kernel_current kernel_threads thread_entry
       thread_next_thread_off thread_state_off thread_prio_off thread_stack_pointer
       thread_name_off].
  repeat split; try assumption;
    match goal with
    | |- table_field _ _ ?k _ =>
        apply (dict_get_default_field offsets_symbol d n k Hkeys' Hlen Hvals'); lia
    end.
Qed.

Lemma adapted_offsets_follow_table_witness :
  exists o,
    snd (get_kernel_offsets (board_symbols (Some table_symbol) (Some (count_symbol 3)))
           "auto") = Ok (Some (Adapted o))
    /\ kernel_threads o = 8
    /\ thread_next_thread_off o = 0.
Proof.
  eexists. split; [reflexivity|].
  destruct (adapted_offsets_follow_table
              (board_symbols (Some table_symbol) (Some (count_symbol 3))) "auto" _ eq_refl)
    as (os & ns & n & v & Ho & Hn & Hcount & _).
  split; reflexivity.
Defined.

(** ** Command arguments *)

Lemma parse_override_loop_plain (py_int : string -> option Z) (argv : list string) :
  ~ In "--override-thread" argv ->
  forall thread_id remaining,
    parse_override_loop py_int argv thread_id remaining
    = Done (thread_id, remaining ++ argv).
Proof.
  induction argv as [|arg after IH]; intros Hplain thread_id remaining.
  - cbn [parse_override_loop]. now rewrite app_nil_r.
  - cbn [parse_override_loop]. destruct after as [|value rest]; [reflexivity|].
    replace (String.eqb arg "--override-thread") with false
      by (symmetry; apply String.eqb_neq; intros ->; apply Hplain; now left).
    rewrite IH by (intros Hin; apply Hplain; now right).
    now rewrite <- app_assoc.
Qed.

Lemma parse_override_loop_skip (py_int : string -> option Z) (pre : list string) :
  ~ In "--override-thread" pre ->
  forall arg after thread_id remaining,
    parse_override_loop py_int (pre ++ arg :: after) thread_id remaining
    = parse_override_loop py_int (arg :: after) thread_id (remaining ++ pre).
Proof.
  induction pre as [|first pre IH]; intros Hplain arg after thread_id remaining.
  - now rewrite app_nil_r.
  - cbn [app]. cbn [parse_override_loop].
    destruct (pre ++ arg :: after) as [|value rest] eqn:Hshape;
      [destruct pre; discriminate|].
    replace (String.eqb first "--override-thread") with false
      by (symmetry; apply String.eqb_neq; intros ->; apply Hplain; now left).
    rewrite <- Hshape, IH by (intros Hin; apply Hplain; now right).
    now rewrite <- app_assoc.
Qed.

(** X16.  [_parse_override_thread_argv] returns an argument list without
    the option unchanged and with no id; it takes [--override-thread <id>]
    out of the list wherever the pair stands, leaving the other arguments
    in order; of two such pairs the later id is the one returned. *)
Theorem parse_override_removes_option (py_int : string -> option Z)
    (pre mid post : list string) (v1 v2 : string) (id1 id2 : Z) :
  ~ In "--override-thread" pre ->
  ~ In "--override-thread" mid ->
  ~ In "--override-thread" post ->
  py_int v1 = Some id1 ->
  py_int v2 = Some id2 ->
  _parse_override_thread_argv py_int pre = Done (None, pre)
  /\ _parse_override_thread_argv py_int (pre ++ "--override-thread" :: v1 :: post)
     = Done (Some id1, pre ++ post)
  /\ _parse_override_thread_argv py_int
       (pre ++ "--override-thread" :: v1 :: mid ++ "--override-thread" :: v2 :: post)
     = Done (Some id2, pre ++ mid ++ post).
Proof.
  intros Hpre Hmid Hpost H1 H2. unfold _parse_override_thread_argv.
  split; [|split].
  - now rewrite parse_override_loop_plain.
  - rewrite parse_override_loop_skip by exact Hpre.
    cbn [parse_override_loop String.eqb Ascii.eqb Bool.eqb]. rewrite H1.
    now rewrite parse_override_loop_plain.
  - rewrite parse_override_loop_skip by exact Hpre.
    cbn [parse_override_loop String.eqb Ascii.eqb Bool.eqb]. rewrite H1.
    rewrite parse_override_loop_skip by exact Hmid.
    cbn [parse_override_loop String.eqb Ascii.eqb Bool.eqb]. rewrite H2.
    rewrite parse_override_loop_plain by exact Hpost.
    now rewrite <- app_assoc.
Qed.

Lemma parse_override_removes_option_witness :
  _parse_override_thread_argv decimal_int ["0"; "--override-thread"; "3"; "19"]
  = Done (Some 3, ["0"; "19"]).
Proof.
  apply (proj1 (proj2 (parse_override_removes_option decimal_int ["0"] [] ["19"]
                         "3" "3" 3 3
                         ltac:(cbn; intuition discriminate)
                         ltac:(cbn; intuition)
                         ltac:(cbn; intuition discriminate)
                         eq_refl eq_refl))).
Defined.

(** X17.  The option needs its value: an [--override-thread] that is the
    last argument is not an option but stays in the list as a positional
    argument, and a value that is not a number makes the parse fail with
    that value in the message, whatever follows. *)
Theorem parse_override_edges (py_int : string -> option Z)
    (pre post : list string) (v : string) :
  ~ In "--override-thread" pre ->
  _parse_override_thread_argv py_int (pre ++ ["--override-thread"])
  = Done (None, pre ++ ["--override-thread"])
  /\ (py_int v = None ->
      _parse_override_thread_argv py_int (pre ++ "--override-thread" :: v :: post)
      = Failed (InvalidThreadId v)).
Proof.
  intros Hpre. unfold _parse_override_thread_argv. split.
  - now rewrite parse_override_loop_skip by exact Hpre.
  - intros Hv. rewrite parse_override_loop_skip by exact Hpre.
    cbn [parse_override_loop String.eqb Ascii.eqb Bool.eqb]. now rewrite Hv.
Qed.

Lemma parse_override_edges_witness :
  _parse_override_thread_argv decimal_int ["0"; "19"; "--override-thread"]
  = Done (None, ["0"; "19"; "--override-thread"])
  /\ _parse_override_thread_argv decimal_int ["--override-thread"; "main"; "0"; "19"]
     = Failed (InvalidThreadId "main").
Proof.
  split.
  - apply (proj1 (parse_override_edges decimal_int ["0"; "19"] [] "main"
                    ltac:(cbn; intuition discriminate))).
  - apply (proj2 (parse_override_edges decimal_int [] ["0"; "19"] "main"
                    ltac:(cbn; intuition)) eq_refl).
Defined.

(** ** The console command [thread] *)

Lemma with_active_same (t : ZephyrThread) : with_active (active t) t = t.
Proof. now destruct t. Qed.

Lemma thread_command_loop_flags (target_lwp : Z) (cache : list ZephyrThread) :
  fst (thread_command_loop target_lwp cache)
  = map (fun t => with_active (lwp t =? target_lwp) t) cache.
Proof.
  induction cache as [|t cache IH]; [reflexivity|].
  cbn [thread_command_loop map].
  destruct (thread_command_loop target_lwp cache) as [rest printed].
  cbn [fst] in IH. subst rest.
  destruct (lwp t =? target_lwp); [reflexivity|].
  destruct (active t) eqn:Ha; cbn [fst]; [reflexivity|].
  now rewrite <- Ha, with_active_same.
Qed.

(** X18.  [thread <id>] sets [active] on the threads with that id and
    clears it on every other thread, and touches nothing else of the
    session - neither the hardware-active id nor the register snapshot.
    For an id no thread has, that clears the flag of every thread: the
    command reports the id as not known and leaves no current thread. *)
Theorem thread_command_sets_flags (py_int : string -> option Z) (arg : string)
    (s : Session) (id : Z) :
  arg <> "" ->
  py_int arg = Some id ->
  fst (CommandThread_invoke py_int arg s)
  = set_thread_cache
      (map (fun t => with_active (lwp t =? id) t) (thread_cache s)) s
  /\ ((forall t, In t (thread_cache s) -> lwp t <> id) ->
      (forall t, In t (thread_cache (fst (CommandThread_invoke py_int arg s))) ->
                 active t = false)
      /\ snd (CommandThread_invoke py_int arg s) = [ThreadIDNotKnown id]
      /\ snd (CommandThread_invoke py_int "" (fst (CommandThread_invoke py_int arg s)))
         = [NoCurrentThread]).
Proof.
  intros Harg Hid.
  assert (Hstate : fst (CommandThread_invoke py_int arg s)
                   = set_thread_cache
                       (map (fun t => with_active (lwp t =? id) t) (thread_cache s)) s).
  { unfold CommandThread_invoke. destruct arg as [|c arg]; [congruence|].
    rewrite Hid.
    pose proof (thread_command_loop_flags id (thread_cache s)) as Hflags.
    destruct (thread_command_loop id (thread_cache s)) as [cache printed].
    cbn [fst] in *. now subst cache. }
  split; [exact Hstate|].
  intros Hunknown.
  assert (Hoff : forall t,
             In t (map (fun t => with_active (lwp t =? id) t) (thread_cache s)) ->
             active t = false).
  { intros t Ht. apply in_map_iff in Ht. destruct Ht as (t0 & <- & Ht0).
    cbn [with_active active]. apply Z.eqb_neq. now apply Hunknown. }
  split; [|split].
  - rewrite Hstate. exact Hoff.
  - unfold CommandThread_invoke. destruct arg as [|c arg]; [congruence|].
    rewrite Hid.
    assert (Hnone : existsb (fun t => lwp t =? id) (thread_cache s) = false).
    { destruct (existsb (fun t => lwp t =? id) (thread_cache s)) eqn:Hex; [|reflexivity].
      apply existsb_exists in Hex. destruct Hex as (t & Ht & Heq).
      apply Z.eqb_eq in Heq. now apply Hunknown in Ht. }
    rewrite Hnone.
    assert (Hprinted : snd (thread_command_loop id (thread_cache s)) = []).
    { clear -Hunknown. induction (thread_cache s) as [|t cache IH]; [reflexivity|].
      cbn [thread_command_loop].
      destruct (thread_command_loop id cache) as [rest printed].
      cbn [snd] in IH. rewrite IH by (intros t' Ht'; apply Hunknown; now right).
      replace (lwp t =? id) with false
        by (symmetry; apply Z.eqb_neq, Hunknown; now left).
      now destruct (active t). }
    destruct (thread_command_loop id (thread_cache s)) as [cache printed].
    cbn [snd] in *. now subst printed.
  - rewrite Hstate. unfold CommandThread_invoke. cbn [thread_cache set_thread_cache].
    destruct (find active (map (fun t => with_active (lwp t =? id) t) (thread_cache s)))
      as [t|] eqn:Hfind; [|reflexivity].
    apply find_some in Hfind. destruct Hfind as [Ht Hact].
    rewrite (Hoff t Ht) in Hact. discriminate.
Qed.

Lemma thread_command_sets_flags_witness :
  snd (CommandThread_invoke decimal_int "9" stopped_session) = [ThreadIDNotKnown 9]
  /\ snd (CommandThread_invoke decimal_int ""
            (fst (CommandThread_invoke decimal_int "9" stopped_session)))
     = [NoCurrentThread]
  /\ snd (CommandThread_invoke decimal_int "" stopped_session)
     = [CurrentThreadIs 1 "thread"].
Proof.
  destruct (thread_command_sets_flags decimal_int "9" stopped_session 9
              ltac:(discriminate) eq_refl) as [_ Hunknown].
  destruct Hunknown as (_ & Hmsg & Hafter).
  - intros t Ht. vm_compute in Ht.
    destruct Ht as [<- | [<- | [<- | []]]]; discriminate.
  - split; [exact Hmsg | split; [exact Hafter | reflexivity]].
Defined.

(** ** The MI commands *)

Lemma scan_select_target (target_lwp : Z) (cache : list ZephyrThread) :
  forall i target_thread prev_active,
    match fst (scan_select target_lwp cache i target_thread prev_active) with
    | Some (j, t) =>
        target_thread = Some (j, t) \/ (In t cache /\ lwp t = target_lwp)
    | None =>
        target_thread = None /\ forall t, In t cache -> lwp t <> target_lwp
    end.
Proof.
  induction cache as [|t cache IH]; intros i target_thread prev_active.
  - cbn [scan_select fst]. destruct target_thread as [[j t]|]; [now left | now split].
  - cbn [scan_select].
    destruct (lwp t =? target_lwp) eqn:Hid.
    + apply Z.eqb_eq in Hid.
      specialize (IH (S i) (Some (i, t)) prev_active).
      destruct (fst (scan_select target_lwp cache (S i) (Some (i, t)) prev_active))
        as [[j t']|].
      * right. destruct IH as [H | [Hin Hlwp]].
        -- injection H as _ <-. split; [now left | exact Hid].
        -- split; [now right | exact Hlwp].
      * destruct IH as [H _]. discriminate.
    + apply Z.eqb_neq in Hid.
      assert (Hboth : forall prev,
                 match fst (scan_select target_lwp cache (S i) target_thread prev) with
                 | Some (j, t0) =>
                     target_thread = Some (j, t0)
                     \/ (In t0 (t :: cache) /\ lwp t0 = target_lwp)
                 | None =>
                     target_thread = None
                     /\ forall t0, In t0 (t :: cache) -> lwp t0 <> target_lwp
                 end).
      { intros prev. specialize (IH (S i) target_thread prev).
        destruct (fst (scan_select target_lwp cache (S i) target_thread prev))
          as [[j t']|].
        - destruct IH as [H | [Hin Hlwp]]; [now left | right].
          split; [now right | exact Hlwp].
        - destruct IH as [Hnone Hall]. split; [exact Hnone|].
          intros t0 [<- | Hin]; [exact Hid | now apply Hall]. }
      destruct (active t); apply Hboth.
Qed.

Lemma set_active_at_same_threads (i : nat) (b : bool) (cache : list ZephyrThread) :
  map lwp (set_active_at i b cache) = map lwp cache
  /\ map thread_ptr (set_active_at i b cache) = map thread_ptr cache.
Proof.
  revert i. induction cache as [|t cache IH]; intros i; [now destruct i|].
  destruct i as [|i]; cbn [set_active_at map]; [now split|].
  destruct (IH i) as [H1 H2]. now rewrite H1, H2.
Qed.

Lemma switch_keeps_session (g : Gdb) (t : ZephyrThread) (live : Regs) (s : Session) :
  snd (_switch_thread_context g t (live, s))
  = set_real_cpu_regs (_real_cpu_regs (snd (_switch_thread_context g t (live, s)))) s.
Proof.
  unfold _switch_thread_context.
  destruct (is_hw_active t s).
  - destruct (_real_cpu_regs s); cbn [snd];
      [reflexivity | now rewrite set_real_cpu_regs_same].
  - destruct (callee_saved t) as [cs|];
      [|cbn [snd]; now rewrite set_real_cpu_regs_same].
    destruct (negb (get_thread_pc (arch t) g cs =? 0)
              && negb (get_thread_sp (arch t) cs =? 0));
      [|cbn [snd]; now rewrite set_real_cpu_regs_same].
    destruct (_real_cpu_regs s).
    + cbn [snd]. now rewrite set_real_cpu_regs_same.
    + destruct (capture g live); cbn [snd];
        [reflexivity | now rewrite set_real_cpu_regs_same].
Qed.

(** What a call of [-override-thread-select] with target id [k] does to a
    session with a non-empty registry: it fails and changes nothing, or it
    switches to a thread with that id after changing flags only. *)
Lemma select_effect (g : Gdb) (py_int : string -> option Z) (argv : list string)
    (live : Regs) (s : Session) (k : Z) :
  select_target_lwp py_int argv = Done k ->
  thread_cache s <> [] ->
  (MIOverrideThreadSelect_invoke g py_int argv (live, s)
   = ((live, s), [], Failed (ThreadIdNotKnown k))
   /\ forall t, In t (thread_cache s) -> lwp t <> k)
  \/ (exists t cache,
        lwp t = k
        /\ map lwp cache = map lwp (thread_cache s)
        /\ map thread_ptr cache = map thread_ptr (thread_cache s)
        /\ MIOverrideThreadSelect_invoke g py_int argv (live, s)
           = (_switch_thread_context g (with_active true t)
                (live, set_thread_cache cache s),
              [],
              Done {| new_thread_id := k;
                      select_frame :=
                        _build_frame_dict g
                          (fst (_switch_thread_context g (with_active true t)
                                  (live, set_thread_cache cache s)))
                          (with_active true t) true |})).
Proof.
  intros Htarget Hcache. unfold MIOverrideThreadSelect_invoke.
  rewrite Htarget. unfold _ensure_thread_cache.
  destruct (thread_cache s) as [|t0 cache0] eqn:Hc; [congruence|].
  rewrite Hc.
  pose proof (scan_select_target k (t0 :: cache0) 0 None None) as Hscan.
  destruct (scan_select k (t0 :: cache0) 0 None None) as [[[j t]|] prev].
  - right. cbn [fst] in Hscan. destruct Hscan as [H | [Hin Hlwp]]; [discriminate|].
    exists t.
    eexists (set_active_at j true
               match prev with
               | Some prev_index => set_active_at prev_index false (t0 :: cache0)
               | None => t0 :: cache0
               end).
    split; [exact Hlwp|].
    split; [|split].
    + rewrite (proj1 (set_active_at_same_threads _ _ _)).
      destruct prev; [apply set_active_at_same_threads | reflexivity].
    + rewrite (proj2 (set_active_at_same_threads _ _ _)).
      destruct prev; [apply set_active_at_same_threads | reflexivity].
    + destruct (_switch_thread_context g (with_active true t) _) as [live' s'].
      cbn [fst lwp with_active]. now rewrite Hlwp.
  - left. cbn [fst] in Hscan. destruct Hscan as [_ Hall]. now split.
Qed.

(** X19.  [-override-thread-select] with an id no thread of the registry
    has fails with "not known" and changes neither the registers nor the
    session.  In every case it leaves the registry's threads (ids and
    addresses, in order) and the hardware-active id as they were, so the
    current-thread id the MI commands report stays the hardware-active
    thread's, not the selected one's. *)
Theorem select_keeps_registry (g : Gdb) (py_int : string -> option Z)
    (argv : list string) (live : Regs) (s : Session) (k : Z) :
  select_target_lwp py_int argv = Done k ->
  thread_cache s <> [] ->
  ((forall t, In t (thread_cache s) -> lwp t <> k) ->
   MIOverrideThreadSelect_invoke g py_int argv (live, s)
   = ((live, s), [], Failed (ThreadIdNotKnown k)))
  /\ map lwp (thread_cache (snd (fst (fst
            (MIOverrideThreadSelect_invoke g py_int argv (live, s))))))
     = map lwp (thread_cache s)
  /\ map thread_ptr (thread_cache (snd (fst (fst
            (MIOverrideThreadSelect_invoke g py_int argv (live, s))))))
     = map thread_ptr (thread_cache s)
  /\ _hw_active_lwp (snd (fst (fst
            (MIOverrideThreadSelect_invoke g py_int argv (live, s)))))
     = _hw_active_lwp s
  /\ (_hw_active_lwp s <> None ->
      _get_current_thread_id (snd (fst (fst
            (MIOverrideThreadSelect_invoke g py_int argv (live, s)))))
      = _get_current_thread_id s).
Proof.
  intros Htarget Hcache.
  destruct (select_effect g py_int argv live s k Htarget Hcache)
    as [[Hfail Hall] | (t & cache & Hlwp & Hids & Hptrs & Hrun)].
  - rewrite Hfail. cbn [fst snd].
    split; [intros _; reflexivity | repeat split; reflexivity].
  - rewrite Hrun. cbn [fst snd].
    rewrite (switch_keeps_session g (with_active true t) live (set_thread_cache cache s)).
    cbn [thread_cache _hw_active_lwp set_real_cpu_regs set_thread_cache].
    split; [|split; [exact Hids | split; [exact Hptrs | split; [reflexivity|]]]].
    + intros Hall. exfalso.
      assert (Hin : In k (map lwp (thread_cache s))).
      { rewrite <- Hids.
        pose proof (select_effect g py_int argv live s k Htarget Hcache) as Hagain.
        destruct Hagain as [[Hfail _] | _].
        - rewrite Hfail in Hrun. discriminate.
        - clear -Hall Hids Hlwp Hrun Htarget Hcache.
          (* the thread switched to is one of the registry *)
          unfold MIOverrideThreadSelect_invoke in Hrun. rewrite Htarget in Hrun.
          unfold _ensure_thread_cache in Hrun.
          destruct (thread_cache s) as [|t0 cache0] eqn:Hc; [congruence|].
          rewrite Hc in Hrun.
          pose proof (scan_select_target k (t0 :: cache0) 0 None None) as Hscan.
          destruct (scan_select k (t0 :: cache0) 0 None None) as [[[j t']|] prev].
          + cbn [fst] in Hscan. destruct Hscan as [H | [Hin Hk]]; [discriminate|].
            rewrite Hids. apply in_map_iff. exists t'. now split.
          + discriminate. }
      apply in_map_iff in Hin. destruct Hin as (t' & Ht' & Hin).
      now apply (Hall t').
    + intros Hhw. unfold _get_current_thread_id.
      cbn [_hw_active_lwp set_real_cpu_regs set_thread_cache].
      destruct (_hw_active_lwp s); [reflexivity | congruence].
Qed.

Lemma select_keeps_registry_witness :
  MIOverrideThreadSelect_invoke small_board decimal_int ["7"] (live_regs, stopped_session)
  = ((live_regs, stopped_session), [], Failed (ThreadIdNotKnown 7))
  /\ _get_current_thread_id
       (snd (fst (fst (MIOverrideThreadSelect_invoke small_board decimal_int ["2"]
                         (live_regs, stopped_session)))))
     = Some 1.
Proof.
  split.
  - apply (proj1 (select_keeps_registry small_board decimal_int ["7"] live_regs
                    stopped_session 7 eq_refl ltac:(discriminate))).
    intros t Ht. vm_compute in Ht.
    destruct Ht as [<- | [<- | [<- | []]]]; discriminate.
  - rewrite (proj2 (proj2 (proj2 (proj2
               (select_keeps_registry small_board decimal_int ["2"] live_regs
                  stopped_session 2 eq_refl ltac:(discriminate)))))
               ltac:(discriminate)).
    reflexivity.
Defined.

(** X20.  Selecting any other thread and then selecting the
    hardware-active thread again puts the live registers back: from a state
    without snapshot, after [-override-thread-select b] followed by
    [-override-thread-select a], where [a] is the hardware-active id and a
    thread of the registry, the registers are those of entry and no
    snapshot is left - provided the debugger performs the two restoring
    writes. *)
Theorem select_round_trip (g : Gdb) (py_int : string -> option Z)
    (argv_b argv_a : list string) (live : Regs) (s : Session) (a b : Z) :
  _real_cpu_regs s = None ->
  _hw_active_lwp s = Some a ->
  In a (map lwp (thread_cache s)) ->
  select_target_lwp py_int argv_b = Done b ->
  b <> a ->
  select_target_lwp py_int argv_a = Done a ->
  reg_writable g SP (sp live) = true ->
  reg_writable g PC (pc live) = true ->
  fst (fst (fst (MIOverrideThreadSelect_invoke g py_int argv_a
                   (fst (fst (MIOverrideThreadSelect_invoke g py_int argv_b
                                (live, s)))))))
  = live
  /\ _real_cpu_regs
       (snd (fst (fst (MIOverrideThreadSelect_invoke g py_int argv_a
                         (fst (fst (MIOverrideThreadSelect_invoke g py_int argv_b
                                      (live, s))))))))
     = None.
Proof.
  intros Hnone Hhw Hin Hb Hba Ha Hsp Hpc.
  assert (Hcache : thread_cache s <> []) by (destruct (thread_cache s); [destruct Hin | discriminate]).
  (* the state after the first command *)
  assert (Hfirst : exists cache,
             map lwp cache = map lwp (thread_cache s)
             /\ away_from live (set_thread_cache cache s)
                  (fst (fst (MIOverrideThreadSelect_invoke g py_int argv_b (live, s))))).
  { destruct (select_effect g py_int argv_b live s b Hb Hcache)
      as [[Hfail _] | (t & cache & Hlwp & Hids & _ & Hrun)].
    - exists (thread_cache s). split; [reflexivity|].
      rewrite Hfail. cbn [fst]. left. f_equal. now destruct s.
    - exists cache. split; [exact Hids|].
      rewrite Hrun. cbn [fst].
      apply switch_suspended_away.
      + exact Hnone.
      + unfold is_hw_active. cbn [_hw_active_lwp set_thread_cache lwp with_active].
        rewrite Hhw, Hlwp. now apply Z.eqb_neq.
      + now left. }
  destruct Hfirst as (cache & Hids & Haway).
  destruct (fst (fst (MIOverrideThreadSelect_invoke g py_int argv_b (live, s))))
    as [live1 s1].
  assert (Hs1 : s1 = set_thread_cache cache s
                \/ s1 = set_real_cpu_regs (Some live) (set_thread_cache cache s)).
  { destruct Haway as [H | H]; [left; congruence | right; exact H]. }
  assert (Hcache1 : thread_cache s1 <> []).
  { assert (Hc : map lwp (thread_cache s1) = map lwp (thread_cache s))
      by (destruct Hs1 as [-> | ->]; exact Hids).
    intros Hempty. rewrite Hempty in Hc. rewrite <- Hc in Hin. destruct Hin. }
  assert (Hhw1 : _hw_active_lwp s1 = Some a) by (destruct Hs1 as [-> | ->]; exact Hhw).
  destruct (select_effect g py_int argv_a live1 s1 a Ha Hcache1)
    as [[_ Hall] | (t & cache' & Hlwp & _ & _ & Hrun)].
  - exfalso.
    assert (Hin1 : In a (map lwp (thread_cache s1)))
      by (destruct Hs1 as [-> | ->]; cbn [thread_cache set_thread_cache set_real_cpu_regs];
          now rewrite Hids).
    apply in_map_iff in Hin1. destruct Hin1 as (t & Ht & Hin1). now apply (Hall t).
  - rewrite Hrun. cbn [fst].
    unfold _switch_thread_context, is_hw_active.
    cbn [_hw_active_lwp set_thread_cache lwp with_active]. rewrite Hhw1, Hlwp, Z.eqb_refl.
    cbn [_real_cpu_regs set_thread_cache].
    destruct Haway as [H | H].
    + injection H as -> ->. cbn [_real_cpu_regs set_thread_cache]. rewrite Hnone.
      cbn [fst snd _real_cpu_regs set_thread_cache]. now split.
    + cbn [snd] in H. subst s1. cbn [_real_cpu_regs set_real_cpu_regs].
      rewrite (write_sp_pc_accepted g live live1 Hsp Hpc). now split.
Qed.

Lemma select_round_trip_witness :
  fst (fst (fst (MIOverrideThreadSelect_invoke small_board decimal_int ["1"]
                   (fst (fst (MIOverrideThreadSelect_invoke small_board decimal_int
                                ["--override-thread"; "3"]
                                (live_regs, stopped_session)))))))
  = live_regs
  /\ fst (fst (fst (MIOverrideThreadSelect_invoke small_board decimal_int
                      ["--override-thread"; "3"] (live_regs, stopped_session))))
     = {| sp := 0x20000380; pc := 0x08004321 |}.
Proof.
  split; [|reflexivity].
  apply (select_round_trip small_board decimal_int ["--override-thread"; "3"] ["1"]
           live_regs stopped_session 1 3); try reflexivity.
  - vm_compute. now left.
  - discriminate.
Defined.

(** X21.  [-override-stack-list-frames] on a non-empty registry prints
    nothing and leaves the session as it was - flags, snapshot and all -
    whatever its arguments; when the debugger refuses no register write it
    leaves the live registers as they were too.  With exactly one
    positional argument it fails with the usage message. *)
Theorem stack_list_frames_keeps_state (g : Gdb) (py_int : string -> option Z)
    (argv : list string) (live : Regs) (s : Session) :
  thread_cache s <> [] ->
  snd (fst (fst (MIOverrideStackListFrames_invoke g py_int argv (live, s)))) = s
  /\ snd (fst (MIOverrideStackListFrames_invoke g py_int argv (live, s))) = []
  /\ ((forall r v, reg_writable g r v = true) ->
      fst (fst (fst (MIOverrideStackListFrames_invoke g py_int argv (live, s)))) = live)
  /\ (forall thread_id only,
        _parse_override_thread_argv py_int argv = Done (thread_id, [only]) ->
        snd (MIOverrideStackListFrames_invoke g py_int argv (live, s))
        = Failed StackListFramesUsage).
Proof.
  intros Hcache. unfold MIOverrideStackListFrames_invoke, _ensure_thread_cache.
  destruct (thread_cache s) as [|t0 cache0] eqn:Hc; [congruence|].
  destruct (_parse_override_thread_argv py_int argv) as [[thread_id positional]|e].
  2:{ cbn [fst snd]. repeat split; try reflexivity. intros; discriminate. }
  destruct (stack_bounds py_int positional) as [[low high]|e] eqn:Hbounds.
  2:{ cbn [fst snd]. repeat split; try reflexivity.
      intros thread_id' only H. injection H as -> ->.
      cbn [stack_bounds] in Hbounds. congruence. }
  destruct (stack_target s thread_id) as [target|e].
  2:{ cbn [fst snd]. repeat split; try reflexivity.
      intros thread_id' only H. injection H as -> ->.
      cbn [stack_bounds] in Hbounds. discriminate. }
  assert (Hregs : (forall r v, reg_writable g r v = true) ->
                  fst (_build_frame_list g target low high live) = live).
  { intros Hw. unfold _build_frame_list. destruct (active target).
    - destruct (walk (newest_frame g live) low high) as [frames [e|]]; reflexivity.
    - pose proof (unwind_suspended_restores g target low high live Hw) as H.
      destruct (unwind_suspended g target low high live) as [[live' frames] unwound].
      cbn [fst] in H. subst live'.
      destruct (negb unwound && wants_level0 low); reflexivity. }
  destruct (_build_frame_list g target low high live) as [live' frames].
  cbn [fst snd] in *. repeat split; try reflexivity.
  - exact Hregs.
  - intros thread_id' only H. injection H as -> ->.
    cbn [stack_bounds] in Hbounds. discriminate.
Qed.

Lemma stack_list_frames_keeps_state_witness :
  fst (fst (MIOverrideStackListFrames_invoke small_board decimal_int
              ["--override-thread"; "2"; "0"; "19"] (live_regs, stopped_session)))
  = (live_regs, stopped_session)
  /\ snd (MIOverrideStackListFrames_invoke small_board decimal_int
            ["--override-thread"; "2"; "5"] (live_regs, stopped_session))
     = Failed StackListFramesUsage.
Proof.
  destruct (stack_list_frames_keeps_state small_board decimal_int
              ["--override-thread"; "2"; "0"; "19"] live_regs stopped_session
              ltac:(discriminate)) as (Hs & _ & Hregs & _).
  destruct (stack_list_frames_keeps_state small_board decimal_int
              ["--override-thread"; "2"; "5"] live_regs stopped_session
              ltac:(discriminate)) as (_ & _ & _ & Husage).
  split.
  - apply injective_projections; cbn [fst snd]; [|exact Hs].
    apply Hregs. intros r v. reflexivity.
  - apply (Husage (Some 2) "5"). reflexivity.
Defined.

(** ** From exit to rediscovery *)

(** X22.  The exit handler drops the cached offsets with everything else,
    so after an exit every stop, on whatever target, aborts its cycle: the
    state stays as the exit left it, with an empty registry, and the only
    output is what [detect_architecture] prints for an unknown
    architecture.  Thread awareness comes
    back with [zephyr-discovery]: after [zephyr-discovery hardcoded] a stop
    on a target whose [_kernel] is readable and whose thread list is not
    null fills the registry again, starting with the thread of the list
    head under id 1.  An argument that is not one of the three modes leaves
    the session as it was. *)
Theorem exit_needs_rediscovery (g : Gdb) (live : Regs) (s : Session) :
  stop_handler g (live, exit_handler s)
  = ((live, exit_handler s), detect_architecture_output g)
  /\ (forall kernel head,
        parse_and_eval_kernel g = Ok kernel ->
        k_threads kernel = Ok head ->
        head <> 0 ->
        exists first more,
          thread_cache
            (snd (fst (stop_handler g
                         (live, fst (CommandZephyrDiscovery_invoke g "hardcoded"
                                       (exit_handler s))))))
          = first :: more
          /\ thread_ptr first = head
          /\ lwp first = 1)
  /\ (forall mode, mode <> "auto" -> mode <> "symbols" -> mode <> "hardcoded" ->
        CommandZephyrDiscovery_invoke g mode s = (s, None)).
Proof.
  split; [|split].
  - unfold stop_handler, discover_threads.
    cbn [exit_handler _real_cpu_regs _cached_offsets set_next_lwp warn].
    now rewrite app_nil_r.
  - intros kernel head Hkernel Hthreads Hhead.
    unfold stop_handler.
    cbn [CommandZephyrDiscovery_invoke String.eqb Ascii.eqb Bool.eqb orb
         get_kernel_offsets set_discovery_mode _discovery_mode snd fst
         exit_handler set_cached_offsets _real_cpu_regs].
    match goal with
    | |- context [discover_threads g false ?s1] =>
        destruct (discover_threads_runs g false s1 Hardcoded kernel head
                    eq_refl Hkernel Hthreads Hhead) as (out & out' & Hrun & _ & _)
    end.
    rewrite Hrun. cbn [fst snd thread_cache].
    destruct (traverse_starts_at_head g (read_current kernel) Hardcoded
                (detect_architecture g) head 1 Hhead) as [more Hmore].
    rewrite Hmore. eexists. exists more. now repeat split.
  - intros mode Hauto Hsym Hhard. unfold CommandZephyrDiscovery_invoke.
    destruct mode as [|c mode]; [reflexivity|].
    apply String.eqb_neq in Hauto. apply String.eqb_neq in Hsym.
    apply String.eqb_neq in Hhard.
    now rewrite Hauto, Hsym, Hhard.
Qed.

Lemma exit_needs_rediscovery_witness :
  map lwp
    (thread_cache
       (snd (fst (stop_handler small_board
                    (live_regs,
                     fst (CommandZephyrDiscovery_invoke small_board "hardcoded"
                            (exit_handler stopped_session)))))))
  = [1; 2; 3]
  /\ CommandZephyrDiscovery_invoke small_board "fast" stopped_session
     = (stopped_session, None)
  /\ snd (stop_handler mips_board (live_regs, exit_handler stopped_session))
     = [Diagnostic "Warning: Unknown architecture: mips";
        Diagnostic "Thread awareness may not work correctly";
        Diagnostic "Supported: ARM Cortex-M, x86/x86-64, ARC, RISC-V"].
Proof.
  destruct (exit_needs_rediscovery small_board live_regs stopped_session)
    as (_ & Hback & Hmode).
  destruct (Hback (kernel_at node_A) node_A eq_refl eq_refl ltac:(discriminate))
    as (first & more & Hcache & _ & _).
  split; [reflexivity|]. split; [apply Hmode; discriminate|].
  now rewrite (proj1 (exit_needs_rediscovery mips_board live_regs stopped_session)).
Defined.

(** ** More on cycles and stops *)

(** X23.  A cycle that got past its preconditions leaves a registry that
    is not empty: its first thread is the one at the list head, with id 1.
    Every thread of the registry carries the architecture handler detected
    in that cycle and the cached offset table. *)
Theorem registry_after_cycle (g : Gdb) (verbose : bool) (s : Session) :
  ~ precondition_fails g s ->
  (exists kernel head first more,
     parse_and_eval_kernel g = Ok kernel
     /\ k_threads kernel = Ok head
     /\ thread_cache (fst (discover_threads g verbose s)) = first :: more
     /\ thread_ptr first = head
     /\ lwp first = 1)
  /\ (forall t, In t (thread_cache (fst (discover_threads g verbose s))) ->
                arch t = detect_architecture g
                /\ Some (offsets t) = _cached_offsets s).
Proof.
  intros Hpre.
  destruct (completed_cycle_cache g verbose s Hpre)
    as (offs & kernel & head & Hoffs & Hkernel & Hthreads & Hhead & Hcache & _ & _).
  split.
  - destruct (traverse_starts_at_head g (read_current kernel) offs
                (detect_architecture g) head 1 Hhead) as [more Hmore].
    exists kernel, head. eexists. exists more.
    rewrite Hcache, Hmore. now repeat split.
  - intros t Ht. rewrite Hcache in Ht.
    pose proof (traverse_forall g (read_current kernel) offs (detect_architecture g)
                  head 1
                  (fun t => arch t = detect_architecture g /\ offsets t = offs)
                  (fun _ _ => conj eq_refl eq_refl)) as Hall.
    rewrite Forall_forall in Hall. destruct (Hall t Ht) as [Harch Hoff].
    split; [exact Harch | now rewrite Hoff, Hoffs].
Qed.

Lemma registry_after_cycle_witness :
  Forall (fun t => arch t = ARCHandler /\ Some (offsets t) = Some Hardcoded)
    (thread_cache (fst (discover_threads riscv_board false fresh_session))).
Proof.
  apply Forall_forall.
  assert (Hpre : ~ precondition_fails riscv_board fresh_session).
  { intros [H | [[e H] | (kernel & Hk & [[e H] | H])]]; try discriminate.
    - injection Hk as <-. discriminate.
    - injection Hk as <-. discriminate. }
  apply (proj2 (registry_after_cycle riscv_board false fresh_session Hpre)).
Defined.

Lemma discover_threads_quiet (g : Gdb) (s : Session) :
  snd (discover_threads g false s)
  = detect_architecture_output g
    ++ announce (thread_cache s) (thread_cache (fst (discover_threads g false s))).
Proof.
  destruct (_cached_offsets s) as [offs|] eqn:Hoffs.
  2:{ enter_cycle Hoffs. cbn [fst snd thread_cache warn].
      now rewrite announce_nothing_new by apply incl_refl. }
  destruct (parse_and_eval_kernel g) as [kernel|e] eqn:Hkernel.
  2:{ enter_cycle Hoffs. rewrite Hkernel. cbn [fst snd thread_cache warn].
      now rewrite announce_nothing_new by apply incl_refl. }
  assert (Hcur : current_warning false (read_current kernel) = [])
    by (now destruct (read_current kernel)).
  destruct (k_threads kernel) as [head|e] eqn:Hthreads.
  2:{ enter_cycle Hoffs. rewrite Hkernel. enter_cycle Hoffs. rewrite Hthreads.
      cbn [fst snd thread_cache warn]. rewrite Hcur.
      now rewrite announce_nothing_new by apply incl_refl. }
  destruct (Z.eq_dec head 0) as [-> | Hhead].
  { enter_cycle Hoffs. rewrite Hkernel. enter_cycle Hoffs. rewrite Hthreads.
    cbn [Z.eqb fst snd thread_cache warn]. rewrite Hcur.
    now rewrite announce_nothing_new by apply incl_refl. }
  unfold discover_threads.
  cbn [_cached_offsets set_next_lwp set_current_thread_ptr]. rewrite Hoffs, Hkernel.
  cbn [_cached_offsets set_next_lwp set_current_thread_ptr]. rewrite Hthreads.
  apply Z.eqb_neq in Hhead. rewrite Hhead.
  cbn [fst snd next_lwp thread_cache set_next_lwp set_current_thread_ptr
       set_thread_cache set_hw_active_lwp andb warn].
  rewrite Hcur. cbn [app]. now rewrite app_nil_r.
Qed.

(** X24.  A second stop on an unchanged target changes nothing and
    announces no thread: the stop handler run on the state a stop has left
    returns that state, and its only output is what [detect_architecture]
    prints for an unknown architecture - lines that are printed again at
    every stop, the cycle of a stop being a quiet one or not. *)
Theorem stop_handler_twice (g : Gdb) (st : Regs * Session) :
  stop_handler g (fst (stop_handler g st))
  = (fst (stop_handler g st), detect_architecture_output g).
Proof.
  destruct st as [live s].
  assert (Hshape : exists live1 s0,
             _real_cpu_regs s0 = None
             /\ fst (stop_handler g (live, s))
                = (live1, fst (discover_threads g false s0))).
  { unfold stop_handler. destruct (_real_cpu_regs s) as [saved|] eqn:Hsnap.
    - exists (write_sp_pc_swallow g saved live), (set_real_cpu_regs None s).
      split; [reflexivity|].
      now destruct (discover_threads g false (set_real_cpu_regs None s)).
    - exists live, s. split; [exact Hsnap|].
      now destruct (discover_threads g false s). }
  destruct Hshape as (live1 & s0 & Hnone & ->).
  unfold stop_handler.
  rewrite discover_threads_real_cpu_regs, Hnone.
  pose proof (discover_threads_again g false s0) as [Hsame _].
  pose proof (discover_threads_quiet g (fst (discover_threads g false s0))) as Hout.
  rewrite Hsame in Hout.
  rewrite announce_nothing_new, app_nil_r in Hout by apply incl_refl.
  destruct (discover_threads g false (fst (discover_threads g false s0))) as [s2 out2].
  cbn [fst snd] in *. now subst.
Qed.
